(** * Agent orchestration engine: chat-reply parsing, worker supervision,
      scheduling, retry and cost accounting

    Shallow embedding of [src/agents/orchestrator.ts],
    [src/agents/chat-agent.ts] (function [parseChatResponse]),
    [src/agents/types.ts] and [src/claude/invoker.ts]
    ([invokeClaude], [invokeClaudeInternal]).

    Conventions of the model
    - JavaScript strings are Rocq [string]s; one [ascii] stands for one
      code unit.  [toLowerCase] and [trim] act on the ASCII range, other
      code units are left alone.
    - Money amounts ([costUsd], [totalCostUsd]) are exact numbers ([Z], in
      an arbitrary fixed sub-unit of a dollar); IEEE rounding is outside
      the model.
    - Everything the engine does not compute itself is an input of the
      model: the behaviour of the child processes, of the worker agent,
      of the abort signals, [JSON.parse] and the plan parser. *)

From Stdlib Require Import String Ascii ZArith Bool Lia.
From stdpp Require Import base option list gmap strings pretty.

Set Warnings "-register-all,-clear-no-such-hyp".
Local Open Scope string_scope.
Local Open Scope list_scope.

(** ** JavaScript string primitives *)

Module JsString.

Definition nl : string := String "010"%char EmptyString.

  (** [s.startsWith(pat)] *)
Definition startsWith (s pat : string) : bool := String.prefix pat s.

  (** [s.includes(pat)] *)
Fixpoint includes (s pat : string) : bool :=
    String.prefix pat s
    || match s with
       | EmptyString => false
       | String _ s' => includes s' pat
       end.

(** [s.slice(n)] *)
Fixpoint sliceFrom (n : nat) (s : string) : string :=
    match n, s with
    | O, _ => s
    | S _, EmptyString => EmptyString
    | S n', String _ s' => sliceFrom n' s'
    end.

(** [s.slice(0, n)] *)
Fixpoint sliceTo (n : nat) (s : string) : string :=
    match n, s with
    | O, _ => EmptyString
    | S _, EmptyString => EmptyString
    | S n', String c s' => String c (sliceTo n' s')
    end.

  (** Split [s] around the leftmost occurrence of [pat]:
      [cut pat s = Some (a, b)] when [s = a ++ pat ++ b] and [a ++ pat]
      holds no earlier occurrence. *)
Fixpoint cut (pat s : string) : option (string * string) :=
    if String.prefix pat s then Some (EmptyString, sliceFrom (String.length pat) s)
    else match s with
         | EmptyString => None
         | String c s' =>
             match cut pat s' with
             | Some (a, b) => Some (String c a, b)
             | None => None
             end
         end.

Definition lowerChar (c : ascii) : ascii :=
    let n := nat_of_ascii c in
    if (65 <=? n)%nat && (n <=? 90)%nat then ascii_of_nat (n + 32) else c.

  (** [s.toLowerCase()] *)
Fixpoint toLowerCase (s : string) : string :=
    match s with
    | EmptyString => EmptyString
    | String c s' => String (lowerChar c) (toLowerCase s')
    end.

(** The white space of [trim] among the code units below 256: tab to
    carriage return, the space and the no-break space. *)
Definition isWhite (c : ascii) : bool :=
    let n := nat_of_ascii c in
    ((9 <=? n)%nat && (n <=? 13)%nat) || (n =? 32)%nat || (n =? 160)%nat.

Fixpoint trimStart (s : string) : string :=
    match s with
    | EmptyString => EmptyString
    | String c s' => if isWhite c then trimStart s' else s
    end.

Fixpoint trimEnd (s : string) : string :=
    match s with
    | EmptyString => EmptyString
    | String c s' =>
        match trimEnd s' with
        | EmptyString => if isWhite c then EmptyString else String c EmptyString
        | t => String c t
        end
    end.

  (** [s.trim()] *)
Definition trim (s : string) : string := trimEnd (trimStart s).

Definition isEmpty (s : string) : bool :=
    match s with EmptyString => true | _ => false end.

  (** [a || b] on strings: the empty string is falsy. *)
Definition orElse (a b : string) : string := if isEmpty a then b else a.

  (** [parts.join(sep)] *)
Definition join (sep : string) (parts : list string) : string :=
    String.concat sep parts.

End JsString.
Import JsString.

(** ** JSON values, as [JSON.parse] returns them *)

Inductive json : Type :=
| JNull
| JBool (b : bool)
| JNum (z : Z)
| JStr (s : string)
| JArr (items : list json)
| JObj (fields : list (string * json)).

Module Json.

Fixpoint assoc (k : string) (fields : list (string * json)) : option json :=
    match fields with
    | [] => None
    | (k', v) :: rest => if String.eqb k k' then Some v else assoc k rest
    end.

  (** Property read [v.k]; [None] is [undefined].  (Reading a property of
      [null] throws; callers treat [JNull] before they read.) *)
Definition get (k : string) (v : json) : option json :=
    match v with
    | JObj fields => assoc k fields
    | _ => None
    end.

  (** Truthiness of a possibly undefined value. *)
Definition truthy (o : option json) : bool :=
    match o with
    | None | Some JNull => false
    | Some (JBool b) => b
    | Some (JNum z) => negb (z =? 0)%Z
    | Some (JStr s) => negb (isEmpty s)
    | Some (JArr _) | Some (JObj _) => true
    end.

  (** [o === "lit"] *)
Definition isString (lit : string) (o : option json) : bool :=
    match o with
    | Some (JStr s) => String.eqb s lit
    | _ => false
    end.

End Json.

(** ** chat-agent.ts: [parseChatResponse] *)

Module ChatAgent.

Definition ACTION_OPEN : string := "<RUMPBOT_ACTION>".
Definition ACTION_CLOSE : string := "</RUMPBOT_ACTION>".
Definition MEMORY_OPEN : string := "<TIFFBOT_MEMORY>".
Definition MEMORY_CLOSE : string := "</TIFFBOT_MEMORY>".
Definition PLACEHOLDER : string := "Working on it...".

  (** A match of the regular expression [open([\s\S]*?)close] in [text],
      as [(before, group 1, after)].  The lazy star stops at the first
      [close] that follows the opening tag; the leftmost opening tag is
      the one tried first, and if no [close] follows it none follows a
      later opening tag either. *)
Definition regexMatch (open close text : string)
    : option (string * string * string) :=
    match cut open text with
    | None => None
    | Some (before, rest) =>
        match cut close rest with
        | None => None
        | Some (body, after) => Some (before, body, after)
        end
    end.

  (** [text.replace(regex, "")]: without the [g] flag only the first
      match is replaced. *)
Definition stripFirst (open close text : string) : string :=
    match regexMatch open close text with
    | Some (before, _, after) => before +:+ after
    | None => text
    end.

Record ParsedChatResponse := {
    chatText : string;
    action : option json;
    memoryNote : option string
  }.

Section WithJsonParse.

    (** [JSON.parse]; [None] when it throws a SyntaxError. *)
Variable JSON_parse : string -> option json.

Definition isWorkRequest (parsed : json) : bool :=
      Json.isString "work_request" (Json.get "type" parsed)
      && Json.truthy (Json.get "task" parsed).

    (** The [try { ... } catch] around the action block. *)
Definition parseAction (body : string) : option json :=
      match JSON_parse (trim body) with
      | None => None
      | Some JNull => None
      | Some parsed => if isWorkRequest parsed then Some parsed else None
      end.

Definition parseChatResponse (text : string) : ParsedChatResponse :=
      let actionMatch := regexMatch ACTION_OPEN ACTION_CLOSE text in
      let action :=
        match actionMatch with
        | Some (_, body, _) => parseAction body
        | None => None
        end in
      let memoryMatch := regexMatch MEMORY_OPEN MEMORY_CLOSE text in
      let memoryNote :=
        match memoryMatch with
        | Some (_, body, _) => Some (trim body)
        | None => None
        end in
      let chatText :=
        trim (stripFirst MEMORY_OPEN MEMORY_CLOSE
                (stripFirst ACTION_OPEN ACTION_CLOSE text)) in
      {| chatText := orElse chatText PLACEHOLDER;
         action := action;
         memoryNote := memoryNote |}.

End WithJsonParse.


End ChatAgent.


(** ** types.ts *)

Record WorkRequest := {
  wq_task : string;
  wq_context : string;
  wq_urgency : string
}.

(** The [dependsOn] of a worker as [validatePlan] lets it through: the
    field is not checked, so it need not be an array. *)
Inductive DependsOn :=
| Unset                       (* absent or falsy: [w.dependsOn || []] is [[]] *)
| Ids (ids : list string)     (* an array *)
| NoArray.                    (* truthy and no array: it has no [every] *)

Record WorkerTask := {
  wt_id : string;
  wt_description : string;
  wt_prompt : string;
  wt_dependsOn : DependsOn
}.

Record WorkerResult := {
  wr_taskId : string;
  wr_success : bool;
  wr_result : string;
  wr_costUsd : option Z;
  wr_duration : option Z
}.

Record OrchestratorPlan := {
  pl_summary : string;
  pl_workers : list WorkerTask;
  pl_sequential : bool
}.

Record OrchestratorSummary := {
  os_overallSuccess : bool;
  os_summary : string;
  os_workerResults : list WorkerResult;
  os_totalCostUsd : Z
}.

(** [x || 0] on an optional amount. *)
Definition orZero (o : option Z) : Z := default 0%Z o.

(** ** invoker.ts *)

Module Invoker.

Record ClaudeResult := {
  cr_result : string;
  cr_sessionId : string;
  cr_costUsd : option Z;
  cr_duration : option Z;
  cr_isError : bool
}.

(** What the spawned CLI process does first: the call-scoped timer fires,
    the process emits ['error'], or it closes.  The promise of
    [invokeClaudeInternal] is settled by the first of these.  An abort
    of the signal kills a running child, which then emits ['error'] with
    an [AbortError] before it closes; [aborted] in [ProcClose] is
    [abortSignal?.aborted] as read by the close handler, true when the
    signal was aborted after the child had exited by itself. *)
Inductive ProcEvent :=
| TimerFired (effectiveTimeout : Z)
| ProcError (message : string)
| ProcClose (code : option Z) (stdout stderr : string) (aborted : bool).

(** The message of the [AbortError] that the child process emits as
    ['error'] when the signal handed to [spawn] is aborted while the
    child runs. *)
Definition ABORT_ERROR : string := "The operation was aborted".

Definition showCode (code : option Z) : string :=
  match code with Some z => pretty z | None => "null" end.

Definition exitedNonZero (code : option Z) : bool :=
  match code with Some z => negb (z =? 0)%Z | None => true end.

Section WithOutputParser.

(** [parseClaudeOutput]; [inl msg] when it throws. *)
Variable parseClaudeOutput : string -> string + ClaudeResult.

(** [inl msg] is a rejection with [new Error(msg)]. *)
Definition invokeClaudeInternal (sessionId : option string) (ev : ProcEvent)
  : string + ClaudeResult :=
  match ev with
  | TimerFired effectiveTimeout =>
      inl ("Claude CLI timed out after " +:+ pretty effectiveTimeout +:+ "ms")
  | ProcError message => inl message
  | ProcClose code stdout stderr aborted =>
      if aborted then inl "Cancelled"
      else if exitedNonZero code && isEmpty stdout then
        let errMsg :=
          orElse stderr ("Claude CLI exited with code " +:+ showCode code) in
        if includes stderr "rate limit" || includes stderr "429"
        then inl ("Rate limited: " +:+ errMsg)
        else inl errMsg
      else
        match parseClaudeOutput stdout with
        | inr parsed => inr parsed
        | inl parseErr =>
            if negb (isEmpty (trim stdout)) then
              inr {| cr_result := trim stdout;
                     cr_sessionId := default "" sessionId;
                     cr_costUsd := None;
                     cr_duration := None;
                     cr_isError := false |}
            else inl parseErr
        end
  end.

Definition isSessionError (msg : string) : bool :=
  includes msg "session" || includes msg "resume"
  || includes msg "not found" || includes msg "invalid".

Definition hasSession (sessionId : option string) : bool :=
  match sessionId with Some s => negb (isEmpty s) | None => false end.

(** [proc resume] is the behaviour of the process spawned with
    [--resume resume] (or without the flag). *)
Definition invokeClaude (sessionId : option string)
    (proc : option string -> ProcEvent) : string + ClaudeResult :=
  match invokeClaudeInternal sessionId (proc sessionId) with
  | inr r => inr r
  | inl err =>
      if hasSession sessionId && isSessionError err
      then invokeClaudeInternal None (proc None)
      else inl err
  end.

End WithOutputParser.

End Invoker.
Import Invoker.

(** ** orchestrator.ts *)

Module Orchestrator.

Definition MAX_WORKERS : nat := 10.
Definition WORKER_TIMEOUT_MS : Z := 300000.
Definition ORCHESTRATION_TIMEOUT_MS : Z := 3600000.
Definition MAX_RESULT_CHARS : nat := 8 * 1000.
Definition MAX_RETRIES : nat := 1.

(** The warning sign that opens the notes of the summary prompt, with
    its variation selector, as the bytes of its UTF-8 encoding. *)
Definition WARNING_SIGN : string := "⚠️".

Definition TRANSIENT_ERROR_PATTERNS : list string :=
  [ "rate limit"; "429"; "timed out"; "timeout"; "ECONNRESET";
    "ECONNREFUSED"; "socket hang up"; "network error"; "overloaded";
    "503"; "502" ].

Definition isTransientError (errorMsg : string) : bool :=
  let lower := toLowerCase errorMsg in
  existsb (fun p => includes lower (toLowerCase p)) TRANSIENT_ERROR_PATTERNS.

Definition formatDuration (ms : Z) : string :=
  let seconds := (ms / 1000)%Z in
  if (seconds <? 60)%Z then pretty seconds +:+ "s"
  else
    let minutes := (seconds / 60)%Z in
    let remainingSec := (seconds mod 60)%Z in
    if (minutes <? 60)%Z then
      if (0 <? remainingSec)%Z
      then pretty minutes +:+ "m " +:+ pretty remainingSec +:+ "s"
      else pretty minutes +:+ "m"
    else
      let hours := (minutes / 60)%Z in
      let remainingMin := (minutes mod 60)%Z in
      pretty hours +:+ "h " +:+ pretty remainingMin +:+ "m".

(** *** The environment of one orchestration *)

(** How the promise of [workerAgent.execute] settles. *)
Inductive Settled :=
| Resolved (r : WorkerResult)
| Rejected (message : option string).

(** One call of [workerAgent.execute] under [executeWithMonitoring]: how
    it settles, which cancellation sources had fired by then, and the
    wall-clock time it took.  [at_handleKilled] is an abort through the
    controller stored in the registry (the kill command). *)
Record Attempt := {
  at_settled : Settled;
  at_timeoutFired : bool;
  at_stallKilled : bool;
  at_handleKilled : bool;
  at_orchAborted : bool;
  at_elapsed : Z
}.

(** The status updates sent straight through [opts.onStatusUpdate] by the
    scheduling code, with the values their messages interpolate.  The
    throttled [sendStatus] updates and the heartbeat are timing-dependent
    and left out. *)
Inductive StatusUpdate :=
| SU_PlanBreakdown (workerCount : nat)
| SU_WorkerTimeout (workerNumber : nat)
| SU_StallKill (workerNumber : nat)
| SU_Retrying (workerNumber : nat)
| SU_RetrySucceeded (workerNumber : nat)
| SU_WorkerComplete (ok : bool) (completedCount totalWorkers : nat)
| SU_SequentialFailFast (workerNumber remaining : nat)
| SU_ParallelFailFast (blockedCount : nat).

(** The data the summary prompt is built from. *)
Record SummaryInput := {
  si_workerResults : list WorkerResult;
  si_orchTimedOut : bool;
  si_failFastTriggered : bool;
  si_totalCostUsd : Z
}.

Record World := {
  (** [parsePlan], with the plan read field by field; [inl msg] when it
      throws [Error(msg)].  A [dependsOn] that is truthy but no array,
      which [validatePlan] lets through, is read as [NoArray]. *)
  parsePlan : string -> string + OrchestratorPlan;
  parseClaudeOutput : string -> string + ClaudeResult;
  (** [n.toFixed(4)] *)
  toFixed4 : Z -> string;
  (** the planning process *)
  planProc : ProcEvent;
  (** the call of [workerAgent.execute] numbered [n] (from 0), on a task;
      the calls are numbered as they stand in [fx_attempts] *)
  workerAgent : nat -> WorkerTask -> Attempt;
  (** [effectiveSignal.aborted] as read after [n] worker calls *)
  signalAborted : nat -> bool;
  (** [orchTimedOut] as read after [n] worker calls *)
  orchTimedOut : nat -> bool;
  (** the summary process, spawned with the summary prompt *)
  summaryProc : string -> ProcEvent
}.

(** Calls made to the worker agent, and status updates sent.  Rounds
    follow one another in time, and so do the workers of the sequential
    loop and the two calls of one [executeWithRetry]; within a round of
    the parallel loop the calls and updates of one worker are kept
    together, worker after worker in the order of [ready], whereas in
    time every first call of the round is made before any of them
    settles. *)
Record Effects := {
  fx_attempts : list WorkerTask;
  fx_status : list StatusUpdate
}.

Definition emit (u : list StatusUpdate) (fx : Effects) : Effects :=
  {| fx_attempts := fx_attempts fx; fx_status := fx_status fx ++ u |}.

(** One entry pushed on [workerResults]: the plan entry it belongs to, its
    worker number, the results handed to [buildWorkerContextPrefix], the
    prompt the worker was started with, and the result. *)
Record Run := {
  run_task : WorkerTask;
  run_number : nat;
  run_prior : list WorkerResult;
  run_prompt : string;
  run_result : WorkerResult
}.

Record ExecState := {
  workerResults : list WorkerResult;
  completedCount : nat;
  failFastTriggered : bool;
  fx : Effects;
  (** bookkeeping of the model: one [Run] per entry of [workerResults] *)
  runs : list Run
}.

Inductive Outcome :=
| Returned (s : OrchestratorSummary)
| Thrown (message : string)
| ThrownTypeError   (* a [TypeError] of the runtime, whatever its message *)
| OutOfFuel.

(** [w.dependsOn || []], for a [dependsOn] on which the array methods
    exist. *)
Definition deps (w : WorkerTask) : list string :=
  match wt_dependsOn w with
  | Ids ids => ids
  | Unset | NoArray => []
  end.

(** [(w.dependsOn || []).every] is not a function. *)
Definition noArray (w : WorkerTask) : bool :=
  match wt_dependsOn w with
  | NoArray => true
  | Unset | Ids _ => false
  end.

Definition withId (task : WorkerTask) (newId : string) : WorkerTask :=
  {| wt_id := newId; wt_description := wt_description task;
     wt_prompt := wt_prompt task; wt_dependsOn := wt_dependsOn task |}.

Definition withPrompt (task : WorkerTask) (p : string) : WorkerTask :=
  {| wt_id := wt_id task; wt_description := wt_description task;
     wt_prompt := p; wt_dependsOn := wt_dependsOn task |}.

(** *** [executeWithMonitoring]: the [.then] / [.catch] handlers *)

Definition workerAborted (a : Attempt) : bool :=
  at_timeoutFired a || at_stallKilled a || at_handleKilled a
  || at_orchAborted a.

Definition settle (task : WorkerTask) (a : Attempt) : WorkerResult :=
  match at_settled a with
  | Resolved r => r
  | Rejected message =>
      let wasKilled := workerAborted a && negb (at_orchAborted a) in
      let wasTimedOut :=
        match message with
        | Some m => includes m "timed out"
        | None => false
        end in
      {| wr_taskId := wt_id task;
         wr_success := false;
         wr_result :=
           if wasKilled then "Worker killed by user"
           else if wasTimedOut
           then "Worker timed out after " +:+ formatDuration WORKER_TIMEOUT_MS
           else "Worker error: " +:+ default "undefined" message;
         wr_costUsd := None;
         wr_duration := Some (at_elapsed a) |}
  end.

Definition timerUpdates (workerNumber : nat) (a : Attempt)
  : list StatusUpdate :=
  (if at_timeoutFired a then [SU_WorkerTimeout workerNumber] else [])
  ++ (if at_stallKilled a then [SU_StallKill workerNumber] else []).

Section Run.

Variable W : World.
(** [opts.workRequest.task] *)
Variable goal : string.
(** the plan, after the cap on the number of workers *)
Variable plan : OrchestratorPlan.

Definition totalWorkers : nat := length (pl_workers plan).

Definition modeLabel : string :=
  if pl_sequential plan then "Sequential" else "Parallel".

Definition planContextForWorkers : string :=
  join nl
    ([ "## Overall Plan Context";
       "Overall goal: " +:+ goal;
       "Plan summary: " +:+ pl_summary plan;
       "Total workers: " +:+ pretty totalWorkers +:+ " ("
         +:+ toLowerCase modeLabel +:+ " execution)";
       "";
       "### All tasks in this plan:" ]
     ++ imap (fun i w =>
                pretty (i + 1) +:+ ". [" +:+ wt_id w +:+ "] "
                  +:+ wt_description w)
          (pl_workers plan)).

Definition truncateResult (r : string) : string :=
  if (MAX_RESULT_CHARS <? String.length r)%nat
  then sliceTo MAX_RESULT_CHARS r +:+ nl +:+ "... (truncated, "
         +:+ pretty (String.length r - MAX_RESULT_CHARS) +:+ " chars omitted)"
  else r.

Definition priorBlock (pr : WorkerResult) : list string :=
  let statusLabel := if wr_success pr then "SUCCESS" else "FAILED" in
  [ nl +:+ "--- " +:+ wr_taskId pr +:+ " [" +:+ statusLabel +:+ "] ---";
    truncateResult (wr_result pr) ].

Definition buildWorkerContextPrefix (workerNumber : nat)
    (priorResults : list WorkerResult) : string :=
  join nl
    ([ planContextForWorkers;
       nl +:+ "You are Worker #" +:+ pretty workerNumber +:+ " of "
         +:+ pretty totalWorkers +:+ "." ]
     ++ match priorResults with
        | [] => []
        | _ =>
            [ nl +:+ "## Results from prior workers:" ]
            ++ concat (map priorBlock priorResults)
            ++ [ nl +:+ "Use the above results to inform your work. "
                   +:+ "Do not repeat work already done." ]
        end).

Definition augmentedPrompt (task : WorkerTask) (workerNumber : nat)
    (priorResults : list WorkerResult) : string :=
  buildWorkerContextPrefix workerNumber priorResults
    +:+ nl +:+ nl +:+ "---" +:+ nl +:+ nl +:+ "## Your specific task:" +:+ nl
    +:+ wt_prompt task.

Definition executeWithMonitoring (task : WorkerTask) (workerNumber : nat)
    (e : Effects) : WorkerResult * Effects :=
  let a := workerAgent W (length (fx_attempts e)) task in
  (settle task a,
   {| fx_attempts := fx_attempts e ++ [task];
      fx_status := fx_status e ++ timerUpdates workerNumber a |}).

Definition executeWithRetry (task : WorkerTask) (workerNumber : nat)
    (e : Effects) : WorkerResult * Effects :=
  let '(result, e1) := executeWithMonitoring task workerNumber e in
  if negb (wr_success result) && isTransientError (wr_result result) then
    let retryTask := withId task (wt_id task +:+ "-retry") in
    let '(result2, e2) :=
      executeWithMonitoring retryTask workerNumber
        (emit [SU_Retrying workerNumber] e1) in
    (result2,
     if wr_success result2 then emit [SU_RetrySucceeded workerNumber] e2
     else e2)
  else (result, e1).

(** The bookkeeping shared by both modes after a worker has settled:
    [workerResults.push(result); completedCount++] and the
    [worker_complete] update. *)
Definition pushResult (r : Run) (st : ExecState) : ExecState :=
  {| workerResults := workerResults st ++ [run_result r];
     completedCount := S (completedCount st);
     failFastTriggered := failFastTriggered st;
     fx := emit [SU_WorkerComplete (wr_success (run_result r))
                   (S (completedCount st)) totalWorkers] (fx st);
     runs := runs st ++ [r] |}.

Definition withEffects (e : Effects) (st : ExecState) : ExecState :=
  {| workerResults := workerResults st;
     completedCount := completedCount st;
     failFastTriggered := failFastTriggered st;
     fx := e;
     runs := runs st |}.

Definition triggerFailFast (u : StatusUpdate) (st : ExecState) : ExecState :=
  {| workerResults := workerResults st;
     completedCount := completedCount st;
     failFastTriggered := true;
     fx := emit [u] (fx st);
     runs := runs st |}.

Definition interrupted (st : ExecState) : bool :=
  signalAborted W (length (fx_attempts (fx st))) || failFastTriggered st.

(** *** Sequential mode: the [for] loop, from index [idx] on *)

Fixpoint sequentialLoop (ws : list WorkerTask) (idx : nat) (st : ExecState)
  : ExecState :=
  match ws with
  | [] => st
  | task :: rest =>
      if interrupted st then st
      else
        let workerNumber := idx + 1 in
        let prior := workerResults st in
        let p := augmentedPrompt task workerNumber prior in
        let '(result, e1) :=
          executeWithRetry (withPrompt task p) workerNumber (fx st) in
        let st1 :=
          pushResult {| run_task := task; run_number := workerNumber;
                        run_prior := prior; run_prompt := p;
                        run_result := result |}
            (withEffects e1 st) in
        let st2 :=
          if wr_success result then st1
          else triggerFailFast
                 (SU_SequentialFailFast workerNumber
                    (totalWorkers - completedCount st1)) st1 in
        sequentialLoop rest (S idx) st2
  end.

(** *** Parallel mode: rounds over the dependency graph *)

Record ParState := {
  ps_exec : ExecState;
  remaining : gset string;
  completed : gset string;
  resultMap : gmap string WorkerResult
}.

(** [plan.workers.forEach((w, i) => workerNumberMap.set(w.id, i + 1))] *)
Definition workerNumberMap : gmap string nat :=
  fold_left (fun m iw => <[wt_id iw.2 := iw.1 + 1]> m)
    (imap (fun i w => (i, w)) (pl_workers plan)) ∅.

(** [workerNumberMap.get(id)!]; every plan entry has a number. *)
Definition workerNumberOf (id : string) : nat :=
  default 0 (workerNumberMap !! id).

Definition isReady (ps : ParState) (w : WorkerTask) : bool :=
  bool_decide (wt_id w ∈ remaining ps)
  && forallb (fun dep => bool_decide (dep ∈ completed ps)) (deps w).

Definition readyWorkers (ps : ParState) : list WorkerTask :=
  List.filter (isReady ps) (pl_workers plan).

Definition depResults (ps : ParState) (task : WorkerTask)
  : list WorkerResult :=
  omap (fun depId => resultMap ps !! depId) (deps task).

(** [Promise.all(augmentedTasks.map(executeWithRetry))]: the results in
    the order of [ready]; in the log the attempts of one worker are kept
    together (see [Effects]). *)
Fixpoint runAll (ps : ParState) (ready : list WorkerTask) (e : Effects)
  : list Run * Effects :=
  match ready with
  | [] => ([], e)
  | task :: rest =>
      let workerNumber := workerNumberOf (wt_id task) in
      let prior := depResults ps task in
      let p := augmentedPrompt task workerNumber prior in
      let '(result, e1) :=
        executeWithRetry (withPrompt task p) workerNumber e in
      let '(rs, e2) := runAll ps rest e1 in
      ({| run_task := task; run_number := workerNumber; run_prior := prior;
          run_prompt := p; run_result := result |} :: rs, e2)
  end.

(** The [for] loop over the settled batch. *)
Definition recordRun (ps : ParState) (r : Run) : ParState :=
  let id := wt_id (run_task r) in
  {| ps_exec := pushResult r (ps_exec ps);
     remaining := remaining ps ∖ {[ id ]};
     completed := completed ps ∪ {[ id ]};
     resultMap := <[ id := run_result r ]> (resultMap ps) |}.

Definition recordBatch (ps : ParState) (batch : list Run) : ParState :=
  fold_left recordRun batch ps.

Definition batchHadFailure (batch : list Run) : bool :=
  existsb (fun r => negb (wr_success (run_result r))) batch.

(** [results.filter((r) => !r.success).map((_, i) => ready[i].id)]: the
    index [i] of the [map] callback counts within the filtered array. *)
Definition failedIds (ready : list WorkerTask) (results : list WorkerResult)
  : gset string :=
  list_to_set
    (imap (fun i _ => from_option wt_id "" (ready !! i))
       (List.filter (fun r => negb (wr_success r)) results)).

Definition blockedWorkers (remaining' : gset string) (failed : gset string)
  : list WorkerTask :=
  List.filter
    (fun w => bool_decide (wt_id w ∈ remaining')
              && existsb (fun dep => bool_decide (dep ∈ failed)) (deps w))
    (pl_workers plan).

Definition withExec (st : ExecState) (ps : ParState) : ParState :=
  {| ps_exec := st; remaining := remaining ps; completed := completed ps;
     resultMap := resultMap ps |}.

Definition runRound (ps : ParState) (ready : list WorkerTask) : ParState :=
  let '(batch, e1) := runAll ps ready (fx (ps_exec ps)) in
  let ps1 := recordBatch (withExec (withEffects e1 (ps_exec ps)) ps) batch in
  if batchHadFailure batch then
    let failed := failedIds ready (map run_result batch) in
    let blocked := blockedWorkers (remaining ps1) failed in
    match blocked with
    | [] => ps1
    | _ =>
        withExec
          (triggerFailFast (SU_ParallelFailFast (length blocked))
             (ps_exec ps1)) ps1
    end
  else ps1.

(** Why the [while] loop was left. *)
Inductive StopReason :=
| AllDone       (* [remaining.size > 0] is false *)
| Interrupted   (* [effectiveSignal.aborted || failFastTriggered] *)
| Crashed       (* the filter for [ready] throws a [TypeError] *)
| Deadlock.     (* [ready.length === 0], logged as an error *)

(** The callback of the filter for [ready] throws: for some plan entry
    [remaining.has(w.id)] holds and [w.dependsOn] is truthy but no
    array. *)
Definition readyThrows (ps : ParState) : bool :=
  existsb (fun w => bool_decide (wt_id w ∈ remaining ps) && noArray w)
    (pl_workers plan).

(** One test of the loop condition and, if the loop goes on, one round. *)
Definition parallelStep (ps : ParState) : StopReason * ParState + ParState :=
  if bool_decide (size (remaining ps) = 0) then inl (AllDone, ps)
  else if interrupted (ps_exec ps) then inl (Interrupted, ps)
  else if readyThrows ps then inl (Crashed, ps)
  else
    match readyWorkers ps with
    | [] => inl (Deadlock, ps)
    | ready => inr (runRound ps ready)
    end.

Fixpoint parallelLoop (fuel : nat) (ps : ParState)
  : option (StopReason * ParState) :=
  match parallelStep ps with
  | inl stopped => Some stopped
  | inr next =>
      match fuel with
      | O => None
      | S fuel' => parallelLoop fuel' next
      end
  end.

Definition initialExec : ExecState :=
  {| workerResults := []; completedCount := 0; failFastTriggered := false;
     fx := {| fx_attempts := []; fx_status := [SU_PlanBreakdown totalWorkers] |};
     runs := [] |}.

Definition initialPar : ParState :=
  {| ps_exec := initialExec;
     remaining := list_to_set (map wt_id (pl_workers plan));
     completed := ∅;
     resultMap := ∅ |}.

(** Phase 2.  Every round of the parallel loop takes at least one id out
    of [remaining], so [totalWorkers] rounds are enough. *)
Definition parallelRun : option (StopReason * ParState) :=
  parallelLoop totalWorkers initialPar.

(** The state in which phase 2 ends, be it by a throw. *)
Definition executeWorkers : option ExecState :=
  if pl_sequential plan
  then Some (sequentialLoop (pl_workers plan) 0 initialExec)
  else
    match parallelRun with
    | Some (_, ps) => Some (ps_exec ps)
    | None => None
    end.

(** Phase 2 ends by the [TypeError] of the parallel loop, which nothing
    catches.  The sequential loop does not read [dependsOn]. *)
Definition workersThrow : bool :=
  negb (pl_sequential plan)
  && match parallelRun with
     | Some (Crashed, _) => true
     | _ => false
     end.

(** *** Phase 3: summary *)

Definition workerCost (results : list WorkerResult) : Z :=
  fold_left (fun sum r => (sum + orZero (wr_costUsd r))%Z) results 0%Z.

Definition overallSuccessOf (results : list WorkerResult) : bool :=
  (0 <? length results)%nat && forallb wr_success results.

Definition summaryInput (planCost : option Z) (st : ExecState) : SummaryInput :=
  {| si_workerResults := workerResults st;
     si_orchTimedOut := orchTimedOut W (length (fx_attempts (fx st)));
     si_failFastTriggered := failFastTriggered st;
     si_totalCostUsd := (orZero planCost + workerCost (workerResults st))%Z |}.

(** [`${r.success}`] *)
Definition showBool (b : bool) : string := if b then "true" else "false".

(** [Math.round(d / 1000)] on an integer number of milliseconds. *)
Definition roundSeconds (d : Z) : Z := ((d + 500) / 1000)%Z.

(** [r.duration ? Math.round(r.duration / 1000) + "s" : "unknown"] *)
Definition durationLabel (duration : option Z) : string :=
  match duration with
  | Some d => if (d =? 0)%Z then "unknown" else pretty (roundSeconds d) +:+ "s"
  | None => "unknown"
  end.

Definition workerBlock (r : WorkerResult) : string :=
  join nl
    [ "--- Worker: " +:+ wr_taskId r +:+ " ---";
      "Success: " +:+ showBool (wr_success r);
      "Duration: " +:+ durationLabel (wr_duration r);
      "Result: " +:+ sliceTo MAX_RESULT_CHARS (wr_result r);
      "" ].

Definition timeoutNote : string :=
  WARNING_SIGN +:+ " NOTE: The orchestration was aborted due to a timeout ("
    +:+ formatDuration ORCHESTRATION_TIMEOUT_MS
    +:+ "). Some workers may not have run.".

Definition failFastNote : string :=
  WARNING_SIGN
    +:+ " NOTE: Remaining workers were skipped due to a prior worker failure (fail-fast).".

Definition summaryPrompt (si : SummaryInput) : string :=
  join nl
    ([ "All workers have completed. Here are the results:"; "" ]
     ++ map workerBlock (si_workerResults si)
     ++ [ "";
          if si_orchTimedOut si then timeoutNote else "";
          if si_failFastTriggered si then failFastNote else "";
          "";
          "Total cost so far: $" +:+ toFixed4 W (si_totalCostUsd si);
          "";
          "Provide a concise summary of what was accomplished, any failures, and any follow-up needed.";
          "Respond in plain text (not JSON)." ]).

(** The summary call, made on the original abort signal. *)
Definition summaryCall (planCost : option Z) (st : ExecState)
  : string + ClaudeResult :=
  invokeClaude (parseClaudeOutput W) None
    (fun _ => summaryProc W (summaryPrompt (summaryInput planCost st))).

Definition summarize (planCost : option Z) (st : ExecState)
  : OrchestratorSummary :=
  let results := workerResults st in
  let totalCostUsd := (orZero planCost + workerCost results)%Z in
  let '(summaryText, summaryCost) :=
    match summaryCall planCost st with
    | inr summaryResult =>
        (cr_result summaryResult, orZero (cr_costUsd summaryResult))
    | inl _ =>
        let successes := length (List.filter wr_success results) in
        let failures :=
          length (List.filter (fun r => negb (wr_success r)) results) in
        ("Completed " +:+ pretty successes +:+ " task(s) successfully"
           +:+ (if (0 <? failures)%nat
                then ", " +:+ pretty failures +:+ " failed" else "")
           +:+ ". Total cost: $" +:+ toFixed4 W totalCostUsd +:+ ".",
         0%Z)
    end in
  {| os_overallSuccess := overallSuccessOf results;
     os_summary := summaryText;
     os_workerResults := results;
     os_totalCostUsd := (totalCostUsd + summaryCost)%Z |}.

End Run.

Definition capWorkers (plan : OrchestratorPlan) : OrchestratorPlan :=
  if (MAX_WORKERS <? length (pl_workers plan))%nat
  then {| pl_summary := pl_summary plan;
          pl_workers := take MAX_WORKERS (pl_workers plan);
          pl_sequential := pl_sequential plan |}
  else plan.

(** *** [Orchestrator.execute] *)

(** Phase 1: the planning call, always without a session. *)
Definition planningCall (W : World) : string + ClaudeResult :=
  invokeClaude (parseClaudeOutput W) None (fun _ => planProc W).

Definition execute (W : World) (workRequest : WorkRequest) : Outcome :=
  match planningCall W with
  | inl err => Thrown err
  | inr planResult =>
      match parsePlan W (cr_result planResult) with
      | inl message =>
          Returned
            {| os_overallSuccess := false;
               os_summary :=
                 "Planning failed: " +:+ message
                   +:+ ". The orchestrator did not produce a valid plan.";
               os_workerResults := [];
               os_totalCostUsd := orZero (cr_costUsd planResult) |}
      | inr parsed =>
          let plan := capWorkers parsed in
          match executeWorkers W (wq_task workRequest) plan with
          | Some st =>
              if workersThrow W (wq_task workRequest) plan
              then ThrownTypeError
              else Returned (summarize W (cr_costUsd planResult) st)
          | None => OutOfFuel
          end
      end
  end.

(** *** Observations on a run, used to state its properties *)

(** The plan that is executed, when planning succeeds. *)
Definition executedPlan (W : World) : option OrchestratorPlan :=
  match planningCall W with
  | inl _ => None
  | inr planResult =>
      match parsePlan W (cr_result planResult) with
      | inl _ => None
      | inr parsed => Some (capWorkers parsed)
      end
  end.

(** The state in which phase 2 ends. *)
Definition scheduled (W : World) (workRequest : WorkRequest)
  : option ExecState :=
  match executedPlan W with
  | Some plan => executeWorkers W (wq_task workRequest) plan
  | None => None
  end.

Definition planCostOf (W : World) : option Z :=
  match planningCall W with
  | inr planResult => cr_costUsd planResult
  | inl _ => None
  end.

(** The cost reported by the summary call; missing when the call fails
    or is not made. *)
Definition summaryCostOf (W : World) (workRequest : WorkRequest) : option Z :=
  match executedPlan W, scheduled W workRequest with
  | Some plan, Some st =>
      match summaryCall W (planCostOf W) st with
      | inr summaryResult => cr_costUsd summaryResult
      | inl _ => None
      end
  | _, _ => None
  end.

(** The Worker Result of every call of the worker agent, in call order. *)
Definition attemptResults (W : World) (attempts : list WorkerTask)
  : list WorkerResult :=
  imap (fun i task => settle task (workerAgent W i task)) attempts.

Definition sumCosts (costs : list (option Z)) : Z :=
  foldr (fun c acc => (orZero c + acc)%Z) 0%Z costs.

End Orchestrator.

(** ** Specification-level notions used to state the properties *)

Module Spec.
Import Orchestrator ChatAgent.




(** A delimiter tag: it opens with the only ['<'] it contains. *)
Definition isTag (pat : string) : Prop :=
  ∃ q, pat = String "<"%char q ∧ includes q "<" = false.

(** [p] occurs in [s] as a substring, up to letter case. *)
Definition ciSubstring (p s : string) : Prop :=
  ∃ a m b, s = a +:+ m +:+ b ∧ toLowerCase m = toLowerCase p.

(** The text matches one of the transient-error patterns. *)
Definition matchesTransientPattern (s : string) : Prop :=
  ∃ p, p ∈ TRANSIENT_ERROR_PATTERNS ∧ ciSubstring p s.

(** The retry task of a worker task: same task, id [<id>-retry]. *)
Definition retryTaskOf (task : WorkerTask) : WorkerTask :=
  withId task (wt_id task +:+ "-retry").


(** The worker-agent calls of a run (none when no plan was executed). *)
Definition attemptsOf (W : World) (req : WorkRequest) : list WorkerTask :=
  match scheduled W req with
  | Some st => fx_attempts (fx st)
  | None => []
  end.

(** Cost accounting as a rule that counts every call of the worker
    agent, the replaced first attempt of a retried worker included. *)
Definition total_cost_counts_every_attempt : Prop :=
  ∀ (W : World) (req : WorkRequest) (s : OrchestratorSummary),
    execute W req = Returned s →
    os_totalCostUsd s
    = (orZero (planCostOf W)
       + sumCosts (map wr_costUsd (attemptResults W (attemptsOf W req)))
       + orZero (summaryCostOf W req))%Z.

Definition succeeded (r : WorkerResult) : Prop := wr_success r = true.

(** In a list of results pushed under fail-fast, only the last entry can
    be a failure, and it is one exactly when fail-fast was triggered. *)
Definition lastOnlyFails (results : list WorkerResult) (failFast : bool)
  : Prop :=
  if failFast
  then ∃ init last,
         results = init ++ [last] ∧ Forall succeeded init
         ∧ wr_success last = false
  else Forall succeeded results.

(** What holds of the state of the sequential loop once the plan entries
    [done] have been run. *)
Record SeqInv (done : list WorkerTask) (st : ExecState) : Prop := {
  seq_tasks : map run_task (runs st) = done;
  seq_results : workerResults st = map run_result (runs st);
  seq_count : completedCount st = length (runs st);
  seq_fail : lastOnlyFails (workerResults st) (failFastTriggered st)
}.

(** Every declared dependency of the run at position [i] has a result at
    an earlier position, and [run_prior] lists exactly these results, one
    per entry of [dependsOn] and in that order. *)
Definition depsBefore (rs : list Run) : Prop :=
  ∀ i r, rs !! i = Some r →
    Forall2
      (λ d res, ∃ j r', j < i ∧ rs !! j = Some r'
                        ∧ wt_id (run_task r') = d ∧ run_result r' = res)
      (deps (run_task r)) (run_prior r).

(** The run is that of a plan entry, started with the prompt built from
    [run_prior]. *)
Definition startedFromPlan (goal : string) (plan : OrchestratorPlan)
    (r : Run) : Prop :=
  run_task r ∈ pl_workers plan
  ∧ run_prompt r
    = augmentedPrompt goal plan (run_task r) (run_number r) (run_prior r).

(** How the sets and the map of the parallel loop relate to the runs. *)
Record ParCore (ps : ParState) : Prop := {
  par_results :
    workerResults (ps_exec ps) = map run_result (runs (ps_exec ps));
  par_completed : ∀ d, d ∈ completed ps → is_Some (resultMap ps !! d);
  par_resultMap :
    ∀ d res, resultMap ps !! d = Some res →
      ∃ j r', runs (ps_exec ps) !! j = Some r'
              ∧ wt_id (run_task r') = d ∧ run_result r' = res;
  par_disjoint :
    ∀ r, r ∈ runs (ps_exec ps) → wt_id (run_task r) ∉ remaining ps
}.

Definition ParInv (goal : string) (plan : OrchestratorPlan) (ps : ParState)
  : Prop :=
  ParCore ps
  ∧ depsBefore (runs (ps_exec ps))
  ∧ Forall (startedFromPlan goal plan) (runs (ps_exec ps)).

(** The plan ids of a list of runs. *)
Definition idsOf (batch : list Run) : gset string :=
  list_to_set (map (fun r => wt_id (run_task r)) batch).

(** The batch of the round run from [ps] on [ready], and the state once
    the batch has been recorded (before the fail-fast check). *)
Definition batchOf (W : World) (goal : string) (plan : OrchestratorPlan)
    (ps : ParState) (ready : list WorkerTask) : list Run :=
  (runAll W goal plan ps ready (fx (ps_exec ps))).1.

Definition recordedOf (W : World) (goal : string) (plan : OrchestratorPlan)
    (ps : ParState) (ready : list WorkerTask) : ParState :=
  recordBatch plan
    (withExec
       (withEffects (runAll W goal plan ps ready (fx (ps_exec ps))).2
          (ps_exec ps)) ps)
    (batchOf W goal plan ps ready).

Definition failed (r : Run) : Prop := wr_success (run_result r) = false.

(** The failed workers of the batch come first in it. *)
Definition failuresFirst (batch : list Run) : Prop :=
  ∃ bad good, batch = bad ++ good ∧ Forall failed bad
              ∧ Forall (λ r, succeeded (run_result r)) good.

(** [w] depends on one of [targets], directly or through at most [fuel]
    intermediate plan entries. *)
Fixpoint reaches (plan : OrchestratorPlan) (fuel : nat)
    (targets : list string) (w : WorkerTask) : bool :=
  existsb
    (fun d =>
       bool_decide (d ∈ targets)
       || match fuel with
          | O => false
          | S fuel' =>
              existsb
                (fun w' => String.eqb (wt_id w') d
                           && reaches plan fuel' targets w')
                (pl_workers plan)
          end)
    (deps w).

Definition transitivelyDependsOn (plan : OrchestratorPlan)
    (targets : list string) (w : WorkerTask) : bool :=
  reaches plan (length (pl_workers plan)) targets w.

Definition failedIdsOf (rs : list Run) : list string :=
  map (fun r => wt_id (run_task r))
    (List.filter (fun r => negb (wr_success (run_result r))) rs).

(** The ids of a plan are pairwise distinct and every [dependsOn] names
    an earlier entry. *)
Fixpoint wellFormedFrom (seen : list string) (ws : list WorkerTask) : bool :=
  match ws with
  | [] => true
  | w :: rest =>
      negb (bool_decide (wt_id w ∈ seen))
      && forallb (fun d => bool_decide (d ∈ seen)) (deps w)
      && wellFormedFrom (seen ++ [wt_id w]) rest
  end.

Definition wellFormed (plan : OrchestratorPlan) : bool :=
  wellFormedFrom [] (pl_workers plan).

(** Parallel fail-fast as a rule that skips the dependents of failed
    workers and nothing else: in a run of a well-formed plan that is
    never aborted, fail-fast is triggered exactly when some plan entry
    that did not run depends on a failed worker, and the entries that
    did not run are exactly those that depend on a failed worker. *)
Definition parallel_failfast_skips_exactly_dependents : Prop :=
  ∀ (W : World) (req : WorkRequest) (plan : OrchestratorPlan)
    (st : ExecState),
    executedPlan W = Some plan →
    pl_sequential plan = false →
    wellFormed plan = true →
    (∀ n, signalAborted W n = false) →
    scheduled W req = Some st →
    let skipped w := w ∉ map run_task (runs st) in
    let dependent w :=
      transitivelyDependsOn plan (failedIdsOf (runs st)) w = true in
    (failFastTriggered st = true
     ↔ ∃ w, w ∈ pl_workers plan ∧ skipped w ∧ dependent w)
    ∧ ∀ w, w ∈ pl_workers plan → (skipped w ↔ dependent w).

(** Deadlock as a fatal error: a run whose parallel loop stops for want
    of a ready worker does not end in a successful Summary. *)
Definition deadlock_is_fatal : Prop :=
  ∀ (W : World) (req : WorkRequest) (plan : OrchestratorPlan)
    (ps : ParState),
    executedPlan W = Some plan →
    pl_sequential plan = false →
    parallelRun W (wq_task req) plan = Some (Deadlock, ps) →
    match execute W req with
    | Returned s => os_overallSuccess s = false
    | Thrown _ | ThrownTypeError => True
    | OutOfFuel => False
    end.

End Spec.

(** ** Concrete inputs *)

Module Samples.
Import Orchestrator ChatAgent.

Definition quote : string := String "034"%char EmptyString.

Definition quoted (s : string) : string := quote +:+ s +:+ quote.

(** The text of a work-request action, and the object [JSON.parse]
    makes of it. *)
Definition requestText : string :=
  "{" +:+ quoted "type" +:+ ":" +:+ quoted "work_request" +:+ ","
      +:+ quoted "task" +:+ ":" +:+ quoted "fix the build" +:+ ","
      +:+ quoted "context" +:+ ":" +:+ quoted "" +:+ ","
      +:+ quoted "urgency" +:+ ":" +:+ quoted "normal" +:+ "}".

Definition requestObject : json :=
  JObj [ ("type", JStr "work_request"); ("task", JStr "fix the build");
         ("context", JStr ""); ("urgency", JStr "normal") ].

(** [JSON.parse] restricted to [requestText]; every other text is taken
    to be malformed. *)
Definition parseRequestOnly (s : string) : option json :=
  if String.eqb s requestText then Some requestObject else None.

Definition actionBlock (body : string) : string :=
  ACTION_OPEN +:+ body +:+ ACTION_CLOSE.

Definition okResult (id text : string) (cost : Z) : WorkerResult :=
  {| wr_taskId := id; wr_success := true; wr_result := text;
     wr_costUsd := Some cost; wr_duration := Some 1500%Z |}.

Definition failedResult (id text : string) (cost : Z) : WorkerResult :=
  {| wr_taskId := id; wr_success := false; wr_result := text;
     wr_costUsd := Some cost; wr_duration := Some 1500%Z |}.

(** An attempt during which no cancellation source fired. *)
Definition quiet (s : Settled) : Attempt :=
  {| at_settled := s; at_timeoutFired := false; at_stallKilled := false;
     at_handleKilled := false; at_orchAborted := false; at_elapsed := 1500 |}.

(** The attempt of a worker that the per-worker timer cancelled: the
    timer fired (and aborted the worker's controller), nobody used the
    registry handle, the orchestration signal is not aborted, and the
    worker agent's promise rejected with [message]. *)
Definition timedOutAttempt (message : option string) (stalled : bool)
    (elapsed : Z) : Attempt :=
  {| at_settled := Rejected message; at_timeoutFired := true;
     at_stallKilled := stalled; at_handleKilled := false;
     at_orchAborted := false; at_elapsed := elapsed |}.

(** The attempt of a worker killed through its registry handle. *)
Definition killedAttempt (message : option string) (elapsed : Z) : Attempt :=
  {| at_settled := Rejected message; at_timeoutFired := false;
     at_stallKilled := false; at_handleKilled := true;
     at_orchAborted := false; at_elapsed := elapsed |}.

Definition worker (id : string) (dependsOn : list string) : WorkerTask :=
  {| wt_id := id; wt_description := "step " +:+ id;
     wt_prompt := "do " +:+ id; wt_dependsOn := Ids dependsOn |}.

Definition cliOutput (text : string) (cost : Z) : string + ClaudeResult :=
  inr {| cr_result := text; cr_sessionId := "s1"; cr_costUsd := Some cost;
         cr_duration := Some 900%Z; cr_isError := false |}.

(** A world in which the planner answers with [plan] (cost 10), the
    summary call succeeds (cost 1), no signal is ever aborted, and the
    worker agent behaves as [agent]. *)
Definition world (plan : OrchestratorPlan)
    (agent : nat -> WorkerTask -> Attempt) : World :=
  {| parsePlan := fun _ => inr plan;
     parseClaudeOutput :=
       fun out => if String.eqb out "plan" then cliOutput out 10
                  else cliOutput out 1;
     toFixed4 := fun z => pretty z;
     planProc := ProcClose (Some 0%Z) "plan" "" false;
     workerAgent := agent;
     signalAborted := fun _ => false;
     orchTimedOut := fun _ => false;
     summaryProc := fun _ => ProcClose (Some 0%Z) "summary" "" false |}.

Definition withPlanProc (W : World) (ev : ProcEvent) : World :=
  {| parsePlan := parsePlan W; parseClaudeOutput := parseClaudeOutput W;
     toFixed4 := toFixed4 W; planProc := ev; workerAgent := workerAgent W;
     signalAborted := signalAborted W; orchTimedOut := orchTimedOut W;
     summaryProc := summaryProc W |}.

Definition request : WorkRequest :=
  {| wq_task := "fix the build"; wq_context := ""; wq_urgency := "normal" |}.

Definition noEffects : Effects := {| fx_attempts := []; fx_status := [] |}.

(** The agent fails on every task whose id is in [bad] (text [why], cost
    2) and succeeds on every other (cost 3). *)
Definition failingOn (bad : list string) (why : string)
  : nat -> WorkerTask -> Attempt :=
  fun _ t =>
    if existsb (String.eqb (wt_id t)) bad
    then quiet (Resolved (failedResult (wt_id t) why 2))
    else quiet (Resolved (okResult (wt_id t) "done" 3)).

#[global] Instance DependsOn_eq_dec : EqDecision DependsOn.
Proof. solve_decision. Defined.

#[global] Instance WorkerTask_eq_dec : EqDecision WorkerTask.
Proof. solve_decision. Defined.

(** The final state of phase 2 of a run that has one. *)
Definition theState (o : option ExecState) : ExecState :=
  match o with
  | Some st => st
  | None =>
      {| workerResults := []; completedCount := 0; failFastTriggered := false;
         fx := {| fx_attempts := []; fx_status := [] |}; runs := [] |}
  end.


Definition noSummary : OrchestratorSummary :=
  {| os_overallSuccess := false; os_summary := ""; os_workerResults := [];
     os_totalCostUsd := 0 |}.

(** The Summary of an outcome that is a return. *)
Definition theSummary (o : Outcome) : OrchestratorSummary :=
  match o with Returned s => s | _ => noSummary end.

(** The agent's first call fails with a rate-limit text (cost 2), every
    later call succeeds (cost 3). *)
Definition flakyOnce : nat -> WorkerTask -> Attempt :=
  fun n t =>
    match n with
    | O => quiet (Resolved (failedResult (wt_id t) "Error: 429 Rate Limit" 2))
    | _ => quiet (Resolved (okResult (wt_id t) "done" 3))
    end.

Definition sequentialPlan (ws : list WorkerTask) : OrchestratorPlan :=
  {| pl_summary := "in order"; pl_workers := ws; pl_sequential := true |}.

Definition parallelPlan (ws : list WorkerTask) : OrchestratorPlan :=
  {| pl_summary := "by dependency"; pl_workers := ws; pl_sequential := false |}.

(** The plan [A, B after A, C, D after C]. *)
Definition twoChains : OrchestratorPlan :=
  parallelPlan [worker "A" []; worker "B" ["A"]; worker "C" [];
                worker "D" ["C"]].

(** The plan [A, B after A, C after A, D after B and C]. *)
Definition diamond : OrchestratorPlan :=
  parallelPlan [worker "A" []; worker "B" ["A"]; worker "C" ["A"];
                worker "D" ["B"; "C"]].

(** The plan [A, B after Z], where no worker has the id Z. *)
Definition danglingDependency : OrchestratorPlan :=
  parallelPlan [worker "A" []; worker "B" ["Z"]].

End Samples.

(** ** Further notions about runs *)

Module Notions.
Import Orchestrator Spec.

(** The text opens with a whitespace character. *)
Definition headWhite (s : string) : bool :=
  match s with
  | EmptyString => false
  | String c _ => isWhite c
  end.

(** The text ends with a whitespace character. *)
Fixpoint lastWhite (s : string) : bool :=
  match s with
  | EmptyString => false
  | String c EmptyString => isWhite c
  | String _ s' => lastWhite s'
  end.

(** The plan entries whose id is still in [remaining]. *)
Definition pending (plan : OrchestratorPlan) (ps : ParState)
  : list WorkerTask :=
  List.filter (fun w => bool_decide (wt_id w ∈ remaining ps))
    (pl_workers plan).

(** Every [dependsOn] of every entry names the id of an earlier entry
    ([seen] holds the ids met so far). *)
Fixpoint depsPointBackFrom (seen : list string) (ws : list WorkerTask)
  : bool :=
  match ws with
  | [] => true
  | w :: rest =>
      forallb (fun d => bool_decide (d ∈ seen)) (deps w)
      && depsPointBackFrom (seen ++ [wt_id w]) rest
  end.

Definition depsPointBack (plan : OrchestratorPlan) : bool :=
  depsPointBackFrom [] (pl_workers plan).

(** Every [dependsOn] of the plan is an array, or unset: the plans of
    the interface [OrchestratorPlan]. *)
Definition dependsOnArrays (plan : OrchestratorPlan) : bool :=
  forallb (fun w => negb (noArray w)) (pl_workers plan).

(** The run at position [i] is worker number [i + 1] and was started with
    the results of all the runs before it, in order. *)
Definition seesAllPrior (goal : string) (plan : OrchestratorPlan)
    (rs : list Run) : Prop :=
  ∀ i r, rs !! i = Some r →
    run_number r = S i
    ∧ run_prior r = map run_result (take i rs)
    ∧ run_prompt r = augmentedPrompt goal plan (run_task r) (S i) (run_prior r).

(** The bookkeeping of the parallel loop: [remaining] holds the plan ids
    not yet completed, [completed] the ids of the runs, and there are
    never more runs and pending entries than plan entries. *)
Record ParBook (plan : OrchestratorPlan) (ps : ParState) : Prop := {
  pb_remaining :
    remaining ps
    = list_to_set (map wt_id (pl_workers plan)) ∖ completed ps;
  pb_completed : completed ps = idsOf (runs (ps_exec ps));
  pb_count :
    (length (runs (ps_exec ps)) + length (pending plan ps)
     ≤ length (pl_workers plan))%nat
}.

(** The signal is never aborted during the run. *)
Definition neverAborted (W : World) : Prop := ∀ n, signalAborted W n = false.

(** *** What a worker is started with *)

(** The task handed to [executeWithRetry] for a run: the plan entry
    under the prompt the run was started with. *)
Definition handed (r : Run) : WorkerTask :=
  withPrompt (run_task r) (run_prompt r).

(** The result of the run is the value of one call of
    [executeWithRetry] on the task handed over, and the calls of the
    worker agent made by it are in [log]. *)
Definition producedByRetry (W : World) (log : list WorkerTask) (r : Run)
  : Prop :=
  ∃ e, run_result r = (executeWithRetry W (handed r) (run_number r) e).1
       ∧ fx_attempts (executeWithRetry W (handed r) (run_number r) e).2
           `prefix_of` log.

Definition resultLabel (r : WorkerResult) : string :=
  if wr_success r then "SUCCESS" else "FAILED".

(** A result text as it is shown to a later worker: cut after
    [MAX_RESULT_CHARS] characters, with a marker that counts what was
    left out. *)
Definition shown (text : string) : string :=
  if (String.length text <=? MAX_RESULT_CHARS)%nat then text
  else sliceTo MAX_RESULT_CHARS text +:+ nl +:+ "... (truncated, "
         +:+ pretty (String.length text - MAX_RESULT_CHARS)
         +:+ " chars omitted)".

(** The entry of one earlier result in the prompt of a worker. *)
Definition resultEntry (r : WorkerResult) : string :=
  nl +:+ nl +:+ "--- " +:+ wr_taskId r +:+ " [" +:+ resultLabel r +:+ "] ---"
     +:+ nl +:+ shown (wr_result r).

(** The part of the prompt of a worker that holds earlier results:
    nothing when there are none, otherwise a heading, one entry for
    each result, in order, and a closing line. *)
Definition resultsSection (results : list WorkerResult) : string :=
  match results with
  | [] => ""
  | _ =>
      nl +:+ nl +:+ "## Results from prior workers:"
         +:+ String.concat "" (map resultEntry results)
         +:+ nl +:+ nl
         +:+ "Use the above results to inform your work. "
         +:+ "Do not repeat work already done."
  end.

(** The prompt of worker number [n], text by text: the plan context,
    the position of the worker, the section of earlier [results], and
    the worker's own prompt under its heading. *)
Definition workerPrompt (goal : string) (plan : OrchestratorPlan) (n : nat)
    (results : list WorkerResult) (own : string) : string :=
  planContextForWorkers goal plan
    +:+ nl +:+ nl +:+ "You are Worker #" +:+ pretty n +:+ " of "
    +:+ pretty (totalWorkers plan) +:+ "."
    +:+ resultsSection results
    +:+ nl +:+ nl +:+ "---" +:+ nl +:+ nl +:+ "## Your specific task:" +:+ nl
    +:+ own.

(** A run of the parallel loop carries the worker number of its plan
    entry. *)
Definition numbered (plan : OrchestratorPlan) (r : Run) : Prop :=
  run_number r = workerNumberOf plan (wt_id (run_task r)).

(** What the parallel loop keeps about the calls. *)
Definition ParCalls (W : World) (plan : OrchestratorPlan) (ps : ParState)
  : Prop :=
  ParCore ps
  ∧ Forall (λ r, numbered plan r
                 ∧ producedByRetry W (fx_attempts (fx (ps_exec ps))) r)
      (runs (ps_exec ps)).


(** A world whose signal is aborted from the start. *)
Definition abortedWorld (W : World) : World :=
  {| parsePlan := parsePlan W; parseClaudeOutput := parseClaudeOutput W;
     toFixed4 := toFixed4 W; planProc := planProc W;
     workerAgent := workerAgent W; signalAborted := fun _ => true;
     orchTimedOut := orchTimedOut W; summaryProc := summaryProc W |}.

(** A world whose plan parser rejects every text with [message]. *)
Definition unparsableWorld (W : World) (message : string) : World :=
  {| parsePlan := fun _ => inl message;
     parseClaudeOutput := parseClaudeOutput W;
     toFixed4 := toFixed4 W; planProc := planProc W;
     workerAgent := workerAgent W; signalAborted := signalAborted W;
     orchTimedOut := orchTimedOut W; summaryProc := summaryProc W |}.

(** A world whose planner process prints [out] and exits with code 0,
    where [out] is not output the CLI parser understands. *)
Definition proseWorld (W : World) (out : string) (why : string) : World :=
  {| parsePlan := parsePlan W;
     parseClaudeOutput :=
       fun s => if String.eqb s out then inl why else parseClaudeOutput W s;
     toFixed4 := toFixed4 W;
     planProc := ProcClose (Some 0%Z) out "" false;
     workerAgent := workerAgent W; signalAborted := signalAborted W;
     orchTimedOut := orchTimedOut W; summaryProc := summaryProc W |}.

End Notions.

(** ** utils/telegram.ts: [splitMessage] *)

Module Telegram.

Definition MAX_MESSAGE_LENGTH : nat := 4 * 1024.

(** [s.lastIndexOf(c, from)] for a one-character search string: the
    largest index [i <= from] with [s[i] = c]; [None] stands for [-1]. *)
Fixpoint lastIndexOfChar (c : ascii) (from : nat) (s : string) {struct s}
  : option nat :=
  match s with
  | EmptyString => None
  | String d s' =>
      let here := if bool_decide (d = c) then Some 0 else None in
      match from with
      | O => here
      | S from' =>
          match lastIndexOfChar c from' s' with
          | Some i => Some (S i)
          | None => here
          end
      end
  end.

(** [splitIndex < MAX_MESSAGE_LENGTH * 0.5] *)
Definition belowHalf (splitIndex : option nat) : bool :=
  match splitIndex with
  | None => true
  | Some i => (2 * i <? MAX_MESSAGE_LENGTH)%nat
  end.

(** The three assignments to [splitIndex] in one iteration. *)
Definition splitIndexOf (remaining : string) : nat :=
  let byNewline := lastIndexOfChar "010"%char MAX_MESSAGE_LENGTH remaining in
  let byBreak :=
    if belowHalf byNewline
    then lastIndexOfChar " "%char MAX_MESSAGE_LENGTH remaining
    else byNewline in
  if belowHalf byBreak then MAX_MESSAGE_LENGTH
  else default MAX_MESSAGE_LENGTH byBreak.

(** The [while (remaining.length > 0)] loop; the result is the list of
    chunks pushed from here on.  [None]: out of fuel. *)
Fixpoint splitLoop (fuel : nat) (remaining : string) : option (list string) :=
  if (String.length remaining =? 0)%nat then Some []
  else if (String.length remaining <=? MAX_MESSAGE_LENGTH)%nat
  then Some [remaining]
  else
    match fuel with
    | O => None
    | S fuel' =>
        let splitIndex := splitIndexOf remaining in
        match splitLoop fuel' (trimStart (sliceFrom splitIndex remaining)) with
        | Some chunks => Some (sliceTo splitIndex remaining :: chunks)
        | None => None
        end
    end.

(** Every iteration cuts off at least one character, so the length of
    the text bounds the number of iterations. *)
Definition splitMessage (text : string) : option (list string) :=
  if (String.length text <=? MAX_MESSAGE_LENGTH)%nat then Some [text]
  else splitLoop (String.length text) text.

(** The text without its whitespace characters. *)
Fixpoint dropWhite (s : string) : string :=
  match s with
  | EmptyString => EmptyString
  | String c s' => if isWhite c then dropWhite s' else String c (dropWhite s')
  end.

(** [chunks.join("")] *)
Definition joined (chunks : list string) : string := String.concat "" chunks.

(** [n] copies of [s] in a row. *)
Fixpoint copies (n : nat) (s : string) : string :=
  match n with
  | O => EmptyString
  | S n' => s +:+ copies n' s
  end.

End Telegram.

(** ** handlers/message.ts: what [handleMessage] sends *)

Module Handler.
Import Telegram.

(** [response || "(empty response)"], with [response] the result text,
    announced as an error when [isError] is set. *)
Definition responseText (result : ClaudeResult) : string :=
  orElse
    (if cr_isError result
     then "Error from Claude:" +:+ nl +:+ cr_result result
     else cr_result result)
    "(empty response)".

(** The chunks handed to [ctx.reply] by [sendResponse]. *)
Definition responseChunks (result : ClaudeResult) : option (list string) :=
  splitMessage (responseText result).

(** The [catch] block: [None] when the handler returns without a reply,
    otherwise the text of the reply. *)
Definition errorReply (message : option string) : option string :=
  let has pat :=
    match message with Some m => includes m pat | None => false end in
  match message with
  | Some "Cancelled" => None
  | _ =>
      Some (if has "Rate limited"
            then "Claude is rate limited. Please wait a moment and try again."
            else if has "timed out"
            then "Request timed out. Try a simpler question or increase the timeout."
            else "Error: " +:+ default "undefined" message)
  end.

End Handler.

(** Characters of a text. *)

Module Chars.

(** [c] occurs in [s]. *)
Fixpoint occurs (c : ascii) (s : string) : bool :=
  match s with
  | EmptyString => false
  | String d s' => bool_decide (d = c) || occurs c s'
  end.

Definition isDigit (c : ascii) : bool :=
  let n := nat_of_ascii c in (48 <=? n)%nat && (n <=? 57)%nat.

(** The message of the rejection caused by the call-scoped timer. *)
Definition timeoutMessage (effectiveTimeout : Z) : string :=
  "Claude CLI timed out after " +:+ pretty effectiveTimeout +:+ "ms".

(** An output parser that throws on every text. *)
Definition neverParses (out : string) : string + ClaudeResult :=
  inl "Unexpected token".

End Chars.


(** ** Bracket matching, as [parsePlan] and [parseClaudeOutput] do it *)

Module Brackets.

(** [Math.max] of two results of [lastIndexOf]; [None] stands for [-1]. *)
Definition maxIndex (a b : option nat) : option nat :=
  match a, b with
  | Some i, Some j => Some (Nat.max i j)
  | Some i, None => Some i
  | None, Some j => Some j
  | None, None => None
  end.

(** [s.lastIndexOf(c)] for a one-character search string. *)
Definition lastIndexOf (c : ascii) (s : string) : option nat :=
  Telegram.lastIndexOfChar c (String.length s) s.

(** [s.indexOf(pat)] *)
Definition indexOf (pat s : string) : option nat :=
  match cut pat s with
  | Some (a, _) => Some (String.length a)
  | None => None
  end.

(** [s.slice(from, to)] *)
Definition slice (from to : nat) (s : string) : string :=
  sliceTo (to - from) (sliceFrom from s).

(** The loop [for (i = lastClose; i >= 0; i--)]: [depth] goes up on the
    closing character and down on the opening one, and the first index at
    which it is zero again is the result.  [None] is [start === -1]. *)
Fixpoint scanDown (openChar closeChar : option ascii) (text : string)
    (i : nat) (depth : Z) : option nat :=
  let c := String.get i text in
  let d1 := if bool_decide (c = closeChar) then (depth + 1)%Z else depth in
  let d2 := if bool_decide (c = openChar) then (d1 - 1)%Z else d1 in
  if (d2 =? 0)%Z then Some i
  else match i with
       | O => None
       | S i' => scanDown openChar closeChar text i' d2
       end.

(** The loop [for (i = braceStart; i < text.length; i++)] of the third
    strategy of [parsePlan], over the characters from [i] on: the first
    index at which [depth] is zero. *)
Fixpoint scanUp (rest : string) (i : nat) (depth : Z) : option nat :=
  match rest with
  | EmptyString => None
  | String c rest' =>
      let d1 := if bool_decide (c = "{"%char) then (depth + 1)%Z else depth in
      let d2 := if bool_decide (c = "}"%char) then (d1 - 1)%Z else d1 in
      if (d2 =? 0)%Z then Some i else scanUp rest' (S i) d2
  end.

(** Occurrences of [c] in [s]. *)
Fixpoint count (c : ascii) (s : string) : Z :=
  match s with
  | EmptyString => 0
  | String d s' => ((if bool_decide (d = c) then 1 else 0) + count c s')%Z
  end.

End Brackets.

(** ** orchestrator.ts: [parsePlan] and [validatePlan] *)

Module PlanParser.
Import Brackets.

Inductive PlanError :=
| PropertyOfNull   (* the [TypeError] of a property read on [null] *)
| InvalidPlan      (* "Invalid plan: missing type or workers array" *)
| InvalidWorker.   (* "Invalid worker task: missing id or prompt" *)

(** [Array.isArray(v)] *)
Definition isArray (o : option json) : bool :=
  match o with Some (JArr _) => true | _ => false end.

(** The body of the loop over [plan.workers]: [Some e] when it throws. *)
Definition checkWorker (worker : json) : option PlanError :=
  match worker with
  | JNull => Some PropertyOfNull
  | _ =>
      if negb (Json.truthy (Json.get "id" worker))
         || negb (Json.truthy (Json.get "prompt" worker))
      then Some InvalidWorker
      else None
  end.

Fixpoint checkWorkers (workers : list json) : option PlanError :=
  match workers with
  | [] => None
  | worker :: rest =>
      match checkWorker worker with
      | Some e => Some e
      | None => checkWorkers rest
      end
  end.

Definition validatePlan (plan : json) : PlanError + json :=
  match plan with
  | JNull => inl PropertyOfNull
  | _ =>
      if negb (Json.isString "plan" (Json.get "type" plan))
         || negb (isArray (Json.get "workers" plan))
      then inl InvalidPlan
      else
        match Json.get "workers" plan with
        | Some (JArr workers) =>
            match checkWorkers workers with
            | Some e => inl e
            | None => inr plan
            end
        | _ => inl InvalidPlan
        end
  end.

(** The search string ["type"], quotes included. *)
Definition typeKey : string :=
  String "034"%char ("type" +:+ String "034"%char EmptyString).

Definition failureMessage (text : string) : string :=
  "Could not extract JSON plan from orchestrator output. Raw output starts with: "
  +:+ String "034"%char
        (sliceTo 100 text +:+ "..." +:+ String "034"%char EmptyString).

Section WithJson.

Variable JSON_parse : string -> option json.

(** Group 1 of the first match of the code-fence pattern, if any. *)
Variable fenceMatch : string -> option string.

(** One [try { return validatePlan(JSON.parse(candidate)) } catch {}]:
    [None] when either step throws. *)
Definition tryPlan (candidate : string) : option json :=
  match JSON_parse candidate with
  | Some plan =>
      match validatePlan plan with
      | inr p => Some p
      | inl _ => None
      end
  | None => None
  end.

Definition fencedCandidate (text : string) : option string :=
  match fenceMatch text with
  | Some body => Some (trim body)
  | None => None
  end.

(** Strategy 3: the object that opens at the last brace at or before the
    first ["type"] and closes where the depth is back at zero. *)
Definition typedCandidate (text : string) : option string :=
  match indexOf typeKey text with
  | Some planTypeIndex =>
      match Telegram.lastIndexOfChar "{"%char planTypeIndex text with
      | Some braceStart =>
          match scanUp (sliceFrom braceStart text) braceStart 0 with
          | Some i => Some (slice braceStart (i + 1) text)
          | None => None
          end
      | None => None
      end
  | None => None
  end.

(** Strategy 4: the object that closes at the last closing brace. *)
Definition lastCandidate (text : string) : option string :=
  match lastIndexOf "}"%char text with
  | Some lastClose =>
      match scanDown (Some "{"%char) (Some "}"%char) text lastClose 0 with
      | Some start => Some (slice start (lastClose + 1) text)
      | None => None
      end
  | None => None
  end.

Definition tryCandidate (candidate : option string) : option json :=
  match candidate with
  | Some c => tryPlan c
  | None => None
  end.

(** [inl msg] when it throws [Error(msg)]. *)
Definition parsePlan (raw : string) : string + json :=
  let text := trim raw in
  match tryPlan text with
  | Some plan => inr plan
  | None =>
  match tryCandidate (fencedCandidate text) with
  | Some plan => inr plan
  | None =>
  match tryCandidate (typedCandidate text) with
  | Some plan => inr plan
  | None =>
  match tryCandidate (lastCandidate text) with
  | Some plan => inr plan
  | None => inl (failureMessage text)
  end end end end.

End WithJson.

(** What [validatePlan] lets through. *)
Definition wellShaped (plan : json) : Prop :=
  Json.get "type" plan = Some (JStr "plan")
  /\ exists workers,
       Json.get "workers" plan = Some (JArr workers)
       /\ Forall (fun worker =>
                    Json.truthy (Json.get "id" worker) = true
                    /\ Json.truthy (Json.get "prompt" worker) = true)
                 workers.

(** The texts that [parsePlan] hands to [JSON.parse]. *)
Definition candidateOf (fenceMatch : string -> option string)
    (text candidate : string) : Prop :=
  candidate = text
  \/ (exists body, fenceMatch text = Some body /\ candidate = trim body)
  \/ (includes text candidate = true
      /\ String.get 0 candidate = Some "{"%char
      /\ count "{"%char candidate = count "}"%char candidate).

End PlanParser.

(** ** invoker.ts: [parseClaudeOutput] *)

Module OutputParser.
Import Brackets.

Section WithJson.

Variable JSON_parse : string -> option json.

(** [extractResult]; [inl msg] when it throws. *)
Variable extractResult : json -> string + ClaudeResult.

(** The message of the [SyntaxError] of [JSON.parse] on a text. *)
Variable syntaxError : string -> string.

Definition parseAndExtract (text : string) : string + ClaudeResult :=
  match JSON_parse text with
  | Some data => extractResult data
  | None => inl (syntaxError text)
  end.

Definition openCharOf (closeChar : option ascii) : option ascii :=
  if bool_decide (closeChar = Some "}"%char)
  then Some "{"%char else Some "["%char.

Definition parseClaudeOutput (raw : string) : string + ClaudeResult :=
  let trimmed := trim raw in
  match parseAndExtract trimmed with
  | inr r => inr r
  | inl _ =>
      match maxIndex (lastIndexOf "}"%char trimmed)
                     (lastIndexOf "]"%char trimmed) with
      | None => inl "No JSON found in Claude output"
      | Some lastClose =>
          let closeChar := String.get lastClose trimmed in
          let openChar := openCharOf closeChar in
          match scanDown openChar closeChar trimmed lastClose 0 with
          | None => inl "Malformed JSON in Claude output"
          | Some start =>
              parseAndExtract (slice start (lastClose + 1) trimmed)
          end
      end
  end.

End WithJson.

End OutputParser.

(** ** Sample texts for the two parsers *)

Module ParserSamples.
Import Samples.

(** The text of a plan with one worker, and the object [JSON.parse]
    makes of it. *)
Definition planText : string :=
  "{" +:+ quoted "type" +:+ ":" +:+ quoted "plan" +:+ ","
      +:+ quoted "workers" +:+ ":[{"
      +:+ quoted "id" +:+ ":" +:+ quoted "w1" +:+ ","
      +:+ quoted "prompt" +:+ ":" +:+ quoted "run the tests" +:+ "}]}".

Definition planObject : json :=
  JObj [ ("type", JStr "plan");
         ("workers",
          JArr [ JObj [ ("id", JStr "w1");
                        ("prompt", JStr "run the tests") ] ]) ].

(** [JSON.parse] restricted to [planText]. *)
Definition parsePlanOnly (s : string) : option json :=
  if String.eqb s planText then Some planObject else None.

(** A text without code fences. *)
Definition noFence (text : string) : option string := None.

(** The output of a CLI run, and the object [JSON.parse] makes of it. *)
Definition resultText : string :=
  "{" +:+ quoted "result" +:+ ":" +:+ quoted "done" +:+ "}".

Definition resultObject : json := JObj [ ("result", JStr "done") ].

Definition parseResultOnly (s : string) : option json :=
  if String.eqb s resultText then Some resultObject else None.

(** [extractResult] on objects that hold a string [result] and nothing
    else; on other values it is taken to throw. *)
Definition extractPlainResult (data : json) : string + ClaudeResult :=
  match data with
  | JObj [ ("result", JStr text) ] =>
      if isEmpty text then inl "not a plain result"
      else inr {| cr_result := text; cr_sessionId := "";
                  cr_costUsd := None; cr_duration := None;
                  cr_isError := false |}
  | _ => inl "not a plain result"
  end.

Definition endOfInput (text : string) : string :=
  "Unexpected end of JSON input".

(** [JSON.parse] on texts that are no JSON. *)
Definition noJson (text : string) : option json := None.

End ParserSamples.

(** * Properties *)

(** ** Facts about the string primitives *)

Module JsStringFacts.

Lemma sapp_nil_l (b : string) : "" +:+ b = b.
Proof. reflexivity. Qed.

Lemma sapp_cons (c : ascii) (a b : string) :
  String c a +:+ b = String c (a +:+ b).
Proof. reflexivity. Qed.

Lemma sapp_assoc (a b c : string) : (a +:+ b) +:+ c = a +:+ b +:+ c.
Proof.
  induction a as [|x a IH]; [done|]. by rewrite !sapp_cons, IH.
Qed.

Lemma sapp_nil_r (a : string) : a +:+ "" = a.
Proof. induction a as [|x a IH]; [done|]. by rewrite sapp_cons, IH. Qed.

Lemma slength_app (a b : string) :
  String.length (a +:+ b) = String.length a + String.length b.
Proof.
  induction a as [|x a IH]; [done|]. rewrite sapp_cons. simpl. by rewrite IH.
Qed.

Lemma prefix_nil (s : string) : String.prefix "" s = true.
Proof. by destruct s. Qed.

Lemma prefix_cons (c d : ascii) (p s : string) :
  String.prefix (String c p) (String d s)
  = bool_decide (c = d) && String.prefix p s.
Proof.
  simpl. destruct (ascii_dec c d) as [->|Hne].
  - by rewrite bool_decide_eq_true_2.
  - by rewrite bool_decide_eq_false_2.
Qed.

Lemma prefix_app (p b : string) : String.prefix p (p +:+ b) = true.
Proof.
  induction p as [|c p IH]; [apply prefix_nil|].
  rewrite sapp_cons, prefix_cons, IH. by rewrite bool_decide_eq_true_2.
Qed.

Lemma includes_here (s pat : string) :
  String.prefix pat s = true → includes s pat = true.
Proof. intros H. destruct s; simpl in *; rewrite H; done. Qed.

Lemma includes_later (c : ascii) (s pat : string) :
  includes s pat = true → includes (String c s) pat = true.
Proof. intros H. cbn [includes]. rewrite H. apply orb_true_r. Qed.

Lemma includes_app_mid (a p b : string) :
  includes (a +:+ p +:+ b) p = true.
Proof.
  induction a as [|c a IH].
  - rewrite sapp_nil_l. apply includes_here, prefix_app.
  - rewrite sapp_cons. by apply includes_later.
Qed.

Lemma toLowerCase_app (a b : string) :
  toLowerCase (a +:+ b) = toLowerCase a +:+ toLowerCase b.
Proof.
  induction a as [|c a IH]; [done|].
  rewrite sapp_cons. simpl. by rewrite IH, sapp_cons.
Qed.

Lemma sliceFrom_app (a b : string) : sliceFrom (String.length a) (a +:+ b) = b.
Proof.
  induction a as [|x a IH]; [by destruct b|]. rewrite sapp_cons. exact IH.
Qed.



Lemma includes_app_r (a w pat : string) :
  includes w pat = true → includes (a +:+ w) pat = true.
Proof.
  intros H. induction a as [|c a IH]; [done|].
  rewrite sapp_cons. by apply includes_later.
Qed.




Lemma cut_unfold (pat s : string) :
  cut pat s
  = if String.prefix pat s
    then Some (EmptyString, sliceFrom (String.length pat) s)
    else match s with
         | EmptyString => None
         | String c s' =>
             match cut pat s' with
             | Some (a, b) => Some (String c a, b)
             | None => None
             end
         end.
Proof. by destruct s. Qed.

Lemma cut_absent (pat s : string) :
  includes s pat = false → cut pat s = None.
Proof.
  induction s as [|c s IH]; intros H; rewrite cut_unfold;
    cbn [includes] in H; apply orb_false_iff in H as [-> H]; [done|].
  by rewrite IH.
Qed.

(** A match of a text without ['<'] against [u ++ "<" ++ z] lies within
    [u]. *)
Lemma prefix_no_straddle (q : string) :
  includes q "<" = false →
  ∀ u z, String.prefix q (u +:+ String "<"%char z) = true →
         String.prefix q u = true.
Proof.
  induction q as [|c q IH]; intros Hq u z H; [apply prefix_nil|].
  cbn [includes] in Hq. apply orb_false_iff in Hq as [Hc Hq].
  rewrite prefix_cons, prefix_nil, andb_true_r in Hc.
  destruct u as [|d u].
  - rewrite sapp_nil_l, prefix_cons in H.
    apply andb_true_iff in H as [H _].
    apply bool_decide_eq_true in H. subst c.
    by rewrite bool_decide_eq_true_2 in Hc.
  - rewrite sapp_cons, prefix_cons in H. rewrite prefix_cons.
    apply andb_true_iff in H as [-> H]. by rewrite (IH Hq u z H).
Qed.

End JsStringFacts.
Import JsStringFacts.

(** ** Automatic retry *)

Module RetryFacts.
Import Orchestrator Spec Samples.

Lemma ciSubstring_includes (p s : string) :
  ciSubstring p s → includes (toLowerCase s) (toLowerCase p) = true.
Proof.
  intros (a & m & b & -> & Hm).
  rewrite !toLowerCase_app, Hm. apply includes_app_mid.
Qed.

Lemma matchesTransientPattern_sound (s : string) :
  matchesTransientPattern s → isTransientError s = true.
Proof.
  intros (p & Hp & Hsub). unfold isTransientError.
  apply existsb_exists. exists p. split.
  - by apply list_elem_of_In.
  - by apply ciSubstring_includes.
Qed.

Lemma executeWithRetry_once (W : World) (task : WorkerTask) (n : nat)
    (e : Effects) :
  let first := settle task (workerAgent W (length (fx_attempts e)) task) in
  negb (wr_success first) && isTransientError (wr_result first) = false →
  fx_attempts (executeWithRetry W task n e).2 = fx_attempts e ++ [task]
  ∧ (executeWithRetry W task n e).1 = first.
Proof.
  intros first H. unfold executeWithRetry, executeWithMonitoring.
  fold first. rewrite H. done.
Qed.

Lemma executeWithRetry_twice (W : World) (task : WorkerTask) (n : nat)
    (e : Effects) :
  let k := length (fx_attempts e) in
  let first := settle task (workerAgent W k task) in
  negb (wr_success first) && isTransientError (wr_result first) = true →
  fx_attempts (executeWithRetry W task n e).2
    = fx_attempts e ++ [task; retryTaskOf task]
  ∧ (executeWithRetry W task n e).1
    = settle (retryTaskOf task) (workerAgent W (S k) (retryTaskOf task)).
Proof.
  intros k first H. unfold executeWithRetry, executeWithMonitoring.
  fold k. fold first. rewrite H. cbn [emit fx_attempts fx_status].
  replace (length (fx_attempts e ++ [task])) with (S k)
    by (rewrite length_app; simpl; unfold k; lia).
  fold (retryTaskOf task).
  destruct (wr_success (settle _ _)); cbn [fst snd emit fx_attempts];
    rewrite <- app_assoc; done.
Qed.

(** A first execution that fails with a transient text: two calls of the
    worker agent, the second under the id [<id>-retry], and the value is
    the result of the retry. *)
Lemma executeWithRetry_failed_transient (W : World) (task : WorkerTask)
    (n : nat) (e : Effects) :
  let k := length (fx_attempts e) in
  let first := settle task (workerAgent W k task) in
  wr_success first = false →
  matchesTransientPattern (wr_result first) →
  fx_attempts (executeWithRetry W task n e).2
    = fx_attempts e ++ [task; retryTaskOf task]
  ∧ wt_id (retryTaskOf task) = wt_id task +:+ "-retry"
  ∧ (executeWithRetry W task n e).1
    = settle (retryTaskOf task) (workerAgent W (S k) (retryTaskOf task)).
Proof.
  intros k first Hfail Hmatch.
  destruct (executeWithRetry_twice W task n e) as [Hlog Hres].
  - fold k. fold first. rewrite Hfail.
    by rewrite (matchesTransientPattern_sound _ Hmatch).
  - done.
Qed.


End RetryFacts.

(** ** Supervision of one worker: the rejection handler *)

Module MonitoringFacts.
Import Orchestrator Spec Samples.

(** C9 (what the code does).  When the per-worker timer cancels a worker
    and the worker agent's promise rejects, the Worker Result has
    [success = false] but its text is "Worker killed by user", the very
    text produced for a kill through the registry handle; it does not
    contain "timed out", whatever the rejection message is. *)
Theorem settle_worker_timeout_says_killed (task : WorkerTask)
    (message : option string) (stalled : bool) (elapsed : Z) :
  let r := settle task (timedOutAttempt message stalled elapsed) in
  wr_success r = false
  ∧ wr_result r = "Worker killed by user"
  ∧ includes (wr_result r) "timed out" = false
  ∧ wr_result r = wr_result (settle task (killedAttempt message elapsed)).
Proof. by destruct stalled. Qed.

(** The "timed out" text is produced only for a rejection whose message
    contains "timed out" while the worker's controller is not aborted on
    its own (the invoker's call-scoped timer). *)
Lemma settle_timed_out_text (task : WorkerTask) (m : string) (elapsed : Z) :
  includes m "timed out" = true →
  wr_result (settle task (quiet (Rejected (Some m))))
  = "Worker timed out after 5m".
Proof. intros H. unfold settle. simpl. by rewrite H. Qed.

(** A run in which the only worker is cancelled by its timer: the status
    update announces the timeout, the Worker Result says "killed by
    user", and no retry takes place. *)
Example timed_out_worker_in_a_run :
  let W := world (sequentialPlan [worker "W1" []])
             (fun _ _ => timedOutAttempt (Some "Cancelled") false 300000) in
  let st := theState (scheduled W request) in
  map wr_result (workerResults st) = ["Worker killed by user"]
  ∧ map wt_id (fx_attempts (fx st)) = ["W1"]
  ∧ fx_status (fx st)
    = [SU_PlanBreakdown 1; SU_WorkerTimeout 1; SU_WorkerComplete false 1 1;
       SU_SequentialFailFast 1 0].
Proof. vm_compute. done. Qed.

End MonitoringFacts.

(** ** The planning call *)

Module PlanningFacts.
Import Orchestrator Spec Samples.

(** C8 (what the code does).  The planning call is awaited outside any
    [try]: when the planning process runs into the call-scoped timeout,
    or exits with a non-zero code and an empty stdout, [execute] does not
    return a Summary, the rejection of [invokeClaude] escapes from it. *)
Theorem execute_planning_failure_throws (W : World) (req : WorkRequest)
    (ms : Z) (code : positive) (stderr : string) :
  execute (withPlanProc W (TimerFired ms)) req
    = Thrown ("Claude CLI timed out after " +:+ pretty ms +:+ "ms")
  ∧ ∃ message,
      execute (withPlanProc W (ProcClose (Some (Z.pos code)) "" stderr false))
        req
      = Thrown message.
Proof.
  split; [reflexivity|].
  unfold execute, planningCall, invokeClaude, invokeClaudeInternal.
  cbn [withPlanProc planProc parseClaudeOutput hasSession andb exitedNonZero
       isEmpty Z.eqb negb].
  destruct (includes stderr "rate limit" || includes stderr "429"); eauto.
Qed.

(** A plan that cannot be parsed, by contrast, is caught: a Summary with
    [overallSuccess = false] and no worker results is returned. *)
Lemma execute_plan_parse_failure (W : World) (req : WorkRequest)
    (planResult : ClaudeResult) (message : string) :
  planningCall W = inr planResult →
  parsePlan W (cr_result planResult) = inl message →
  ∃ s, execute W req = Returned s
       ∧ os_overallSuccess s = false
       ∧ os_workerResults s = []
       ∧ String.prefix "Planning failed" (os_summary s) = true.
Proof.
  intros Hcall Hparse. unfold execute. rewrite Hcall, Hparse.
  eexists. split; [reflexivity|]. done.
Qed.

End PlanningFacts.

(** ** The summary: overall success and cost *)

Module SummaryFacts.
Import Orchestrator Spec Samples.

Lemma overallSuccessOf_true (results : list WorkerResult) :
  overallSuccessOf results = true ↔ results ≠ [] ∧ Forall succeeded results.
Proof.
  unfold overallSuccessOf. rewrite andb_true_iff, forallb_forall, Forall_forall.
  split.
  - intros [Hlen Hall]. split.
    + intros ->. discriminate Hlen.
    + intros r Hr. apply Hall. by apply list_elem_of_In.
  - intros [Hne Hall]. split.
    + destruct results; [done | reflexivity].
    + intros r Hr. apply Hall. by apply list_elem_of_In.
Qed.

Lemma summarize_results (W : World) (planCost : option Z) (st : ExecState) :
  os_workerResults (summarize W planCost st) = workerResults st
  ∧ os_overallSuccess (summarize W planCost st)
    = overallSuccessOf (workerResults st).
Proof. unfold summarize. by destruct (summaryCall W planCost st). Qed.

(** What [execute] returns, case by case. *)
Lemma execute_returned (W : World) (req : WorkRequest)
    (s : OrchestratorSummary) :
  execute W req = Returned s →
  ∃ planResult,
    planningCall W = inr planResult
    ∧ ((∃ message,
          parsePlan W (cr_result planResult) = inl message
          ∧ scheduled W req = None
          ∧ os_workerResults s = [] ∧ os_overallSuccess s = false
          ∧ os_totalCostUsd s = orZero (cr_costUsd planResult))
       ∨ (∃ plan st,
            executedPlan W = Some plan
            ∧ scheduled W req = Some st
            ∧ s = summarize W (cr_costUsd planResult) st)).
Proof.
  unfold execute, scheduled, executedPlan.
  destruct (planningCall W) as [err|planResult]; [discriminate|].
  intros H. exists planResult. split; [done|].
  destruct (parsePlan W (cr_result planResult)) as [message|parsed].
  - left. exists message. by injection H as <-.
  - right. cbn zeta in H.
    destruct (executeWorkers _ _ _) as [st|]; [|discriminate].
    destruct (workersThrow _ _ _); [discriminate|].
    exists (capWorkers parsed), st. by injection H as <-.
Qed.

(** With a plan and a phase 2 that ends without a throw, [execute]
    returns the Summary made in phase 3. *)
Lemma execute_of_plan (W : World) (req : WorkRequest)
    (plan : OrchestratorPlan) (st : ExecState) :
  executedPlan W = Some plan →
  executeWorkers W (wq_task req) plan = Some st →
  workersThrow W (wq_task req) plan = false →
  ∃ planResult,
    planningCall W = inr planResult
    ∧ execute W req = Returned (summarize W (cr_costUsd planResult) st).
Proof.
  intros Hplan Hst Hthrow. unfold execute. unfold executedPlan in Hplan.
  destruct (planningCall W) as [|planResult]; [discriminate|].
  destruct (parsePlan W (cr_result planResult)) as [|parsed]; [discriminate|].
  injection Hplan as Hplan. cbn zeta. rewrite Hplan, Hst, Hthrow.
  by exists planResult.
Qed.

(** C1.  Whenever [execute] returns a Summary (in particular whenever the
    run reaches the summary phase), [overallSuccess] is true if and only
    if [workerResults] is non-empty and every Worker Result in it has
    [success = true]. *)
Theorem execute_overallSuccess (W : World) (req : WorkRequest)
    (s : OrchestratorSummary) :
  execute W req = Returned s →
  os_overallSuccess s = true
  ↔ os_workerResults s ≠ [] ∧ Forall succeeded (os_workerResults s).
Proof.
  intros H. destruct (execute_returned W req s H) as (planResult & _ & Hcase).
  destruct Hcase as [(message & _ & _ & Hres & Hok & _)|(plan & st & _ & _ & ->)].
  - rewrite Hres, Hok. split; [discriminate | by intros [? _]].
  - destruct (summarize_results W (cr_costUsd planResult) st) as [-> ->].
    apply overallSuccessOf_true.
Qed.

Lemma execute_overallSuccess_witness :
  let W := world (sequentialPlan [worker "W1" []; worker "W2" []])
             (failingOn [] "") in
  let s := theSummary (execute W request) in
  os_overallSuccess s = true
  ↔ os_workerResults s ≠ [] ∧ Forall succeeded (os_workerResults s).
Proof.
  intros W s. apply (execute_overallSuccess W request s). reflexivity.
Defined.

Lemma workerCost_acc (results : list WorkerResult) (acc : Z) :
  fold_left (fun sum r => (sum + orZero (wr_costUsd r))%Z) results acc
  = (acc + sumCosts (map wr_costUsd results))%Z.
Proof.
  revert acc. induction results as [|r results IH]; intros acc; simpl.
  - lia.
  - rewrite IH. lia.
Qed.

Lemma workerCost_sum (results : list WorkerResult) :
  workerCost results = sumCosts (map wr_costUsd results).
Proof. unfold workerCost. rewrite workerCost_acc. lia. Qed.

(** C2 (as amended).  The returned [totalCostUsd] is the planning call's
    cost, plus the cost of every Worker Result in the returned
    [workerResults] (one per worker that ran; for a retried worker this
    is the retry's result), plus the summary call's cost, every missing
    cost counting as 0. *)
Theorem execute_totalCost (W : World) (req : WorkRequest)
    (s : OrchestratorSummary) :
  execute W req = Returned s →
  os_totalCostUsd s
  = (orZero (planCostOf W)
     + sumCosts (map wr_costUsd (os_workerResults s))
     + orZero (summaryCostOf W req))%Z.
Proof.
  intros H. destruct (execute_returned W req s H) as (planResult & Hplan & Hcase).
  unfold summaryCostOf, planCostOf. rewrite Hplan.
  destruct Hcase as [(message & _ & Hnone & Hres & _ & Hcost)
                    |(plan & st & Hexec & Hsched & ->)].
  - rewrite Hnone, Hres, Hcost.
    destruct (executedPlan W); simpl; lia.
  - rewrite Hexec, Hsched. unfold summarize.
    destruct (summaryCall W (cr_costUsd planResult) st) as [err|summaryResult];
      cbn [os_totalCostUsd os_workerResults]; rewrite workerCost_sum;
      simpl; lia.
Qed.

Lemma execute_totalCost_witness :
  let W := world (sequentialPlan [worker "W1" []; worker "W2" []]) flakyOnce in
  let s := theSummary (execute W request) in
  os_totalCostUsd s
  = (orZero (planCostOf W)
     + sumCosts (map wr_costUsd (os_workerResults s))
     + orZero (summaryCostOf W request))%Z.
Proof.
  intros W s. apply (execute_totalCost W request s). reflexivity.
Defined.

(** C2 (as stated) fails: worker W1 first fails with a rate-limit text at
    a cost of 2 and is retried at a cost of 3; with a planning cost of 10
    and a summary cost of 1 the returned total is 14, the cost of the
    replaced first attempt is not in it. *)
Lemma total_cost_counts_every_attempt_refuted :
  ¬ total_cost_counts_every_attempt.
Proof.
  intros H.
  pose (W := world (sequentialPlan [worker "W1" []]) flakyOnce).
  specialize (H W request (theSummary (execute W request)) eq_refl).
  vm_compute in H. discriminate H.
Qed.

End SummaryFacts.

(** ** Sequential mode *)

Module SequentialFacts.
Import Orchestrator Spec Samples SummaryFacts.

Lemma initialExec_inv (plan : OrchestratorPlan) : SeqInv [] (initialExec plan).
Proof. split; [done..|]. constructor. Qed.

(** Running one more worker keeps the invariant. *)
Lemma seq_step_inv (plan : OrchestratorPlan) (done : list WorkerTask)
    (st : ExecState) (r : Run) (e : Effects) (u : StatusUpdate) :
  SeqInv done st →
  failFastTriggered st = false →
  let st1 := pushResult plan r (withEffects e st) in
  SeqInv (done ++ [run_task r])
    (if wr_success (run_result r) then st1 else triggerFailFast u st1).
Proof.
  intros [Htasks Hres Hcount Hfail] Hff st1.
  rewrite Hff in Hfail. simpl in Hfail.
  assert (Hbase : map run_task (runs st1) = done ++ [run_task r]
                  ∧ workerResults st1 = map run_result (runs st1)
                  ∧ completedCount st1 = length (runs st1)).
  { unfold st1, pushResult, withEffects. simpl.
    rewrite !map_app, Htasks, Hres, Hcount, length_app. simpl.
    split_and!; [done | done | lia]. }
  destruct Hbase as (H1 & H2 & H3).
  destruct (wr_success (run_result r)) eqn:Hok.
  - split; [done..|].
    replace (failFastTriggered st1) with false by (by rewrite <- Hff).
    simpl. unfold st1. simpl. apply Forall_app. split; [done|].
    by repeat constructor.
  - split; [done..|]. simpl.
    exists (workerResults st), (run_result r). done.
Qed.

Lemma sequentialLoop_inv (W : World) (goal : string) (plan : OrchestratorPlan)
    (ws : list WorkerTask) :
  ∀ (idx : nat) (st : ExecState) (done : list WorkerTask),
    SeqInv done st →
    ∃ done', SeqInv done' (sequentialLoop W goal plan ws idx st)
             ∧ done' `prefix_of` done ++ ws.
Proof.
  induction ws as [|task rest IH]; intros idx st done Hinv.
  - exists done. split; [done|]. by rewrite app_nil_r.
  - cbn [sequentialLoop].
    destruct (interrupted W st) eqn:Hint.
    + exists done. split; [done|]. by apply prefix_app_r.
    + apply orb_false_iff in Hint as [_ Hff].
      destruct (executeWithRetry W _ _ _) as [result e1].
      set (r := {| run_task := task; run_result := result |}).
      pose proof (seq_step_inv plan done st r e1
                    (SU_SequentialFailFast (idx + 1)
                       (totalWorkers plan
                        - completedCount (pushResult plan r (withEffects e1 st))))
                    Hinv Hff) as Hstep.
      cbn zeta in Hstep.
      destruct (IH (S idx) _ _ Hstep) as (done' & Hinv' & Hpre).
      exists done'. split; [exact Hinv'|].
      by rewrite <- app_assoc in Hpre.
Qed.

Lemma sequentialLoop_grows (W : World) (goal : string)
    (plan : OrchestratorPlan) (ws : list WorkerTask) :
  ∀ (idx : nat) (st : ExecState),
    workerResults st
      `prefix_of` workerResults (sequentialLoop W goal plan ws idx st).
Proof.
  induction ws as [|task rest IH]; intros idx st; cbn [sequentialLoop];
    [done|].
  destruct (interrupted W st); [done|].
  destruct (executeWithRetry W _ _ _) as [result e1].
  etrans; [|apply IH].
  destruct (wr_success result); cbn; by apply prefix_app_r.
Qed.

(** The one entry the sequential loop adds for a worker is what
    [executeWithRetry] hands back: for a retried worker, the result of
    the retry. *)
Lemma sequentialLoop_entry (W : World) (goal : string)
    (plan : OrchestratorPlan) (task : WorkerTask) (rest : list WorkerTask)
    (idx : nat) (st : ExecState) :
  interrupted W st = false →
  let started :=
    withPrompt task (augmentedPrompt goal plan task (idx + 1)
                       (workerResults st)) in
  workerResults st ++ [(executeWithRetry W started (idx + 1) (fx st)).1]
    `prefix_of`
    workerResults (sequentialLoop W goal plan (task :: rest) idx st).
Proof.
  intros Hint started. cbn [sequentialLoop]. rewrite Hint. fold started.
  destruct (executeWithRetry W started (idx + 1) (fx st)) as [result e1].
  etrans; [|apply sequentialLoop_grows].
  by destruct (wr_success result).
Qed.




(** The 3-worker scenario, evaluated: W2 fails, W3 never runs. *)
Example sequential_three_workers_second_fails :
  let W := world (sequentialPlan [worker "W1" []; worker "W2" []; worker "W3" []])
             (failingOn ["W2"] "tests are red") in
  let s := theSummary (execute W request) in
  map wr_taskId (os_workerResults s) = ["W1"; "W2"]
  ∧ os_overallSuccess s = false
  ∧ map wt_id (attemptsOf W request) = ["W1"; "W2"].
Proof. vm_compute. done. Qed.

End SequentialFacts.

(** ** Parallel mode *)

Module ParallelFacts.
Import Orchestrator Spec Samples SummaryFacts.

Section Rounds.

Variable W : World.
Variable goal : string.
Variable plan : OrchestratorPlan.

Lemma runAll_cons (ps : ParState) (task : WorkerTask)
    (rest : list WorkerTask) (e : Effects) :
  let n := workerNumberOf plan (wt_id task) in
  let prior := depResults ps task in
  let p := augmentedPrompt goal plan task n prior in
  let first := executeWithRetry W (withPrompt task p) n e in
  runAll W goal plan ps (task :: rest) e
  = ({| run_task := task; run_number := n; run_prior := prior;
        run_prompt := p; run_result := first.1 |}
       :: (runAll W goal plan ps rest first.2).1,
     (runAll W goal plan ps rest first.2).2).
Proof.
  cbn [runAll]. destruct (executeWithRetry W _ _ e) as [result e1].
  cbn [fst snd]. by destruct (runAll W goal plan ps rest e1).
Qed.

(** The batch of a round: one run per ready worker, in the order of
    [ready], started with the results of its dependencies as recorded in
    [resultMap] when the round began. *)
Lemma runAll_shape (ps : ParState) (ready : list WorkerTask) :
  ∀ e, Forall2
         (λ task r,
            run_task r = task
            ∧ run_prior r = depResults ps task
            ∧ run_prompt r
              = augmentedPrompt goal plan task (run_number r) (run_prior r))
         ready (runAll W goal plan ps ready e).1.
Proof.
  induction ready as [|task rest IH]; intros e.
  - constructor.
  - rewrite runAll_cons. cbn [fst]. constructor; [done|]. apply IH.
Qed.

Lemma runAll_tasks (ps : ParState) (ready : list WorkerTask) (e : Effects) :
  map run_task (runAll W goal plan ps ready e).1 = ready.
Proof.
  pose proof (runAll_shape ps ready e) as H.
  induction H as [|task r ready batch (Ht & _) _ IH]; simpl; [done|].
  by rewrite Ht, IH.
Qed.

Lemma recordRun_core (ps : ParState) (r : Run) :
  ParCore ps → ParCore (recordRun plan ps r).
Proof.
  intros [Hres Hcompl Hmap Hdis]. split; cbn [recordRun ps_exec pushResult
    workerResults runs remaining completed resultMap].
  - by rewrite Hres, map_app.
  - intros d Hd. destruct (decide (wt_id (run_task r) = d)) as [->|Hne].
    + rewrite lookup_insert_eq. eauto.
    + rewrite lookup_insert_ne by done. apply Hcompl. set_solver.
  - intros d res Hd. destruct (decide (wt_id (run_task r) = d)) as [Heq|Hne].
    + subst d. rewrite lookup_insert_eq in Hd. injection Hd as <-.
      exists (length (runs (ps_exec ps))), r.
      split; [|done]. by rewrite list_lookup_middle.
    + rewrite lookup_insert_ne in Hd by done.
      destruct (Hmap d res Hd) as (j & r' & Hj & Hr').
      exists j, r'. split; [|done].
      rewrite lookup_app_l; [done|]. by eapply lookup_lt_Some.
  - intros r0 Hr0. apply elem_of_app in Hr0 as [Hr0|Hr0].
    + specialize (Hdis r0 Hr0). set_solver.
    + apply list_elem_of_singleton in Hr0 as ->. set_solver.
Qed.

Lemma recordBatch_spec (batch : list Run) :
  ∀ ps, ParCore ps →
    let ps' := recordBatch plan ps batch in
    ParCore ps'
    ∧ runs (ps_exec ps') = runs (ps_exec ps) ++ batch
    ∧ remaining ps' = remaining ps ∖ idsOf batch
    ∧ completed ps' = completed ps ∪ idsOf batch
    ∧ failFastTriggered (ps_exec ps') = failFastTriggered (ps_exec ps)
    ∧ fx_attempts (fx (ps_exec ps')) = fx_attempts (fx (ps_exec ps)).
Proof.
  induction batch as [|r batch IH]; intros ps Hcore; cbn zeta.
  - unfold recordBatch, idsOf. simpl. rewrite app_nil_r.
    split_and!; [done | done | set_solver | set_solver | done | done].
  - unfold recordBatch. cbn [fold_left]. fold (recordBatch plan (recordRun plan ps r) batch).
    destruct (IH _ (recordRun_core ps r Hcore)) as (H1 & H2 & H3 & H4 & H5 & H6).
    split_and!; [done | | | | done | done].
    + rewrite H2. cbn [recordRun ps_exec pushResult runs].
      by rewrite <- app_assoc.
    + rewrite H3. unfold idsOf. cbn [recordRun remaining map list_to_set].
      set_solver.
    + rewrite H4. unfold idsOf. cbn [recordRun completed map list_to_set].
      set_solver.
Qed.

Lemma depsBefore_app (rs batch : list Run) :
  depsBefore rs →
  (∀ r, r ∈ batch →
     Forall2
       (λ d res, ∃ j r', j < length rs ∧ rs !! j = Some r'
                         ∧ wt_id (run_task r') = d ∧ run_result r' = res)
       (deps (run_task r)) (run_prior r)) →
  depsBefore (rs ++ batch).
Proof.
  intros Hold Hnew i r Hi.
  apply lookup_app_Some in Hi as [Hi|[Hlen Hi]].
  - eapply Forall2_impl; [exact (Hold i r Hi)|].
    intros d res (j & r' & Hj & Hr' & Hrest).
    destruct Hrest as [? ?]. exists j, r'. split_and!; [done| |done|done].
    rewrite lookup_app_l; [done|]. by eapply lookup_lt_Some.
  - eapply Forall2_impl; [apply Hnew; by eapply list_elem_of_lookup_2|].
    intros d res (j & r' & Hj & Hr' & Hrest).
    destruct Hrest as [? ?]. exists j, r'. split_and!; [lia| |done|done].
    by rewrite lookup_app_l.
Qed.

Lemma isReady_true (ps : ParState) (w : WorkerTask) :
  isReady ps w = true ↔
  wt_id w ∈ remaining ps ∧ ∀ d, d ∈ deps w → d ∈ completed ps.
Proof.
  unfold isReady. rewrite andb_true_iff, bool_decide_eq_true, forallb_forall.
  split; intros [Hrem Hdeps]; (split; [done|]); intros d Hd.
  - apply list_elem_of_In in Hd. specialize (Hdeps d Hd).
    by apply bool_decide_eq_true in Hdeps.
  - apply bool_decide_eq_true. apply Hdeps. by apply list_elem_of_In.
Qed.

Lemma readyWorkers_spec (ps : ParState) (w : WorkerTask) :
  w ∈ readyWorkers plan ps ↔
  w ∈ pl_workers plan ∧ wt_id w ∈ remaining ps
  ∧ ∀ d, d ∈ deps w → d ∈ completed ps.
Proof.
  unfold readyWorkers. rewrite list_elem_of_In, filter_In, isReady_true.
  rewrite <- list_elem_of_In. tauto.
Qed.

(** For a ready worker, [depResults] finds one result per declared
    dependency. *)
Lemma depResults_exact (ps : ParState) (ds : list string) :
  (∀ d, d ∈ completed ps → is_Some (resultMap ps !! d)) →
  (∀ d, d ∈ ds → d ∈ completed ps) →
  Forall2 (λ d res, resultMap ps !! d = Some res) ds
    (omap (fun depId => resultMap ps !! depId) ds).
Proof.
  intros Hcompl. induction ds as [|d ds IH]; intros Hds; simpl.
  - constructor.
  - destruct (Hcompl d) as [res Hres]; [apply Hds; by left|].
    rewrite Hres. constructor; [done|].
    apply IH. intros d' Hd'. apply Hds. by right.
Qed.

Lemma runRound_unfold (ps : ParState) (ready : list WorkerTask) :
  let batch := batchOf W goal plan ps ready in
  let ps1 := recordedOf W goal plan ps ready in
  let blocked :=
    blockedWorkers plan (remaining ps1)
      (failedIds ready (map run_result batch)) in
  runRound W goal plan ps ready
  = if batchHadFailure batch then
      match blocked with
      | [] => ps1
      | _ => withExec
               (triggerFailFast (SU_ParallelFailFast (length blocked))
                  (ps_exec ps1)) ps1
      end
    else ps1.
Proof.
  unfold runRound, recordedOf, batchOf.
  by destruct (runAll W goal plan ps ready (fx (ps_exec ps))).
Qed.

(** The fail-fast check changes the flag and the status updates only. *)
Lemma runRound_fields (ps : ParState) (ready : list WorkerTask) :
  let ps1 := recordedOf W goal plan ps ready in
  let ps' := runRound W goal plan ps ready in
  runs (ps_exec ps') = runs (ps_exec ps1)
  ∧ workerResults (ps_exec ps') = workerResults (ps_exec ps1)
  ∧ remaining ps' = remaining ps1
  ∧ completed ps' = completed ps1
  ∧ resultMap ps' = resultMap ps1.
Proof.
  cbn zeta. rewrite runRound_unfold. cbn zeta.
  destruct (batchHadFailure _); [|done].
  by destruct (blockedWorkers _ _ _).
Qed.

Lemma recordedOf_spec (ps : ParState) (ready : list WorkerTask) :
  ParCore ps →
  let batch := batchOf W goal plan ps ready in
  let ps1 := recordedOf W goal plan ps ready in
  ParCore ps1
  ∧ runs (ps_exec ps1) = runs (ps_exec ps) ++ batch
  ∧ remaining ps1 = remaining ps ∖ idsOf batch
  ∧ completed ps1 = completed ps ∪ idsOf batch
  ∧ failFastTriggered (ps_exec ps1) = failFastTriggered (ps_exec ps).
Proof.
  intros [Hres Hcompl Hmap Hdis]. cbn zeta. unfold recordedOf.
  set (ps0 := withExec _ ps).
  assert (Hcore0 : ParCore ps0) by (by split).
  destruct (recordBatch_spec (batchOf W goal plan ps ready) ps0 Hcore0)
    as (H1 & H2 & H3 & H4 & H5 & _).
  done.
Qed.

Lemma ParCore_runRound (ps : ParState) (ready : list WorkerTask) :
  ParCore ps → ParCore (runRound W goal plan ps ready).
Proof.
  intros Hcore.
  destruct (recordedOf_spec ps ready Hcore) as ([Hres Hcompl Hmap Hdis] & _).
  destruct (runRound_fields ps ready) as (E1 & E2 & E3 & E4 & E5).
  split; rewrite ?E1, ?E2, ?E3, ?E4, ?E5; done.
Qed.

Lemma ParInv_runRound (ps : ParState) :
  ParInv goal plan ps →
  ParInv goal plan (runRound W goal plan ps (readyWorkers plan ps)).
Proof.
  intros (Hcore & Hdeps & Hprompts).
  split; [by apply ParCore_runRound|].
  destruct (runRound_fields ps (readyWorkers plan ps)) as (-> & _).
  destruct (recordedOf_spec ps (readyWorkers plan ps) Hcore) as (_ & -> & _).
  pose proof (runAll_shape ps (readyWorkers plan ps) (fx (ps_exec ps)))
    as Hshape.
  fold (batchOf W goal plan ps (readyWorkers plan ps)) in Hshape.
  split.
  - apply depsBefore_app; [done|]. intros r Hr.
    apply list_elem_of_lookup in Hr as [i Hi].
    destruct (Forall2_lookup_r _ _ _ _ _ Hshape Hi)
      as (task & Htask & Ht & Hprior & _).
    apply list_elem_of_lookup_2, readyWorkers_spec in Htask
      as (_ & _ & Hready).
    rewrite Ht, Hprior. unfold depResults.
    eapply Forall2_impl;
      [apply depResults_exact; [apply Hcore | exact Hready]|].
    intros d res Hlook.
    destruct (par_resultMap _ Hcore d res Hlook) as (j & r' & Hj & Hr').
    exists j, r'. split; [by eapply lookup_lt_Some | done].
  - apply Forall_app. split; [done|].
    apply Forall_forall. intros r Hr.
    apply list_elem_of_lookup in Hr as [i Hi].
    destruct (Forall2_lookup_r _ _ _ _ _ Hshape Hi)
      as (task & Htask & Ht & _ & Hprompt).
    apply list_elem_of_lookup_2, readyWorkers_spec in Htask as (Hin & _).
    split; [by rewrite Ht | by rewrite Hprompt, Ht].
Qed.

(** *** The loop *)

Lemma parallelStep_inr (ps next : ParState) :
  parallelStep W goal plan ps = inr next →
  next = runRound W goal plan ps (readyWorkers plan ps)
  ∧ readyWorkers plan ps ≠ [].
Proof.
  unfold parallelStep.
  destruct (bool_decide _); [discriminate|].
  destruct (interrupted W _); [discriminate|].
  destruct (readyThrows plan ps); [discriminate|].
  destruct (readyWorkers plan ps) as [|task rest] eqn:E; [discriminate|].
  intros H. by injection H as <-.
Qed.

(** A round is run only if the filter for [ready] does not throw. *)
Lemma parallelStep_inr_arrays (ps next : ParState) :
  parallelStep W goal plan ps = inr next → readyThrows plan ps = false.
Proof.
  unfold parallelStep.
  destruct (bool_decide _); [discriminate|].
  destruct (interrupted W _); [discriminate|].
  by destruct (readyThrows plan ps).
Qed.

Lemma stopped_state (ps : ParState) (reason : StopReason) (ps' : ParState) :
  parallelStep W goal plan ps = inl (reason, ps') → ps' = ps.
Proof.
  unfold parallelStep.
  destruct (bool_decide _); [by intros [= _ <-]|].
  destruct (interrupted W _); [by intros [= _ <-]|].
  destruct (readyThrows plan ps); [by intros [= _ <-]|].
  destruct (readyWorkers plan ps); [by intros [= _ <-]|discriminate].
Qed.

Lemma parallelLoop_stop (fuel : nat) :
  ∀ ps reason ps',
    parallelLoop W goal plan fuel ps = Some (reason, ps') →
    parallelStep W goal plan ps' = inl (reason, ps').
Proof.
  induction fuel as [|fuel IH]; intros ps reason ps'; cbn [parallelLoop];
    destruct (parallelStep W goal plan ps) as [[reason0 ps0]|next] eqn:E;
    intros H; try discriminate.
  - injection H as <- <-. by rewrite (stopped_state _ _ _ E) in E |- *.
  - injection H as <- <-. by rewrite (stopped_state _ _ _ E) in E |- *.
  - by eapply IH.
Qed.

Lemma parallelLoop_inv (fuel : nat) :
  ∀ ps reason ps',
    ParInv goal plan ps →
    parallelLoop W goal plan fuel ps = Some (reason, ps') →
    ParInv goal plan ps'.
Proof.
  induction fuel as [|fuel IH]; intros ps reason ps' Hinv;
    cbn [parallelLoop];
    destruct (parallelStep W goal plan ps) as [[reason0 ps0]|next] eqn:E;
    intros H; try discriminate.
  - injection H as <- <-. by rewrite (stopped_state _ _ _ E).
  - injection H as <- <-. by rewrite (stopped_state _ _ _ E).
  - apply parallelStep_inr in E as [-> _].
    eapply IH; [|exact H]. by apply ParInv_runRound.
Qed.

Lemma size_list_to_set_le (l : list string) :
  (size (list_to_set l : gset string) ≤ length l)%nat.
Proof.
  induction l as [|x l IH]; cbn [list_to_set length].
  - rewrite size_empty. lia.
  - rewrite size_union_alt, size_singleton.
    pose proof (subseteq_size (list_to_set l ∖ {[x]}) (list_to_set l : gset string))
      as Hle.
    specialize (Hle ltac:(set_solver)). lia.
Qed.

(** Every round takes at least one id out of [remaining]. *)
Lemma runRound_decreases (ps : ParState) :
  ParCore ps →
  readyWorkers plan ps ≠ [] →
  size (remaining (runRound W goal plan ps (readyWorkers plan ps)))
  < size (remaining ps).
Proof.
  intros Hcore Hne.
  destruct (runRound_fields ps (readyWorkers plan ps)) as (_ & _ & -> & _).
  destruct (recordedOf_spec ps (readyWorkers plan ps) Hcore)
    as (_ & _ & -> & _).
  destruct (readyWorkers plan ps) as [|task rest] eqn:E; [done|].
  assert (Htask : task ∈ readyWorkers plan ps) by (rewrite E; by left).
  apply readyWorkers_spec in Htask as (_ & Hrem & _).
  assert (Hid : wt_id task ∈ idsOf (batchOf W goal plan ps (task :: rest))).
  { unfold idsOf, batchOf. apply elem_of_list_to_set.
    rewrite <- (map_map run_task wt_id), runAll_tasks. by left. }
  apply subset_size. set_solver.
Qed.

Lemma parallelLoop_total (fuel : nat) :
  ∀ ps, ParCore ps → (size (remaining ps) ≤ fuel)%nat →
        is_Some (parallelLoop W goal plan fuel ps).
Proof.
  induction fuel as [|fuel IH]; intros ps Hcore Hsize; cbn [parallelLoop];
    destruct (parallelStep W goal plan ps) as [stopped|next] eqn:E; eauto.
  - exfalso. revert E. unfold parallelStep.
    rewrite bool_decide_eq_true_2 by lia. discriminate.
  - apply parallelStep_inr in E as [-> Hne].
    apply IH; [by apply ParCore_runRound|].
    pose proof (runRound_decreases ps Hcore Hne). lia.
Qed.

Lemma initialPar_inv : ParInv goal plan (initialPar plan).
Proof.
  split; [split|split]; cbn; try done.
  all: try (intros d Hd; set_solver).
  all: try (intros r Hr; by apply elem_of_nil in Hr).
  all: try (intros i r Hi; by rewrite lookup_nil in Hi).
Qed.

(** The parallel loop comes to a stop within its fuel, in a state that
    satisfies the invariant. *)
Lemma parallelRun_ok :
  ∃ reason ps,
    parallelRun W goal plan = Some (reason, ps)
    ∧ ParInv goal plan ps
    ∧ parallelStep W goal plan ps = inl (reason, ps).
Proof.
  unfold parallelRun.
  destruct (parallelLoop_total (totalWorkers plan) (initialPar plan))
    as [[reason ps] Hrun].
  - apply initialPar_inv.
  - unfold initialPar, totalWorkers. cbn [remaining].
    etrans; [apply size_list_to_set_le|]. by rewrite length_map.
  - exists reason, ps. split_and!; [done| |by eapply parallelLoop_stop].
    eapply parallelLoop_inv; [apply initialPar_inv | exact Hrun].
Qed.

(** *** Fail-fast after a round *)

Lemma recordBatch_flag (batch : list Run) :
  ∀ ps, failFastTriggered (ps_exec (recordBatch plan ps batch))
        = failFastTriggered (ps_exec ps)
        ∧ remaining (recordBatch plan ps batch) = remaining ps ∖ idsOf batch.
Proof.
  induction batch as [|r batch IH]; intros ps.
  - unfold idsOf. cbn. split; [done | set_solver].
  - unfold recordBatch. cbn [fold_left].
    fold (recordBatch plan (recordRun plan ps r) batch).
    destruct (IH (recordRun plan ps r)) as [-> ->].
    unfold idsOf. cbn [recordRun ps_exec pushResult failFastTriggered
                       remaining map list_to_set].
    split; [done | set_solver].
Qed.

Lemma batchHadFailure_true (batch : list Run) :
  batchHadFailure batch = true ↔ ∃ r, r ∈ batch ∧ failed r.
Proof.
  unfold batchHadFailure, failed. rewrite existsb_exists.
  split; intros (r & Hr & Hf); exists r.
  - split; [by apply list_elem_of_In | by apply negb_true_iff].
  - split; [by apply list_elem_of_In | by apply negb_true_iff].
Qed.

(** When the failures come first in the batch, [failedIds] is the set of
    ids of the workers that failed. *)
Lemma failedIds_failuresFirst (bad good : list Run) :
  Forall failed bad →
  Forall (λ r, succeeded (run_result r)) good →
  failedIds (map run_task (bad ++ good)) (map run_result (bad ++ good))
  = idsOf bad.
Proof.
  intros Hbad Hgood. unfold failedIds, idsOf. f_equal.
  assert (Hfilter :
    List.filter (fun r => negb (wr_success r)) (map run_result (bad ++ good))
    = map run_result bad).
  { rewrite map_app, List.filter_app.
    replace (List.filter _ (map run_result good)) with (@nil WorkerResult).
    - rewrite app_nil_r. clear Hgood.
      induction Hbad as [|r bad Hr _ IH]; simpl; [done|].
      unfold failed in Hr. by rewrite Hr, IH.
    - clear Hbad. induction Hgood as [|r good Hr _ IH]; simpl; [done|].
      unfold succeeded in Hr. by rewrite Hr. }
  rewrite Hfilter. apply list_eq. intros i.
  rewrite list_lookup_imap.
  change (map run_result bad) with (run_result <$> bad).
  change (map run_task (bad ++ good)) with (run_task <$> (bad ++ good)).
  change (map (λ r, wt_id (run_task r)) bad)
    with ((λ r, wt_id (run_task r)) <$> bad).
  rewrite !list_lookup_fmap.
  destruct (bad !! i) as [r|] eqn:Hi; simpl; [|done].
  rewrite lookup_app_l by (by eapply lookup_lt_Some).
  by rewrite Hi.
Qed.

Lemma blockedWorkers_nonempty (rem failedSet : gset string) :
  blockedWorkers plan rem failedSet ≠ [] ↔
  ∃ w d, w ∈ pl_workers plan ∧ wt_id w ∈ rem ∧ d ∈ deps w ∧ d ∈ failedSet.
Proof.
  unfold blockedWorkers. split.
  - destruct (List.filter _ _) as [|w ws] eqn:E; [done|]. intros _.
    assert (Hw : In w (List.filter
                  (fun w => bool_decide (wt_id w ∈ rem)
                            && existsb (fun dep => bool_decide (dep ∈ failedSet))
                                 (deps w))
                  (pl_workers plan))) by (rewrite E; by left).
    apply filter_In in Hw as [Hin Hw].
    apply andb_true_iff in Hw as [Hrem Hdep].
    apply existsb_exists in Hdep as (d & Hd & Hfail).
    exists w, d. split_and!.
    + by apply list_elem_of_In.
    + by apply bool_decide_eq_true in Hrem.
    + by apply list_elem_of_In.
    + by apply bool_decide_eq_true in Hfail.
  - intros (w & d & Hin & Hrem & Hd & Hfail) Hnil.
    assert (Hw : In w (List.filter
                  (fun w => bool_decide (wt_id w ∈ rem)
                            && existsb (fun dep => bool_decide (dep ∈ failedSet))
                                 (deps w))
                  (pl_workers plan))).
    { apply filter_In. split; [by apply list_elem_of_In|].
      apply andb_true_iff. split; [by apply bool_decide_eq_true|].
      apply existsb_exists. exists d.
      split; [by apply list_elem_of_In | by apply bool_decide_eq_true]. }
    rewrite Hnil in Hw. destruct Hw.
Qed.

(** The flag after a round that started with the flag down. *)
Lemma runRound_flag (ps : ParState) (ready : list WorkerTask) :
  failFastTriggered (ps_exec ps) = false →
  let batch := batchOf W goal plan ps ready in
  let ps' := runRound W goal plan ps ready in
  failFastTriggered (ps_exec ps') = true ↔
  batchHadFailure batch = true
  ∧ blockedWorkers plan (remaining ps')
      (failedIds ready (map run_result batch)) ≠ [].
Proof.
  intros Hflag. cbn zeta.
  destruct (runRound_fields ps ready) as (_ & _ & -> & _).
  rewrite runRound_unfold. cbn zeta.
  assert (Hrec : failFastTriggered (ps_exec (recordedOf W goal plan ps ready))
                 = false).
  { unfold recordedOf.
    destruct (recordBatch_flag (batchOf W goal plan ps ready)
                (withExec (withEffects
                   (runAll W goal plan ps ready (fx (ps_exec ps))).2
                   (ps_exec ps)) ps)) as [-> _].
    exact Hflag. }
  destruct (batchHadFailure _).
  - destruct (blockedWorkers _ _ _) as [|w ws].
    + rewrite Hrec. split; [discriminate | by intros [_ ?]].
    + cbn. split; [done | done].
  - rewrite Hrec. split; [discriminate | by intros [? _]].
Qed.

(** Once the flag is up and a worker remains, the loop stops where it
    is: no further round is run. *)
Lemma parallelLoop_interrupted (ps : ParState) (fuel : nat) :
  failFastTriggered (ps_exec ps) = true →
  remaining ps ≠ ∅ →
  parallelLoop W goal plan fuel ps = Some (Interrupted, ps).
Proof.
  intros Hflag Hrem.
  assert (Hstep : parallelStep W goal plan ps = inl (Interrupted, ps)).
  { unfold parallelStep, interrupted.
    rewrite bool_decide_eq_false_2; [by rewrite Hflag, orb_true_r|].
    intros Hsize. by apply size_empty_iff, leibniz_equiv in Hsize. }
  destruct fuel; cbn [parallelLoop]; by rewrite Hstep.
Qed.

End Rounds.

(** With a parallel plan, [execute] returns the Summary of the state in
    which the loop stopped. *)
Lemma execute_parallel (W : World) (req : WorkRequest)
    (plan : OrchestratorPlan) (reason : StopReason) (ps : ParState) :
  executedPlan W = Some plan →
  pl_sequential plan = false →
  parallelRun W (wq_task req) plan = Some (reason, ps) →
  reason ≠ Crashed →
  scheduled W req = Some (ps_exec ps)
  ∧ ∃ planResult,
      planningCall W = inr planResult
      ∧ execute W req
        = Returned (summarize W (cr_costUsd planResult) (ps_exec ps)).
Proof.
  intros Hplan Hpar Hrun Hreason.
  assert (Hst : executeWorkers W (wq_task req) plan = Some (ps_exec ps)).
  { unfold executeWorkers. by rewrite Hpar, Hrun. }
  split; [unfold scheduled; by rewrite Hplan|].
  apply (execute_of_plan W req plan (ps_exec ps) Hplan Hst).
  unfold workersThrow. rewrite Hpar, Hrun. by destruct reason.
Qed.

(** [execute] never runs out of fuel. *)
Lemma execute_terminates (W : World) (req : WorkRequest) :
  execute W req ≠ OutOfFuel.
Proof.
  unfold execute.
  destruct (planningCall W) as [|planResult]; [done|].
  destruct (parsePlan W (cr_result planResult)) as [|parsed]; [done|].
  cbn zeta. unfold executeWorkers.
  destruct (pl_sequential (capWorkers parsed));
    [by destruct (workersThrow _ _ _)|].
  destruct (parallelRun_ok W (wq_task req) (capWorkers parsed))
    as (reason & ps & -> & _). by destruct (workersThrow _ _ _).
Qed.

(** The diamond plan, evaluated: A alone, then B and C, then D; D is
    handed the results of B and C and not that of A. *)
Example diamond_schedule :
  let W := world diamond (failingOn [] "") in
  let st := theState (scheduled W request) in
  map (fun r => wt_id (run_task r)) (runs st) = ["A"; "B"; "C"; "D"]
  ∧ map (fun r => map wr_taskId (run_prior r)) (runs st)
    = [[]; ["A"]; ["A"]; ["B"; "C"]].
Proof. vm_compute. done. Qed.

(** C6 (as amended).  In parallel mode, after a round that began with
    fail-fast not triggered: fail-fast is triggered only if some worker
    of the round failed, and once it is triggered the loop stops with
    the state as it is, so that every worker still remaining is skipped,
    whether or not it depends on a failed worker.  When the failed
    workers of the round come first in its ready list (a round of one
    worker, or one in which every worker fails, for instance), fail-fast
    is triggered exactly when some worker still remaining names a failed
    worker of the round in its own [dependsOn]. *)
Theorem parallel_round_fail_fast (W : World) (goal : string)
    (plan : OrchestratorPlan) (ps : ParState) (ready : list WorkerTask) :
  failFastTriggered (ps_exec ps) = false →
  let batch := batchOf W goal plan ps ready in
  let ps' := runRound W goal plan ps ready in
  (failFastTriggered (ps_exec ps') = true →
   (∃ r, r ∈ batch ∧ failed r)
   ∧ ∀ fuel, parallelLoop W goal plan fuel ps' = Some (Interrupted, ps'))
  ∧ (failuresFirst batch →
     failFastTriggered (ps_exec ps') = true ↔
     ∃ w r, w ∈ pl_workers plan ∧ wt_id w ∈ remaining ps'
            ∧ r ∈ batch ∧ failed r ∧ wt_id (run_task r) ∈ deps w).
Proof.
  intros Hflag batch ps'.
  pose proof (runRound_flag W goal plan ps ready Hflag) as Hiff.
  cbn zeta in Hiff. fold batch ps' in Hiff.
  split.
  - intros Hup. apply Hiff in Hup as [Hfail Hblocked]. split.
    + by apply batchHadFailure_true.
    + intros fuel. apply parallelLoop_interrupted; [by apply Hiff|].
      apply blockedWorkers_nonempty in Hblocked as (w & _ & _ & Hrem & _).
      set_solver.
  - intros (bad & good & Hbatch & Hbad & Hgood).
    assert (Hready : ready = map run_task (bad ++ good)).
    { rewrite <- Hbatch. unfold batch, batchOf. by rewrite runAll_tasks. }
    assert (Hids : failedIds ready (map run_result batch) = idsOf bad).
    { rewrite Hready, Hbatch. by apply failedIds_failuresFirst. }
    rewrite Hiff, Hids, blockedWorkers_nonempty, batchHadFailure_true.
    split.
    + intros [_ (w & d & Hw & Hrem & Hd & Hfailed)].
      apply elem_of_list_to_set, list_elem_of_In, in_map_iff in Hfailed
        as (r & <- & Hr).
      apply list_elem_of_In in Hr.
      exists w, r. split_and!; [done | done | | | done].
      * rewrite Hbatch. apply elem_of_app. by left.
      * rewrite Forall_forall in Hbad. by apply Hbad.
    + intros (w & r & Hw & Hrem & Hr & Hfail & Hdep). split; [by exists r|].
      exists w, (wt_id (run_task r)). split_and!; [done | done | done |].
      apply elem_of_list_to_set, list_elem_of_In, in_map_iff.
      exists r. split; [done|]. apply list_elem_of_In.
      rewrite Hbatch in Hr. apply elem_of_app in Hr as [Hr|Hr]; [done|].
      rewrite Forall_forall in Hgood. specialize (Hgood r Hr).
      unfold succeeded, failed in *. congruence.
Qed.

Lemma parallel_round_fail_fast_witness :
  let W := world twoChains (failingOn ["A"] "compile error") in
  let ps := initialPar twoChains in
  let ready := readyWorkers twoChains ps in
  let batch := batchOf W "fix the build" twoChains ps ready in
  let ps' := runRound W "fix the build" twoChains ps ready in
  (failFastTriggered (ps_exec ps') = true →
   (∃ r, r ∈ batch ∧ failed r)
   ∧ ∀ fuel, parallelLoop W "fix the build" twoChains fuel ps'
             = Some (Interrupted, ps'))
  ∧ (failuresFirst batch →
     failFastTriggered (ps_exec ps') = true ↔
     ∃ w r, w ∈ pl_workers twoChains ∧ wt_id w ∈ remaining ps'
            ∧ r ∈ batch ∧ failed r ∧ wt_id (run_task r) ∈ deps w).
Proof.
  intros W ps ready batch ps'.
  apply (parallel_round_fail_fast W "fix the build" twoChains ps ready).
  reflexivity.
Defined.

(** C6 (as stated) fails: in the plan [A, B after A, C, D after C] the
    first round runs A and C; A fails, C succeeds; fail-fast stops the
    loop and D, which depends on C only, is skipped. *)
Lemma parallel_failfast_skips_exactly_dependents_refuted :
  ¬ parallel_failfast_skips_exactly_dependents.
Proof.
  intros H.
  pose (W := world twoChains (failingOn ["A"] "compile error")).
  pose (st := theState (scheduled W request)).
  destruct (H W request twoChains st) as [_ Hall];
    [reflexivity | reflexivity | reflexivity | done
    | vm_compute; reflexivity |].
  destruct (Hall (worker "D" ["C"])) as [Hdep _].
  - apply (bool_decide_unpack _). by vm_compute.
  - assert (Hskipped : worker "D" ["C"] ∉ map run_task (runs st)).
    { apply (bool_decide_unpack _). by vm_compute. }
    specialize (Hdep Hskipped). vm_compute in Hdep. discriminate Hdep.
Qed.

(** The same run, evaluated. *)
Example twoChains_first_fails :
  let W := world twoChains (failingOn ["A"] "compile error") in
  let s := theSummary (execute W request) in
  map wr_taskId (os_workerResults s) = ["A"; "C"]
  ∧ map wr_success (os_workerResults s) = [false; true]
  ∧ failFastTriggered (theState (scheduled W request)) = true.
Proof. vm_compute. done. Qed.

(** A round in which the failed worker is not the first of the ready
    list: of [A, B, C after B], A succeeds and B fails; [failedIds] is
    computed as the id of A, no worker is found blocked, and C is run in
    the next round although B failed. *)
Example failed_worker_not_first :
  let plan := parallelPlan [worker "A" []; worker "B" []; worker "C" ["B"]] in
  let W := world plan (failingOn ["B"] "compile error") in
  let st := theState (scheduled W request) in
  map wr_taskId (workerResults st) = ["A"; "B"; "C"]
  ∧ map wr_success (workerResults st) = [true; false; true]
  ∧ failFastTriggered st = false.
Proof. vm_compute. done. Qed.

(** C7 (what the code does).  In parallel mode, when a round finds no
    ready worker while [remaining] is non-empty, the loop just stops and
    the run goes on as if it had completed: no flag is raised (the
    fail-fast flag stays down), the workers still remaining have no
    entry in [workerResults], and [execute] returns a Summary whose
    [overallSuccess] is computed from the workers that did run.  The
    summary prompt is built from these results alone and with the
    fail-fast note left out: it opens with "All workers have completed.
    Here are the results:", and unless the orchestration timer has fired
    it is, line for line, the prompt of a run in which nothing was
    skipped. *)
Theorem parallel_deadlock (W : World) (req : WorkRequest)
    (plan : OrchestratorPlan) (ps : ParState) :
  executedPlan W = Some plan →
  pl_sequential plan = false →
  parallelRun W (wq_task req) plan = Some (Deadlock, ps) →
  remaining ps ≠ ∅
  ∧ readyWorkers plan ps = []
  ∧ failFastTriggered (ps_exec ps) = false
  ∧ (∀ r, r ∈ runs (ps_exec ps) → wt_id (run_task r) ∉ remaining ps)
  ∧ ∃ planResult s,
      planningCall W = inr planResult
      ∧ execute W req = Returned s
      ∧ os_workerResults s = map run_result (runs (ps_exec ps))
      ∧ os_overallSuccess s = overallSuccessOf (os_workerResults s)
      ∧ let si := summaryInput W (cr_costUsd planResult) (ps_exec ps) in
        summaryCall W (cr_costUsd planResult) (ps_exec ps)
        = invokeClaude (parseClaudeOutput W) None
            (fun _ => summaryProc W (summaryPrompt W si))
        ∧ si_workerResults si = os_workerResults s
        ∧ si_failFastTriggered si = false
        ∧ String.prefix "All workers have completed. Here are the results:"
            (summaryPrompt W si) = true
        ∧ (si_orchTimedOut si = false →
           summaryPrompt W si
           = join nl
               ([ "All workers have completed. Here are the results:"; "" ]
                ++ map workerBlock (os_workerResults s)
                ++ [ ""; ""; ""; "";
                     "Total cost so far: $"
                       +:+ toFixed4 W (si_totalCostUsd si);
                     "";
                     "Provide a concise summary of what was accomplished, any failures, and any follow-up needed.";
                     "Respond in plain text (not JSON)." ])).
Proof.
  intros Hplan Hpar Hrun.
  pose proof (parallelLoop_stop W (wq_task req) plan _ _ _ _ Hrun) as Hstep.
  assert (Hinv : ParInv (wq_task req) plan ps).
  { eapply parallelLoop_inv; [apply initialPar_inv | exact Hrun]. }
  destruct Hinv as (Hcore & _ & _).
  destruct (execute_parallel W req plan Deadlock ps Hplan Hpar Hrun
              ltac:(done))
    as (_ & planResult & Hcall & Hexec).
  destruct (summarize_results W (cr_costUsd planResult) (ps_exec ps))
    as [Hsr Hso].
  revert Hstep. unfold parallelStep, interrupted.
  destruct (bool_decide (size (remaining ps) = 0)) eqn:Hsize; [discriminate|].
  destruct (signalAborted W _); [discriminate|].
  destruct (failFastTriggered (ps_exec ps)) eqn:Hflag; [discriminate|].
  destruct (readyThrows plan ps); [discriminate|].
  destruct (readyWorkers plan ps) eqn:Hready; [|discriminate]. intros _.
  split_and!; [ | done | done | apply Hcore | ].
  - intros Hempty. apply bool_decide_eq_false in Hsize. apply Hsize.
    rewrite Hempty. apply size_empty.
  - exists planResult, (summarize W (cr_costUsd planResult) (ps_exec ps)).
    split; [done|]. split; [done|].
    split; [rewrite Hsr; apply Hcore|].
    split; [by rewrite Hso, Hsr|].
    cbn zeta. split; [done|]. split; [by rewrite Hsr|].
    split; [done|]. split; [done|].
    intros Hto. unfold summaryPrompt.
    rewrite Hto. cbn [summaryInput si_failFastTriggered si_workerResults].
    by rewrite Hflag, Hsr.
Qed.

Lemma parallel_deadlock_witness :
  let W := world danglingDependency (failingOn [] "") in
  let ps := match parallelRun W "fix the build" danglingDependency with
            | Some (_, ps) => ps
            | None => initialPar danglingDependency
            end in
  remaining ps ≠ ∅
  ∧ readyWorkers danglingDependency ps = []
  ∧ failFastTriggered (ps_exec ps) = false
  ∧ (∀ r, r ∈ runs (ps_exec ps) → wt_id (run_task r) ∉ remaining ps)
  ∧ ∃ planResult s,
      planningCall W = inr planResult
      ∧ execute W request = Returned s
      ∧ os_workerResults s = map run_result (runs (ps_exec ps))
      ∧ os_overallSuccess s = overallSuccessOf (os_workerResults s)
      ∧ let si := summaryInput W (cr_costUsd planResult) (ps_exec ps) in
        summaryCall W (cr_costUsd planResult) (ps_exec ps)
        = invokeClaude (parseClaudeOutput W) None
            (fun _ => summaryProc W (summaryPrompt W si))
        ∧ si_workerResults si = os_workerResults s
        ∧ si_failFastTriggered si = false
        ∧ String.prefix "All workers have completed. Here are the results:"
            (summaryPrompt W si) = true
        ∧ (si_orchTimedOut si = false →
           summaryPrompt W si
           = join nl
               ([ "All workers have completed. Here are the results:"; "" ]
                ++ map workerBlock (os_workerResults s)
                ++ [ ""; ""; ""; "";
                     "Total cost so far: $"
                       +:+ toFixed4 W (si_totalCostUsd si);
                     "";
                     "Provide a concise summary of what was accomplished, any failures, and any follow-up needed.";
                     "Respond in plain text (not JSON)." ])).
Proof.
  intros W ps.
  apply (parallel_deadlock W request danglingDependency ps);
    [reflexivity | reflexivity | vm_compute; reflexivity].
Defined.

(** The run of the plan [A, B after Z], evaluated: A succeeds, the next
    round finds nothing ready, and the run returns a Summary with
    [overallSuccess = true] that holds the result of A only; no status
    update tells of a skipped worker, and the summary prompt does not
    mention B. *)
Example deadlock_run :
  let W := world danglingDependency (failingOn [] "") in
  let st := theState (scheduled W request) in
  let s := theSummary (execute W request) in
  os_overallSuccess s = true
  ∧ map wr_taskId (os_workerResults s) = ["A"]
  ∧ fx_status (fx st) = [SU_PlanBreakdown 2; SU_WorkerComplete true 1 2]
  ∧ summaryPrompt W (summaryInput W (Some 10%Z) st)
    = join nl
        [ "All workers have completed. Here are the results:"; "";
          "--- Worker: A ---"; "Success: true"; "Duration: 2s";
          "Result: done"; ""; ""; ""; ""; "";
          "Total cost so far: $13"; "";
          "Provide a concise summary of what was accomplished, any failures, and any follow-up needed.";
          "Respond in plain text (not JSON)." ].
Proof. vm_compute. done. Qed.

(** The sibling early stop, by contrast, tells the summarizer: after a
    fail-fast stop the prompt holds the note about skipped workers. *)
Example fail_fast_run_has_note :
  let W := world twoChains (failingOn ["A"] "compile error") in
  let st := theState (scheduled W request) in
  failFastTriggered st = true
  ∧ includes (summaryPrompt W (summaryInput W (Some 10%Z) st))
      "NOTE: Remaining workers were skipped due to a prior worker failure (fail-fast)."
    = true.
Proof. vm_compute. done. Qed.

(** Deadlock is not fatal: in the plan [A, B after Z] worker A succeeds,
    the next round finds nothing ready, and the run returns a Summary
    with [overallSuccess = true]. *)
Lemma deadlock_is_fatal_refuted : ¬ deadlock_is_fatal.
Proof.
  intros H.
  pose (W := world danglingDependency (failingOn [] "")).
  pose (ps := match parallelRun W "fix the build" danglingDependency with
              | Some (_, ps) => ps
              | None => initialPar danglingDependency
              end).
  specialize (H W request danglingDependency ps eq_refl eq_refl).
  specialize (H ltac:(vm_compute; reflexivity)).
  vm_compute in H. discriminate H.
Qed.

End ParallelFacts.

(** ** Chat-reply parsing *)

Module ChatFacts.
Import ChatAgent Spec Samples.

(** The leftmost occurrence of a tag that does not occur in [u] is the
    one right after [u]. *)
Lemma cut_first (pat u rest : string) :
  isTag pat →
  includes u pat = false →
  cut pat (u +:+ pat +:+ rest) = Some (u, rest).
Proof.
  intros (q & -> & Hq). induction u as [|c u IH]; intros Hu.
  - rewrite sapp_nil_l, cut_unfold, prefix_app.
    by rewrite sliceFrom_app.
  - cbn [includes] in Hu. apply orb_false_iff in Hu as [Hhere Hu].
    rewrite sapp_cons, cut_unfold.
    assert (Hno : String.prefix (String "<"%char q)
                    (String c (u +:+ String "<"%char q +:+ rest)) = false).
    { apply not_true_is_false. intros H.
      rewrite prefix_cons in H. apply andb_true_iff in H as [Hc H].
      rewrite sapp_cons in H. apply prefix_no_straddle in H; [|done].
      rewrite prefix_cons, Hc, H in Hhere. discriminate Hhere. }
    rewrite Hno. by rewrite (IH Hu).
Qed.

Lemma tags_are_tags :
  isTag ACTION_OPEN ∧ isTag ACTION_CLOSE
  ∧ isTag MEMORY_OPEN ∧ isTag MEMORY_CLOSE.
Proof. split_and!; eexists; split; reflexivity. Qed.

Lemma regexMatch_first (open close u body rest : string) :
  isTag open → isTag close →
  includes u open = false →
  includes body close = false →
  regexMatch open close (u +:+ open +:+ body +:+ close +:+ rest)
  = Some (u, body, rest).
Proof.
  intros Hopen Hclose Hu Hbody. unfold regexMatch.
  rewrite (cut_first open u _ Hopen Hu).
  by rewrite (cut_first close body rest Hclose Hbody).
Qed.

Lemma regexMatch_absent (open close s : string) :
  includes s open = false → regexMatch open close s = None.
Proof. intros H. unfold regexMatch. by rewrite cut_absent. Qed.





Lemma isWorkRequest_not_null (obj : json) :
  isWorkRequest obj = true → obj ≠ JNull.
Proof. by intros H ->. Qed.



(** The reply of the witness, evaluated. *)
Example chat_reply_with_action_and_memory :
  let r := parseChatResponse parseRequestOnly
             ("On it. " +:+ actionBlock (" " +:+ requestText +:+ " ")
                +:+ " <TIFFBOT_MEMORY>the build is red</TIFFBOT_MEMORY>") in
  chatText r = "On it."
  ∧ action r = Some requestObject
  ∧ memoryNote r = Some "the build is red".
Proof. vm_compute. done. Qed.

Example chat_reply_with_only_an_action :
  chatText (parseChatResponse parseRequestOnly (actionBlock requestText))
  = "Working on it...".
Proof. vm_compute. done. Qed.


End ChatFacts.

(** * Further properties of the code *)

(** ** Substrings *)

Module SubstringFacts.

Lemma prefix_spec (p s : string) :
  String.prefix p s = true ↔ ∃ b, s = p +:+ b.
Proof.
  split.
  - revert s. induction p as [|c p IH]; intros s H; [by exists s|].
    destruct s as [|d s]; [discriminate|].
    rewrite prefix_cons in H. apply andb_true_iff in H as [Hc H].
    apply bool_decide_eq_true in Hc as ->.
    destruct (IH s H) as [b ->]. by exists b.
  - intros [b ->]. apply prefix_app.
Qed.

Lemma includes_spec (s p : string) :
  includes s p = true ↔ ∃ a b, s = a +:+ p +:+ b.
Proof.
  split.
  - induction s as [|c s IH]; cbn [includes]; intros H.
    + rewrite orb_false_r in H. apply prefix_spec in H as [b ->].
      by exists "", b.
    + apply orb_true_iff in H as [H|H].
      * apply prefix_spec in H as [b ->]. by exists "", b.
      * destruct (IH H) as (a & b & ->). exists (String c a), b.
        by rewrite sapp_cons.
  - intros (a & b & ->). apply includes_app_mid.
Qed.

Lemma includes_trans (s p q : string) :
  includes s p = true → includes p q = true → includes s q = true.
Proof.
  rewrite !includes_spec. intros (a & b & ->) (a' & b' & ->).
  exists (a +:+ a'), (b' +:+ b). by rewrite !sapp_assoc.
Qed.

Lemma toLowerCase_split (a b s : string) :
  toLowerCase s = a +:+ b →
  ∃ a' b', s = a' +:+ b' ∧ toLowerCase a' = a ∧ toLowerCase b' = b.
Proof.
  revert s. induction a as [|c a IH]; intros s H.
  - by exists "", s.
  - destruct s as [|d s]; [discriminate|].
    rewrite sapp_cons in H. cbn [toLowerCase] in H.
    injection H as Hc H. destruct (IH s H) as (a' & b' & -> & Ha & Hb).
    exists (String d a'), b'. split_and!; [done| |done].
    cbn [toLowerCase]. by rewrite Hc, Ha.
Qed.

End SubstringFacts.
Import SubstringFacts.

(** ** More on the automatic retry *)

Module RetryMoreFacts.
Import Orchestrator Spec Samples RetryFacts.

Lemma includes_ciSubstring (p s : string) :
  includes (toLowerCase s) (toLowerCase p) = true → ciSubstring p s.
Proof.
  intros H. apply includes_spec in H as (a & b & H).
  apply toLowerCase_split in H as (a' & rest & -> & _ & H).
  apply toLowerCase_split in H as (m & b' & -> & Hm & _).
  by exists a', m, b'.
Qed.

(** X1.  [isTransientError] accepts exactly the texts that contain one of
    the eleven patterns as a substring, up to letter case. *)
Theorem isTransientError_iff (s : string) :
  isTransientError s = true ↔ matchesTransientPattern s.
Proof.
  split; [|apply matchesTransientPattern_sound].
  unfold isTransientError. intros H.
  apply existsb_exists in H as (p & Hp & H).
  exists p. split; [by apply list_elem_of_In | by apply includes_ciSubstring].
Qed.

(** X2.  A worker whose promise rejects after its own controller was
    aborted (kill command, per-worker timer or stall kill) while the
    orchestration signal is not aborted is not retried: the worker agent
    is called once and the result is the failure "Worker killed by
    user". *)
Theorem killed_worker_not_retried (W : World) (task : WorkerTask) (n : nat)
    (e : Effects) (message : option string) :
  let a := workerAgent W (length (fx_attempts e)) task in
  at_settled a = Rejected message →
  workerAborted a = true →
  at_orchAborted a = false →
  fx_attempts (executeWithRetry W task n e).2 = fx_attempts e ++ [task]
  ∧ wr_success (executeWithRetry W task n e).1 = false
  ∧ wr_result (executeWithRetry W task n e).1 = "Worker killed by user".
Proof.
  intros a Hrej Hab Horch.
  assert (Hfirst : settle task a
                   = {| wr_taskId := wt_id task; wr_success := false;
                        wr_result := "Worker killed by user";
                        wr_costUsd := None;
                        wr_duration := Some (at_elapsed a) |}).
  { unfold settle. by rewrite Hrej, Hab, Horch. }
  destruct (executeWithRetry_once W task n e) as [Hlog Hres].
  - fold a. by rewrite Hfirst.
  - fold a in Hres. by rewrite Hlog, Hres, Hfirst.
Qed.

Lemma killed_worker_not_retried_witness :
  let W := world (sequentialPlan [])
             (fun _ _ => killedAttempt (Some "Cancelled") 4000) in
  let task := worker "W1" [] in
  fx_attempts (executeWithRetry W task 1 noEffects).2 = [task]
  ∧ wr_success (executeWithRetry W task 1 noEffects).1 = false
  ∧ wr_result (executeWithRetry W task 1 noEffects).1
    = "Worker killed by user".
Proof.
  intros W task.
  apply (killed_worker_not_retried W task 1 noEffects (Some "Cancelled"));
    reflexivity.
Defined.

(** X3.  A worker whose promise rejects with a message containing "timed
    out" (the invoker's call timeout), and that was not killed on its
    own, is reported as "Worker timed out after 5m"; this text is itself
    a transient error, so the worker is run a second time under the id
    [<id>-retry] and the retry's result is the one kept. *)
Theorem timed_out_worker_retried (W : World) (task : WorkerTask) (n : nat)
    (e : Effects) (m : string) :
  let k := length (fx_attempts e) in
  let a := workerAgent W k task in
  at_settled a = Rejected (Some m) →
  includes m "timed out" = true →
  workerAborted a && negb (at_orchAborted a) = false →
  wr_result (settle task a) = "Worker timed out after 5m"
  ∧ fx_attempts (executeWithRetry W task n e).2
    = fx_attempts e ++ [task; retryTaskOf task]
  ∧ (executeWithRetry W task n e).1
    = settle (retryTaskOf task) (workerAgent W (S k) (retryTaskOf task)).
Proof.
  intros k a Hrej Hm Hkill.
  assert (Hfirst : settle task a
                   = {| wr_taskId := wt_id task; wr_success := false;
                        wr_result := "Worker timed out after 5m";
                        wr_costUsd := None;
                        wr_duration := Some (at_elapsed a) |}).
  { unfold settle. by rewrite Hrej, Hkill, Hm. }
  split; [by rewrite Hfirst|].
  apply (executeWithRetry_twice W task n e). fold k a. by rewrite Hfirst.
Qed.

Lemma timed_out_worker_retried_witness :
  let W := world (sequentialPlan [])
             (fun n t =>
                match n with
                | O => quiet (Rejected
                                (Some "Claude CLI timed out after 120000ms"))
                | _ => quiet (Resolved (okResult (wt_id t) "done" 3))
                end) in
  let task := worker "W1" [] in
  wr_result (settle task (workerAgent W 0 task)) = "Worker timed out after 5m"
  ∧ fx_attempts (executeWithRetry W task 1 noEffects).2
    = [task; retryTaskOf task]
  ∧ (executeWithRetry W task 1 noEffects).1
    = settle (retryTaskOf task) (workerAgent W 1 (retryTaskOf task)).
Proof.
  intros W task.
  apply (timed_out_worker_retried W task 1 noEffects
           "Claude CLI timed out after 120000ms"); reflexivity.
Defined.

End RetryMoreFacts.

(** ** More on sequential mode *)

Module SequentialMoreFacts.
Import Orchestrator Spec Samples Notions SummaryFacts SequentialFacts.

Lemma seesAllPrior_snoc (goal : string) (plan : OrchestratorPlan)
    (rs : list Run) (r : Run) :
  seesAllPrior goal plan rs →
  run_number r = S (length rs) →
  run_prior r = map run_result rs →
  run_prompt r
    = augmentedPrompt goal plan (run_task r) (S (length rs)) (run_prior r) →
  seesAllPrior goal plan (rs ++ [r]).
Proof.
  intros Hold Hn Hprior Hprompt i r' Hi.
  apply lookup_app_Some in Hi as [Hi|[Hlen Hi]].
  - destruct (Hold i r' Hi) as (H1 & H2 & H3).
    split_and!; [done| |done].
    rewrite take_app_le; [done|].
    apply lookup_lt_Some in Hi. lia.
  - destruct (length rs - i) eqn:E.
    + assert (i = length rs) as -> by (apply lookup_lt_Some in Hi; simpl in Hi; lia).
      rewrite Nat.sub_diag in Hi. injection Hi as <-.
      by rewrite take_app_length.
    + assert (i = length rs) as -> by (apply lookup_lt_Some in Hi; simpl in Hi; lia).
      lia.
Qed.

Lemma sequentialLoop_ctx (W : World) (goal : string)
    (plan : OrchestratorPlan) (ws : list WorkerTask) :
  ∀ (idx : nat) (st : ExecState),
    idx = length (runs st) →
    workerResults st = map run_result (runs st) →
    seesAllPrior goal plan (runs st) →
    seesAllPrior goal plan (runs (sequentialLoop W goal plan ws idx st)).
Proof.
  induction ws as [|task rest IH]; intros idx st Hidx Hres Hctx;
    cbn [sequentialLoop]; [done|].
  destruct (interrupted W st); [done|].
  destruct (executeWithRetry W _ _ _) as [result e1].
  apply IH.
  - destruct (wr_success result); cbn; rewrite length_app; simpl; lia.
  - destruct (wr_success result); cbn; by rewrite map_app, Hres.
  - assert (Hnew : seesAllPrior goal plan
             (runs st ++
              [{| run_task := task; run_number := idx + 1;
                  run_prior := workerResults st;
                  run_prompt :=
                    augmentedPrompt goal plan task (idx + 1) (workerResults st);
                  run_result := result |}])).
    { apply seesAllPrior_snoc; cbn; [done | lia | done |].
      by rewrite Hidx, Nat.add_1_r. }
    by destruct (wr_success result).
Qed.

Lemma sequentialLoop_complete (W : World) (goal : string)
    (plan : OrchestratorPlan) (ws : list WorkerTask) :
  neverAborted W →
  ∀ (idx : nat) (st : ExecState),
    let st' := sequentialLoop W goal plan ws idx st in
    failFastTriggered st' = true
    ∨ map run_task (runs st') = map run_task (runs st) ++ ws.
Proof.
  intros Hnever. induction ws as [|task rest IH]; intros idx st;
    cbn [sequentialLoop]; cbn zeta.
  - right. by rewrite app_nil_r.
  - unfold interrupted. rewrite Hnever. cbn [orb].
    destruct (failFastTriggered st) eqn:Hff; [by left|].
    destruct (executeWithRetry W _ _ _) as [result e1].
    match goal with
    | |- context [sequentialLoop W goal plan rest (S idx) ?s] =>
        destruct (IH (S idx) s) as [H|H]; [by left|]; right; rewrite H
    end.
    destruct (wr_success result); cbn; by rewrite map_app, <- app_assoc.
Qed.

(** X5.  In sequential mode, when the signal is never aborted, a Summary
    with [overallSuccess = true] means that every worker of the plan ran,
    in plan order, and succeeded. *)
Theorem sequential_success_means_all_ran (W : World) (req : WorkRequest)
    (plan : OrchestratorPlan) (s : OrchestratorSummary) :
  executedPlan W = Some plan →
  pl_sequential plan = true →
  neverAborted W →
  execute W req = Returned s →
  os_overallSuccess s = true →
  ∃ st, scheduled W req = Some st
        ∧ map run_task (runs st) = pl_workers plan
        ∧ os_workerResults s = map run_result (runs st)
        ∧ Forall succeeded (os_workerResults s).
Proof.
  intros Hplan Hseq Hnever Hexec Hok.
  destruct (execute_returned W req s Hexec) as (planResult & _ & Hcase).
  destruct Hcase as [(message & _ & _ & _ & Hfalse & _)
                    |(plan' & st & Hplan' & Hsched & ->)]; [congruence|].
  rewrite Hplan in Hplan'. injection Hplan' as <-.
  destruct (summarize_results W (cr_costUsd planResult) st) as [Hsr Hso].
  rewrite Hso in Hok. apply overallSuccessOf_true in Hok as [_ Hall].
  assert (Hst : st = sequentialLoop W (wq_task req) plan (pl_workers plan) 0
                       (initialExec plan)).
  { unfold scheduled, executeWorkers in Hsched.
    rewrite Hplan, Hseq in Hsched. by injection Hsched as <-. }
  destruct (sequentialLoop_inv W (wq_task req) plan (pl_workers plan) 0
              (initialExec plan) [] (initialExec_inv plan))
    as (done & [_ Hres _ Hfail] & _).
  rewrite <- Hst in Hres, Hfail.
  exists st. split_and!; [done | | by rewrite Hsr | by rewrite Hsr].
  destruct (sequentialLoop_complete W (wq_task req) plan (pl_workers plan)
              Hnever 0 (initialExec plan)) as [Hff|Hall'];
    cbn zeta in *; rewrite <- Hst in *.
  - rewrite Hff in Hfail. destruct Hfail as (init & last & Heq & _ & Hlast).
    rewrite Heq in Hall. apply Forall_app in Hall as [_ Hall].
    rewrite Forall_singleton in Hall. unfold succeeded in Hall. congruence.
  - exact Hall'.
Qed.

Lemma sequential_success_means_all_ran_witness :
  let plan := sequentialPlan [worker "W1" []; worker "W2" []] in
  let W := world plan flakyOnce in
  let s := theSummary (execute W request) in
  ∃ st, scheduled W request = Some st
        ∧ map run_task (runs st) = pl_workers plan
        ∧ os_workerResults s = map run_result (runs st)
        ∧ Forall succeeded (os_workerResults s).
Proof.
  intros plan W s.
  apply (sequential_success_means_all_ran W request plan s);
    [reflexivity | reflexivity | intros n; reflexivity | reflexivity
    | reflexivity].
Defined.

End SequentialMoreFacts.

(** ** More on parallel mode *)

Module ParallelMoreFacts.
Import Orchestrator Spec Samples Notions SummaryFacts ParallelFacts.

Section Book.

Variable W : World.
Variable goal : string.
Variable plan : OrchestratorPlan.

Lemma idsOf_app (rs batch : list Run) :
  idsOf (rs ++ batch) = idsOf rs ∪ idsOf batch.
Proof. unfold idsOf. rewrite map_app. set_solver. Qed.

Lemma idsOf_batch (ps : ParState) (ready : list WorkerTask) :
  idsOf (batchOf W goal plan ps ready) = list_to_set (map wt_id ready).
Proof.
  unfold idsOf, batchOf.
  by rewrite <- (map_map run_task wt_id), runAll_tasks.
Qed.

Lemma length_batch (ps : ParState) (ready : list WorkerTask) :
  length (batchOf W goal plan ps ready) = length ready.
Proof.
  unfold batchOf.
  rewrite <- (runAll_tasks W goal plan ps ready (fx (ps_exec ps))) at 2.
  by rewrite length_map.
Qed.

(** Counting the entries of [l] that leave [remaining] in a round. *)
Lemma pending_count (ps : ParState) (ids : gset string)
    (l : list WorkerTask) :
  (∀ w, w ∈ l → isReady ps w = true → wt_id w ∈ ids) →
  (length (List.filter
             (fun w => bool_decide (wt_id w ∈ remaining ps ∖ ids)) l)
   + length (List.filter (isReady ps) l)
   ≤ length (List.filter (fun w => bool_decide (wt_id w ∈ remaining ps)) l))%nat.
Proof.
  induction l as [|w l IH]; intros Hids; [done|].
  assert (IH' := IH (λ w' Hw', Hids w' (list_elem_of_further _ _ _ Hw'))).
  cbn [List.filter].
  destruct (isReady ps w) eqn:Hready.
  - pose proof (Hids w (list_elem_of_here _ _) Hready) as Hin.
    apply isReady_true in Hready as [Hrem _].
    rewrite (bool_decide_eq_true_2 _ Hrem).
    rewrite bool_decide_eq_false_2 by set_solver.
    cbn [length]. lia.
  - destruct (bool_decide (wt_id w ∈ remaining ps ∖ ids)) eqn:Hd.
    + apply bool_decide_eq_true in Hd.
      rewrite bool_decide_eq_true_2 by set_solver. cbn [length]. lia.
    + destruct (bool_decide (wt_id w ∈ remaining ps)); cbn [length]; lia.
Qed.

Lemma ParBook_runRound (ps : ParState) :
  ParCore ps → ParBook plan ps →
  ParBook plan (runRound W goal plan ps (readyWorkers plan ps)).
Proof.
  intros Hcore [Hrem Hcompl Hcount].
  destruct (runRound_fields W goal plan ps (readyWorkers plan ps))
    as (Eruns & _ & Erem & Ecompl & _).
  destruct (recordedOf_spec W goal plan ps (readyWorkers plan ps) Hcore)
    as (_ & Hruns & Hrem' & Hcompl' & _).
  split.
  - rewrite Erem, Ecompl, Hrem', Hcompl', Hrem. set_solver.
  - rewrite Ecompl, Eruns, Hcompl', Hruns, Hcompl. by rewrite idsOf_app.
  - rewrite Eruns, Hruns, length_app, length_batch.
    unfold pending in *. rewrite Erem, Hrem', idsOf_batch.
    pose proof (pending_count ps
                  (list_to_set (map wt_id (readyWorkers plan ps)))
                  (pl_workers plan)) as Hle.
    fold (readyWorkers plan ps) in Hle.
    assert (Hids : ∀ w, w ∈ pl_workers plan → isReady ps w = true →
                        wt_id w ∈ (list_to_set
                                     (map wt_id (readyWorkers plan ps))
                                   : gset string)).
    { intros w Hw Hready. apply elem_of_list_to_set, list_elem_of_In, in_map.
      apply filter_In. split; [by apply list_elem_of_In | done]. }
    specialize (Hle Hids). unfold readyWorkers in *. lia.
Qed.

Lemma initialPar_book : ParBook plan (initialPar plan).
Proof.
  split; cbn.
  - set_solver.
  - done.
  - unfold pending. cbn. apply List.filter_length_le.
Qed.

Lemma parallelLoop_book (fuel : nat) :
  ∀ ps reason ps',
    ParCore ps → ParBook plan ps →
    parallelLoop W goal plan fuel ps = Some (reason, ps') →
    ParBook plan ps'.
Proof.
  induction fuel as [|fuel IH]; intros ps reason ps' Hcore Hbook;
    cbn [parallelLoop];
    destruct (parallelStep W goal plan ps) as [[reason0 ps0]|next] eqn:E;
    intros H; try discriminate.
  - injection H as <- <-. by rewrite (stopped_state _ _ _ _ _ _ E).
  - injection H as <- <-. by rewrite (stopped_state _ _ _ _ _ _ E).
  - apply parallelStep_inr in E as [-> _].
    eapply IH; [| |exact H];
      [by apply ParCore_runRound | by apply ParBook_runRound].
Qed.

(** Where the parallel loop stops, the bookkeeping holds. *)
Lemma parallelRun_book (reason : StopReason) (ps : ParState) :
  parallelRun W goal plan = Some (reason, ps) →
  ParCore ps ∧ ParBook plan ps
  ∧ parallelStep W goal plan ps = inl (reason, ps).
Proof.
  intros Hrun. split_and!.
  - assert (Hinv : ParInv goal plan ps).
    { eapply parallelLoop_inv; [apply initialPar_inv | exact Hrun]. }
    apply Hinv.
  - eapply parallelLoop_book; [| |exact Hrun].
    + exact (proj1 (initialPar_inv goal plan)).
    + apply initialPar_book.
  - by eapply parallelLoop_stop.
Qed.

(** With dependencies that point back, some entry is ready as long as
    some entry remains: the first one of the plan that remains. *)
Lemma first_remaining_ready (ps : ParState) (ws : list WorkerTask) :
  ∀ seen,
    depsPointBackFrom seen ws = true →
    (∀ d, d ∈ seen → d ∈ completed ps) →
    (∀ w, w ∈ ws → wt_id w ∈ remaining ps ∨ wt_id w ∈ completed ps) →
    (∃ w, w ∈ ws ∧ wt_id w ∈ remaining ps) →
    ∃ w, w ∈ ws ∧ isReady ps w = true.
Proof.
  induction ws as [|w rest IH]; intros seen Hback Hseen Hpart (x & Hx & Hrem).
  - by apply elem_of_nil in Hx.
  - cbn [depsPointBackFrom] in Hback.
    apply andb_true_iff in Hback as [Hdeps Hback].
    destruct (decide (wt_id w ∈ remaining ps)) as [Hw|Hw].
    + exists w. split; [by left|]. apply isReady_true. split; [done|].
      intros d Hd. apply Hseen.
      rewrite forallb_forall in Hdeps.
      specialize (Hdeps d (proj1 (list_elem_of_In _ _) Hd)).
      by apply bool_decide_eq_true in Hdeps.
    + destruct (IH (seen ++ [wt_id w]) Hback) as (w' & Hw' & Hready).
      * intros d Hd. apply elem_of_app in Hd as [Hd|Hd]; [by apply Hseen|].
        apply list_elem_of_singleton in Hd as ->.
        destruct (Hpart w (list_elem_of_here _ _)); [done|done].
      * intros w' Hw'. apply Hpart. by right.
      * apply elem_of_cons in Hx as [->|Hx]; [done|]. by exists x.
      * exists w'. split; [by right | done].
Qed.

Lemma no_deadlock_step (ps : ParState) :
  depsPointBack plan = true →
  ParBook plan ps →
  size (remaining ps) ≠ 0 →
  readyWorkers plan ps ≠ [].
Proof.
  intros Hback [Hrem _ _] Hsize Hnil.
  assert (∃ x, x ∈ remaining ps) as [x Hx].
  { apply size_pos_elem_of. lia. }
  assert (∃ w, w ∈ pl_workers plan ∧ wt_id w ∈ remaining ps) as Hex.
  { pose proof Hx as Hx'. rewrite Hrem in Hx'.
    apply elem_of_difference in Hx' as [Hx' _].
    apply elem_of_list_to_set, list_elem_of_In, in_map_iff in Hx'
      as (w & <- & Hw).
    exists w. split; [by apply list_elem_of_In | done]. }
  destruct (first_remaining_ready ps (pl_workers plan) [] Hback)
    as (w & Hw & Hready); [by intros d Hd; apply elem_of_nil in Hd | | done |].
  - intros w Hw. destruct (decide (wt_id w ∈ completed ps)); [by right|].
    left. rewrite Hrem. apply elem_of_difference. split; [|done].
    apply elem_of_list_to_set, list_elem_of_In, in_map.
    by apply list_elem_of_In.
  - assert (Hin : w ∈ readyWorkers plan ps).
    { unfold readyWorkers. apply list_elem_of_In, filter_In.
      split; [by apply list_elem_of_In | done]. }
    rewrite Hnil in Hin. by apply elem_of_nil in Hin.
Qed.

End Book.

(** X6.  A parallel plan in which every [dependsOn] names the id of an
    earlier worker never ends in a dependency deadlock, whatever the
    workers do (a failed worker still counts as completed). *)
Theorem parallel_no_deadlock (W : World) (goal : string)
    (plan : OrchestratorPlan) (reason : StopReason) (ps : ParState) :
  depsPointBack plan = true →
  parallelRun W goal plan = Some (reason, ps) →
  reason ≠ Deadlock.
Proof.
  intros Hback Hrun ->.
  destruct (parallelRun_book W goal plan Deadlock ps Hrun)
    as (_ & Hbook & Hstep).
  revert Hstep. unfold parallelStep.
  destruct (bool_decide (size (remaining ps) = 0)) eqn:Hsize; [discriminate|].
  destruct (interrupted W (ps_exec ps)); [discriminate|].
  apply bool_decide_eq_false in Hsize.
  pose proof (no_deadlock_step plan ps Hback Hbook Hsize) as Hne.
  destruct (readyThrows plan ps); [discriminate|].
  by destruct (readyWorkers plan ps).
Qed.

Lemma parallel_no_deadlock_witness :
  let W := world diamond (failingOn ["B"] "compile error") in
  let ps := match parallelRun W "fix the build" diamond with
            | Some (_, ps) => ps
            | None => initialPar diamond
            end in
  parallelRun W "fix the build" diamond = Some (Interrupted, ps)
  ∧ Interrupted ≠ Deadlock.
Proof.
  intros W ps.
  assert (Hrun : parallelRun W "fix the build" diamond
                 = Some (Interrupted, ps)) by (vm_compute; reflexivity).
  split; [exact Hrun|].
  apply (parallel_no_deadlock W "fix the build" diamond Interrupted ps);
    [reflexivity | exact Hrun].
Defined.

(** With array [dependsOn]s throughout, the filter for [ready] never
    throws. *)
Lemma readyThrows_arrays (plan : OrchestratorPlan) (ps : ParState) :
  dependsOnArrays plan = true → readyThrows plan ps = false.
Proof.
  unfold dependsOnArrays, readyThrows. intros Hall.
  apply not_true_is_false. intros Hex.
  apply existsb_exists in Hex as (w & Hw & Hthrows).
  rewrite forallb_forall in Hall. specialize (Hall w Hw).
  apply andb_true_iff in Hthrows as [_ Hno]. by rewrite Hno in Hall.
Qed.




End ParallelMoreFacts.

(** ** Whole runs *)

Module RunFacts.
Import Orchestrator Spec Samples Notions SummaryFacts SequentialFacts
  ParallelFacts ParallelMoreFacts.

(** [execute] returns the Summary of the state in which phase 2 ends. *)
Lemma execute_scheduled (W : World) (req : WorkRequest)
    (plan : OrchestratorPlan) (st : ExecState) :
  executedPlan W = Some plan →
  scheduled W req = Some st →
  workersThrow W (wq_task req) plan = false →
  ∃ planResult,
    planningCall W = inr planResult
    ∧ execute W req = Returned (summarize W (cr_costUsd planResult) st).
Proof.
  intros Hplan Hsched Hthrow. apply (execute_of_plan W req plan st Hplan);
    [|done].
  unfold scheduled in Hsched. by rewrite Hplan in Hsched.
Qed.

(** *** How the parallel loop leaves its first test *)

Lemma parallelRun_at_start (W : World) (goal : string)
    (plan : OrchestratorPlan) (reason : StopReason) :
  parallelStep W goal plan (initialPar plan) = inl (reason, initialPar plan) →
  parallelRun W goal plan = Some (reason, initialPar plan).
Proof.
  intros H. unfold parallelRun.
  destruct (totalWorkers plan); cbn [parallelLoop]; by rewrite H.
Qed.

Lemma start_aborted (W : World) (goal : string) (plan : OrchestratorPlan) :
  signalAborted W 0 = true →
  ∃ reason, reason ≠ Crashed
            ∧ parallelRun W goal plan = Some (reason, initialPar plan).
Proof.
  intros Habort.
  assert (∃ reason, reason ≠ Crashed
            ∧ parallelStep W goal plan (initialPar plan)
              = inl (reason, initialPar plan)) as (reason & Hne & Hstep).
  { unfold parallelStep. destruct (bool_decide _); [by exists AllDone|].
    unfold interrupted. cbn. rewrite Habort. by exists Interrupted. }
  exists reason. split; [done | by apply parallelRun_at_start].
Qed.

Lemma some_noArray (ws : list WorkerTask) :
  forallb (fun w => negb (noArray w)) ws = false →
  ∃ w, w ∈ ws ∧ noArray w = true.
Proof.
  induction ws as [|w ws IH]; cbn [forallb]; [discriminate|].
  destruct (noArray w) eqn:E; cbn [negb andb].
  - intros _. exists w. split; [by left | done].
  - intros H. destruct (IH H) as (w' & Hw' & Hno).
    exists w'. split; [by right | done].
Qed.

(** A [dependsOn] that is no array makes the first round throw, before
    any worker is started. *)
Lemma start_crashes (W : World) (goal : string) (plan : OrchestratorPlan) :
  dependsOnArrays plan = false →
  signalAborted W 0 = false →
  parallelRun W goal plan = Some (Crashed, initialPar plan).
Proof.
  intros Harr Habort. apply parallelRun_at_start.
  destruct (some_noArray _ Harr) as (w & Hw & Hno).
  assert (Hid : wt_id w ∈ remaining (initialPar plan)).
  { cbn [initialPar remaining].
    apply elem_of_list_to_set, list_elem_of_In, in_map.
    by apply list_elem_of_In. }
  unfold parallelStep.
  rewrite bool_decide_eq_false_2.
  2:{ intros Hsize. apply size_empty_iff in Hsize. set_solver. }
  unfold interrupted. cbn [initialPar ps_exec initialExec fx fx_attempts
                            length failFastTriggered].
  rewrite Habort. cbn [orb].
  replace (readyThrows plan (initialPar plan)) with true; [done|].
  symmetry. apply existsb_exists. exists w.
  split; [by apply list_elem_of_In|].
  by rewrite bool_decide_eq_true_2, Hno.
Qed.

(** The throw can only come from a [dependsOn] that is no array. *)
Lemma crash_only_malformed (W : World) (goal : string)
    (plan : OrchestratorPlan) (ps : ParState) :
  parallelRun W goal plan = Some (Crashed, ps) →
  dependsOnArrays plan = false.
Proof.
  intros Hrun.
  pose proof (parallelLoop_stop W goal plan _ _ _ _ Hrun) as Hstep.
  apply not_true_is_false. intros Harr.
  revert Hstep. unfold parallelStep.
  rewrite (readyThrows_arrays plan ps Harr).
  destruct (bool_decide _); [discriminate|].
  destruct (interrupted W _); [discriminate|].
  by destruct (readyWorkers plan ps).
Qed.

(** The fail-fast check of a round reads [dependsOn] only of entries on
    which the filter for [ready] has not thrown: of arrays. *)
Lemma blocked_on_arrays (W : World) (goal : string)
    (plan : OrchestratorPlan) (ps next : ParState) :
  parallelStep W goal plan ps = inr next →
  ∀ w, w ∈ pl_workers plan → wt_id w ∈ remaining ps → noArray w = false.
Proof.
  intros Hstep w Hw Hrem. apply parallelStep_inr_arrays in Hstep.
  apply not_true_is_false. intros Hno.
  assert (readyThrows plan ps = true); [|congruence].
  apply existsb_exists. exists w. split; [by apply list_elem_of_In|].
  by rewrite bool_decide_eq_true_2, Hno.
Qed.

Lemma capWorkers_workers (p : OrchestratorPlan) :
  pl_workers (capWorkers p) = take MAX_WORKERS (pl_workers p).
Proof.
  unfold capWorkers.
  destruct (MAX_WORKERS <? length (pl_workers p))%nat eqn:E; [done|].
  apply Nat.ltb_ge in E. by rewrite take_ge.
Qed.

Lemma executedPlan_capped (W : World) (plan : OrchestratorPlan) :
  executedPlan W = Some plan →
  (length (pl_workers plan) ≤ MAX_WORKERS)%nat.
Proof.
  unfold executedPlan.
  destruct (planningCall W) as [|planResult]; [discriminate|].
  destruct (parsePlan W (cr_result planResult)) as [|parsed]; [discriminate|].
  intros [= <-]. rewrite capWorkers_workers, length_take. lia.
Qed.

Lemma scheduled_count (W : World) (req : WorkRequest)
    (plan : OrchestratorPlan) (st : ExecState) :
  executedPlan W = Some plan →
  scheduled W req = Some st →
  workerResults st = map run_result (runs st)
  ∧ (length (runs st) ≤ length (pl_workers plan))%nat.
Proof.
  intros Hplan. unfold scheduled, executeWorkers. rewrite Hplan.
  destruct (pl_sequential plan).
  - intros [= <-].
    destruct (sequentialLoop_inv W (wq_task req) plan (pl_workers plan) 0
                (initialExec plan) [] (initialExec_inv plan))
      as (done & [Htasks Hres _ _] & Hpre).
    split; [done|]. apply prefix_length in Hpre.
    rewrite <- Htasks, length_map in Hpre. exact Hpre.
  - destruct (parallelRun W (wq_task req) plan) as [[reason ps]|] eqn:Hrun;
      [|discriminate].
    intros [= <-].
    destruct (parallelRun_book W (wq_task req) plan reason ps Hrun)
      as (Hcore & [_ _ Hcount] & _).
    split; [apply Hcore | lia].
Qed.

(** X8.  The plan that is executed holds the first ten workers of the
    parsed plan, in order; and whatever the workers do, in either mode,
    a returned Summary never holds more Worker Results than that plan
    has workers, hence never more than ten. *)
Theorem worker_results_bounded (W : World) (req : WorkRequest)
    (s : OrchestratorSummary) :
  execute W req = Returned s →
  (length (os_workerResults s) ≤ MAX_WORKERS)%nat
  ∧ ∀ plan, executedPlan W = Some plan →
      (length (os_workerResults s) ≤ length (pl_workers plan))%nat
      ∧ ∃ planResult parsed,
          planningCall W = inr planResult
          ∧ parsePlan W (cr_result planResult) = inr parsed
          ∧ pl_workers plan = take MAX_WORKERS (pl_workers parsed).
Proof.
  intros Hexec.
  destruct (execute_returned W req s Hexec) as (planResult & Hcall & Hcase).
  destruct Hcase as [(message & Hparse & _ & Hres & _)
                    |(plan & st & Hplan & Hsched & ->)].
  - rewrite Hres. split; [cbn; lia|]. intros plan Hplan.
    unfold executedPlan in Hplan. by rewrite Hcall, Hparse in Hplan.
  - destruct (summarize_results W (cr_costUsd planResult) st) as [-> _].
    destruct (scheduled_count W req plan st Hplan Hsched) as [Hres Hlen].
    rewrite Hres, length_map.
    pose proof (executedPlan_capped W plan Hplan) as Hcap.
    split; [lia|]. intros plan' Hplan'.
    rewrite Hplan in Hplan'. injection Hplan' as <-. split; [done|].
    unfold executedPlan in Hplan. rewrite Hcall in Hplan.
    destruct (parsePlan W (cr_result planResult)) as [|parsed] eqn:Hparse;
      [discriminate|].
    injection Hplan as <-. exists planResult, parsed.
    split_and!; [done | done | apply capWorkers_workers].
Qed.

Lemma worker_results_bounded_witness :
  let ws := map (fun i => worker (pretty i) []) (seq 1 12) in
  let W := world (parallelPlan ws) (failingOn [] "") in
  let s := theSummary (execute W request) in
  (length (os_workerResults s) ≤ MAX_WORKERS)%nat
  ∧ ∀ plan, executedPlan W = Some plan →
      (length (os_workerResults s) ≤ length (pl_workers plan))%nat
      ∧ ∃ planResult parsed,
          planningCall W = inr planResult
          ∧ parsePlan W (cr_result planResult) = inr parsed
          ∧ pl_workers plan = take MAX_WORKERS (pl_workers parsed).
Proof.
  intros ws W s. apply (worker_results_bounded W request s).
  vm_compute. reflexivity.
Defined.

(** Twelve planned workers: the first ten run. *)
Example twelve_workers_planned :
  let ws := map (fun i => worker (pretty i) []) (seq 1 12) in
  let s := theSummary (execute (world (sequentialPlan ws) (failingOn [] ""))
                         request) in
  map wr_taskId (os_workerResults s)
  = ["1"; "2"; "3"; "4"; "5"; "6"; "7"; "8"; "9"; "10"].
Proof. vm_compute. reflexivity. Qed.

(** X9.  [execute] throws in two cases only.  It throws the rejection
    of the planning call, with its message, exactly when that call
    rejects.  It throws a [TypeError] exactly when the plan is parallel,
    the signal is not aborted when phase 2 begins, and some worker of the
    plan has a [dependsOn] that is truthy but no array (which
    [validatePlan] does not check): the filter for the ready workers then
    throws in the first round, before any worker is started.  In every
    other case [execute] returns a Summary. *)
Theorem execute_throws_exactly (W : World) (req : WorkRequest) :
  (∀ message, execute W req = Thrown message ↔ planningCall W = inl message)
  ∧ (execute W req = ThrownTypeError
     ↔ ∃ plan, executedPlan W = Some plan
               ∧ pl_sequential plan = false
               ∧ signalAborted W 0 = false
               ∧ dependsOnArrays plan = false)
  ∧ (execute W req = ThrownTypeError → attemptsOf W req = [])
  ∧ (∀ planResult,
       planningCall W = inr planResult →
       execute W req ≠ ThrownTypeError →
       ∃ s, execute W req = Returned s).
Proof.
  assert (Hthrown : ∀ message,
            execute W req = Thrown message ↔ planningCall W = inl message).
  { intros message. unfold execute.
    destruct (planningCall W) as [err|planResult];
      [split; by intros [= ->]|].
    split; [|discriminate].
    destruct (parsePlan W (cr_result planResult)); [discriminate|].
    cbn zeta. destruct (executeWorkers _ _ _); [|discriminate].
    by destruct (workersThrow _ _ _). }
  assert (Hcrash : ∀ plan,
            executedPlan W = Some plan →
            execute W req = ThrownTypeError
            ↔ workersThrow W (wq_task req) plan = true).
  { intros plan Hplan. unfold execute. unfold executedPlan in Hplan.
    destruct (planningCall W) as [|planResult]; [discriminate|].
    destruct (parsePlan W (cr_result planResult)) as [|parsed];
      [discriminate|].
    injection Hplan as Hplan. cbn zeta. rewrite Hplan.
    destruct (executeWorkers W (wq_task req) plan) as [st|] eqn:Hst.
    - destruct (workersThrow _ _ _); split; done.
    - split; [discriminate|]. intros Hthrow. exfalso.
      revert Hst Hthrow. unfold executeWorkers, workersThrow.
      destruct (pl_sequential plan); [done|].
      by destruct (parallelRun W (wq_task req) plan) as [[[] ?]|]. }
  assert (Hiff : execute W req = ThrownTypeError
            ↔ ∃ plan, executedPlan W = Some plan
                      ∧ pl_sequential plan = false
                      ∧ signalAborted W 0 = false
                      ∧ dependsOnArrays plan = false).
  { split.
    - intros Hexec.
      destruct (executedPlan W) as [plan|] eqn:Hplan.
      2:{ exfalso. revert Hexec. unfold execute.
          unfold executedPlan in Hplan.
          destruct (planningCall W) as [|planResult]; [discriminate|].
          by destruct (parsePlan W (cr_result planResult)). }
      exists plan. apply (Hcrash plan eq_refl) in Hexec.
      unfold workersThrow in Hexec.
      destruct (pl_sequential plan); [discriminate|]. cbn [negb andb] in Hexec.
      destruct (parallelRun W (wq_task req) plan) as [[reason ps]|] eqn:Hrun;
        [|discriminate].
      destruct reason; try discriminate.
      split_and!; [done | done | | by eapply crash_only_malformed].
      apply not_true_is_false. intros Habort.
      destruct (start_aborted W (wq_task req) plan Habort)
        as (reason & Hne & Hrun').
      rewrite Hrun in Hrun'. by injection Hrun' as <-.
    - intros (plan & Hplan & Hpar & Habort & Harr).
      apply (Hcrash plan Hplan). unfold workersThrow.
      by rewrite Hpar, (start_crashes W (wq_task req) plan Harr Habort). }
  split_and!; [done | done | |].
  - intros Hexec. apply Hiff in Hexec as (plan & Hplan & Hpar & Habort & Harr).
    unfold attemptsOf, scheduled, executeWorkers.
    by rewrite Hplan, Hpar, (start_crashes W (wq_task req) plan Harr Habort).
  - intros planResult Hcall Hno.
    destruct (execute W req) as [s|message| |] eqn:Hexec.
    + by exists s.
    + destruct (Hthrown message) as [H _]. specialize (H eq_refl).
      congruence.
    + done.
    + by apply execute_terminates in Hexec.
Qed.

(** A plan of two workers, the second with ["dependsOn": "A"]: in
    parallel mode [execute] throws, in sequential mode both workers run. *)
Example dependsOn_no_array :
  let ws := [worker "A" [];
             {| wt_id := "B"; wt_description := "step B";
                wt_prompt := "do B"; wt_dependsOn := NoArray |}] in
  execute (world (parallelPlan ws) (failingOn [] "")) request
  = ThrownTypeError
  ∧ map wr_taskId
      (os_workerResults
         (theSummary (execute (world (sequentialPlan ws) (failingOn [] ""))
                        request)))
    = ["A"; "B"].
Proof. vm_compute. done. Qed.

(** X10.  If the signal is already aborted when phase 2 begins, no worker
    is started in either mode: the worker agent is never called, and the
    Summary holds no Worker Result and [overallSuccess = false]. *)
Theorem aborted_before_workers (W : World) (req : WorkRequest)
    (plan : OrchestratorPlan) :
  executedPlan W = Some plan →
  signalAborted W 0 = true →
  attemptsOf W req = []
  ∧ ∃ s, execute W req = Returned s
         ∧ os_workerResults s = []
         ∧ os_overallSuccess s = false.
Proof.
  intros Hplan Habort.
  assert (Hsched : scheduled W req = Some (initialExec plan)).
  { unfold scheduled, executeWorkers. rewrite Hplan.
    destruct (pl_sequential plan).
    - destruct (pl_workers plan) as [|task rest]; cbn [sequentialLoop];
        [done|].
      unfold interrupted. cbn. by rewrite Habort.
    - by destruct (start_aborted W (wq_task req) plan Habort)
        as (reason & _ & ->). }
  split; [unfold attemptsOf; by rewrite Hsched|].
  destruct (execute_scheduled W req plan _ Hplan Hsched)
    as (planResult & _ & Hexec).
  { unfold workersThrow. destruct (pl_sequential plan); [done|].
    destruct (start_aborted W (wq_task req) plan Habort)
      as (reason & Hne & ->). by destruct reason. }
  eexists. split; [exact Hexec|].
  destruct (summarize_results W (cr_costUsd planResult) (initialExec plan))
    as [-> ->]. done.
Qed.

Lemma aborted_before_workers_witness :
  let W := abortedWorld (world diamond (failingOn [] "")) in
  attemptsOf W request = []
  ∧ ∃ s, execute W request = Returned s
         ∧ os_workerResults s = []
         ∧ os_overallSuccess s = false.
Proof.
  intros W. apply (aborted_before_workers W request diamond); reflexivity.
Defined.

(** X11.  If the planner process exits normally with a text that is
    neither CLI output (the output parser throws) nor a plan (the plan
    parser throws), the text is taken as the raw result at no cost, and
    [execute] returns, without calling any worker or the summary, a
    Summary with [overallSuccess = false], no Worker Result, a total
    cost of 0 and a summary text that begins with "Planning failed: "
    followed by the plan parser's message. *)
Theorem prose_instead_of_plan (W : World) (req : WorkRequest)
    (code : option Z) (out stderr why message : string) :
  planProc W = ProcClose code out stderr false →
  isEmpty (trim out) = false →
  parseClaudeOutput W out = inl why →
  parsePlan W (trim out) = inl message →
  execute W req
  = Returned
      {| os_overallSuccess := false;
         os_summary :=
           "Planning failed: " +:+ message
             +:+ ". The orchestrator did not produce a valid plan.";
         os_workerResults := [];
         os_totalCostUsd := 0 |}
  ∧ attemptsOf W req = []
  ∧ summaryCostOf W req = None.
Proof.
  intros Hproc Hblank Hout Hplan.
  assert (Hnonempty : isEmpty out = false).
  { destruct out; [discriminate Hblank | done]. }
  assert (Hcall : planningCall W
                  = inr {| cr_result := trim out; cr_sessionId := "";
                           cr_costUsd := None; cr_duration := None;
                           cr_isError := false |}).
  { unfold planningCall, invokeClaude, invokeClaudeInternal.
    rewrite Hproc, Hnonempty, andb_false_r, Hout, Hblank. done. }
  unfold execute, attemptsOf, summaryCostOf, scheduled, executedPlan.
  rewrite Hcall. cbn [cr_result cr_costUsd]. rewrite Hplan. done.
Qed.

Lemma prose_instead_of_plan_witness :
  let W := unparsableWorld
             (proseWorld (world (sequentialPlan []) (failingOn [] ""))
                "Sorry, cannot plan." "Unexpected token S")
             "Could not extract JSON plan from orchestrator output." in
  execute W request
  = Returned
      {| os_overallSuccess := false;
         os_summary :=
           "Planning failed: "
             +:+ "Could not extract JSON plan from orchestrator output."
             +:+ ". The orchestrator did not produce a valid plan.";
         os_workerResults := [];
         os_totalCostUsd := 0 |}
  ∧ attemptsOf W request = []
  ∧ summaryCostOf W request = None.
Proof.
  intros W.
  apply (prose_instead_of_plan W request (Some 0%Z) "Sorry, cannot plan." ""
           "Unexpected token S"); reflexivity.
Defined.

End RunFacts.

(** ** What the worker agent is called with *)

Module CallFacts.
Import Orchestrator Spec Samples Notions SummaryFacts RetryFacts
  SequentialFacts ParallelFacts SequentialMoreFacts ParallelMoreFacts RunFacts.

(** *** The prompt, text by text *)

Lemma truncateResult_shown (text : string) : truncateResult text = shown text.
Proof.
  unfold truncateResult, shown. rewrite Nat.ltb_antisym.
  by destruct (String.length text <=? MAX_RESULT_CHARS)%nat.
Qed.

Lemma join_cons (sep x : string) (xs : list string) :
  xs ≠ [] → join sep (x :: xs) = x +:+ sep +:+ join sep xs.
Proof. by destruct xs. Qed.

Lemma concat_nosep_cons (x : string) (xs : list string) :
  String.concat "" (x :: xs) = x +:+ String.concat "" xs.
Proof.
  destruct xs as [|y ys]; cbn [String.concat].
  - by rewrite sapp_nil_r.
  - by rewrite sapp_nil_l.
Qed.

Lemma blocks_join (prior : list WorkerResult) (footer : string) :
  nl +:+ join nl (concat (map priorBlock prior) ++ [footer])
  = String.concat "" (map resultEntry prior) +:+ nl +:+ footer.
Proof.
  induction prior as [|pr rest IH].
  - cbn [map concat app]. unfold join. cbn [String.concat].
    by rewrite sapp_nil_l.
  - cbn [map concat]. rewrite concat_nosep_cons.
    unfold priorBlock at 1. cbn [app].
    rewrite join_cons by done.
    rewrite join_cons by (by destruct (concat _)).
    unfold resultEntry at 1. fold (resultLabel pr).
    rewrite truncateResult_shown, !sapp_assoc. by rewrite IH.
Qed.

(** The prompt built by the code is the plan context, the position, the
    section of the results handed over, and the worker's own prompt. *)
Lemma augmentedPrompt_flat (goal : string) (plan : OrchestratorPlan)
    (task : WorkerTask) (n : nat) (prior : list WorkerResult) :
  augmentedPrompt goal plan task n prior
  = workerPrompt goal plan n prior (wt_prompt task).
Proof.
  unfold augmentedPrompt, workerPrompt, buildWorkerContextPrefix.
  destruct prior as [|pr rest].
  - cbn [app resultsSection]. unfold join at 1. cbn [String.concat].
    by rewrite !sapp_assoc, sapp_nil_l.
  - cbn [app]. rewrite join_cons by done. rewrite join_cons by done.
    rewrite join_cons by (by destruct (concat _)).
    unfold resultsSection. rewrite !sapp_assoc.
    rewrite <- (sapp_assoc nl (join nl _)).
    rewrite (blocks_join (pr :: rest)). by rewrite !sapp_assoc.
Qed.

(** *** Every result is the value of one [executeWithRetry] *)

Lemma executeWithRetry_first_call (W : World) (t : WorkerTask) (n : nat)
    (e : Effects) :
  ∃ rest,
    fx_attempts (executeWithRetry W t n e).2 = fx_attempts e ++ t :: rest.
Proof.
  destruct (negb (wr_success
                    (settle t (workerAgent W (length (fx_attempts e)) t)))
            && isTransientError
                 (wr_result
                    (settle t (workerAgent W (length (fx_attempts e)) t))))
    eqn:E.
  - destruct (executeWithRetry_twice W t n e E) as [-> _].
    by exists [retryTaskOf t].
  - destruct (executeWithRetry_once W t n e E) as [-> _]. by exists [].
Qed.

Lemma executeWithRetry_log (W : World) (t : WorkerTask) (n : nat)
    (e : Effects) :
  fx_attempts e `prefix_of` fx_attempts (executeWithRetry W t n e).2.
Proof.
  destruct (executeWithRetry_first_call W t n e) as [rest ->].
  by apply prefix_app_r.
Qed.

Lemma produced_mono (W : World) (log log' : list WorkerTask) (r : Run) :
  log `prefix_of` log' → producedByRetry W log r → producedByRetry W log' r.
Proof.
  intros Hpre (e & Hres & Hlog). exists e. split; [done|]. by etrans.
Qed.

(** The task handed over for a run is in the log. *)
Lemma produced_called (W : World) (log : list WorkerTask) (r : Run) :
  producedByRetry W log r → handed r ∈ log.
Proof.
  intros (e & _ & [more Hlog]).
  destruct (executeWithRetry_first_call W (handed r) (run_number r) e)
    as [rest Hcalls].
  rewrite Hlog, Hcalls. set_solver.
Qed.

Section Calls.

Variable W : World.
Variable goal : string.
Variable plan : OrchestratorPlan.

Lemma sequentialLoop_produced (ws : list WorkerTask) :
  ∀ (idx : nat) (st : ExecState),
    Forall (producedByRetry W (fx_attempts (fx st))) (runs st) →
    let st' := sequentialLoop W goal plan ws idx st in
    Forall (producedByRetry W (fx_attempts (fx st'))) (runs st').
Proof.
  induction ws as [|task rest IH]; intros idx st Hold; cbn [sequentialLoop];
    cbn zeta; [done|].
  destruct (interrupted W st); [done|].
  set (p := augmentedPrompt goal plan task (idx + 1) (workerResults st)).
  pose proof (executeWithRetry_log W (withPrompt task p) (idx + 1) (fx st))
    as Hgrow.
  assert (Hnew : producedByRetry W
            (fx_attempts (executeWithRetry W (withPrompt task p) (idx + 1)
                            (fx st)).2)
            {| run_task := task; run_number := idx + 1;
               run_prior := workerResults st; run_prompt := p;
               run_result := (executeWithRetry W (withPrompt task p) (idx + 1)
                                (fx st)).1 |}).
  { exists (fx st). by split. }
  destruct (executeWithRetry W (withPrompt task p) (idx + 1) (fx st))
    as [result e1]. cbn [fst snd] in *.
  apply IH.
  assert (Hall : Forall (producedByRetry W (fx_attempts e1))
            (runs st ++ [{| run_task := task; run_number := idx + 1;
                            run_prior := workerResults st; run_prompt := p;
                            run_result := result |}])).
  { apply Forall_app. split; [|by apply Forall_singleton].
    eapply Forall_impl; [exact Hold|]. intros r. by apply produced_mono. }
  by destruct (wr_success result).
Qed.

Lemma runAll_produced (ps : ParState) (ready : list WorkerTask) :
  ∀ e,
    fx_attempts e `prefix_of` fx_attempts (runAll W goal plan ps ready e).2
    ∧ Forall (λ r, numbered plan r
                   ∧ producedByRetry W
                       (fx_attempts (runAll W goal plan ps ready e).2) r)
        (runAll W goal plan ps ready e).1.
Proof.
  induction ready as [|task rest IH]; intros e; [by split|].
  rewrite runAll_cons. cbn zeta. cbn [fst snd].
  set (n := workerNumberOf plan (wt_id task)).
  set (p := augmentedPrompt goal plan task n (depResults ps task)).
  pose proof (executeWithRetry_log W (withPrompt task p) n e) as Hgrow.
  destruct (IH (executeWithRetry W (withPrompt task p) n e).2)
    as [Hrest Hall].
  split; [by etrans|]. constructor; [|done].
  split; [done|]. exists e. by split.
Qed.

Lemma recordBatch_attempts (batch : list Run) :
  ∀ ps, fx_attempts (fx (ps_exec (recordBatch plan ps batch)))
        = fx_attempts (fx (ps_exec ps)).
Proof.
  induction batch as [|r batch IH]; intros ps; [done|].
  unfold recordBatch. cbn [fold_left].
  fold (recordBatch plan (recordRun plan ps r) batch). by rewrite IH.
Qed.

Lemma runRound_attempts (ps : ParState) (ready : list WorkerTask) :
  fx_attempts (fx (ps_exec (runRound W goal plan ps ready)))
  = fx_attempts (runAll W goal plan ps ready (fx (ps_exec ps))).2.
Proof.
  rewrite runRound_unfold. cbn zeta.
  assert (Hrec : fx_attempts (fx (ps_exec (recordedOf W goal plan ps ready)))
                 = fx_attempts (runAll W goal plan ps ready
                                  (fx (ps_exec ps))).2).
  { unfold recordedOf. by rewrite recordBatch_attempts. }
  destruct (batchHadFailure _); [|done].
  by destruct (blockedWorkers _ _ _).
Qed.

Lemma ParCalls_runRound (ps : ParState) (ready : list WorkerTask) :
  ParCalls W plan ps → ParCalls W plan (runRound W goal plan ps ready).
Proof.
  intros [Hcore Hold]. split; [by apply ParCore_runRound|].
  destruct (runRound_fields W goal plan ps ready) as (-> & _).
  destruct (recordedOf_spec W goal plan ps ready Hcore) as (_ & -> & _).
  rewrite runRound_attempts. unfold batchOf.
  destruct (runAll_produced ps ready (fx (ps_exec ps))) as [Hgrow Hnew].
  apply Forall_app. split; [|done].
  eapply Forall_impl; [exact Hold|].
  intros r [Hn Hp]. split; [done|]. by eapply produced_mono.
Qed.

Lemma parallelLoop_calls (fuel : nat) :
  ∀ ps reason ps',
    ParCalls W plan ps →
    parallelLoop W goal plan fuel ps = Some (reason, ps') →
    ParCalls W plan ps'.
Proof.
  induction fuel as [|fuel IH]; intros ps reason ps' Hinv;
    cbn [parallelLoop];
    destruct (parallelStep W goal plan ps) as [[reason0 ps0]|next] eqn:E;
    intros H; try discriminate.
  - injection H as <- <-. by rewrite (stopped_state _ _ _ _ _ _ E).
  - injection H as <- <-. by rewrite (stopped_state _ _ _ _ _ _ E).
  - apply parallelStep_inr in E as [-> _].
    eapply IH; [|exact H]. by apply ParCalls_runRound.
Qed.

Lemma parallelRun_calls (reason : StopReason) (ps : ParState) :
  parallelRun W goal plan = Some (reason, ps) → ParCalls W plan ps.
Proof.
  intros Hrun. eapply parallelLoop_calls; [|exact Hrun].
  split; [exact (proj1 (initialPar_inv goal plan)) | constructor].
Qed.

End Calls.

(** Where phase 2 ends, in either mode: one run for every entry of
    [workerResults], each the run of a plan entry and each produced by
    one call of [executeWithRetry] whose calls of the worker agent are
    in the log. *)
Lemma scheduled_calls (W : World) (req : WorkRequest)
    (plan : OrchestratorPlan) (st : ExecState) :
  executedPlan W = Some plan →
  scheduled W req = Some st →
  workerResults st = map run_result (runs st)
  ∧ Forall (λ r, run_task r ∈ pl_workers plan
                 ∧ producedByRetry W (fx_attempts (fx st)) r) (runs st).
Proof.
  intros Hplan Hsched.
  destruct (scheduled_count W req plan st Hplan Hsched) as [Hres _].
  split; [done|].
  revert Hsched. unfold scheduled, executeWorkers. rewrite Hplan.
  destruct (pl_sequential plan).
  - intros [= <-].
    destruct (sequentialLoop_inv W (wq_task req) plan (pl_workers plan) 0
                (initialExec plan) [] (initialExec_inv plan))
      as (done & [Htasks _ _ _] & Hpre).
    pose proof (sequentialLoop_produced W (wq_task req) plan
                  (pl_workers plan) 0 (initialExec plan)
                  ltac:(constructor)) as Hprod.
    cbn zeta in Hprod. rewrite Forall_forall in Hprod |- *.
    intros r Hr. split; [|by apply Hprod].
    eapply elem_of_prefix; [|exact Hpre]. rewrite <- Htasks.
    apply list_elem_of_In, in_map. by apply list_elem_of_In.
  - destruct (parallelRun W (wq_task req) plan) as [[reason ps]|] eqn:Hrun;
      [|discriminate].
    intros [= <-].
    destruct (parallelRun_calls W (wq_task req) plan reason ps Hrun)
      as [_ Hcalls].
    assert (Hinv : ParInv (wq_task req) plan ps).
    { eapply parallelLoop_inv; [apply initialPar_inv | exact Hrun]. }
    destruct Hinv as (_ & _ & Hstarted).
    rewrite Forall_forall in Hcalls, Hstarted |- *.
    intros r Hr. split; [apply (Hstarted r Hr) | apply (Hcalls r Hr)].
Qed.



(** The run of the witness, evaluated: W1 fails with a rate-limit text
    and is run again as W1-retry, W2 is run once; the two entries of
    [workerResults] are those of W1-retry and W2. *)
Example retried_worker_in_a_run :
  let W := world (sequentialPlan [worker "W1" []; worker "W2" []]) flakyOnce in
  let st := theState (scheduled W request) in
  map wt_id (fx_attempts (fx st)) = ["W1"; "W1-retry"; "W2"]
  ∧ map wr_taskId (workerResults st) = ["W1-retry"; "W2"]
  ∧ map wr_success (workerResults st) = [true; true].
Proof. vm_compute. done. Qed.



(** The prompt that worker D of the diamond plan is started with holds
    the results of B and C, its dependencies, and not that of A. *)
Example diamond_prompt :
  let W := world diamond
             (fun _ t => quiet (Resolved (okResult (wt_id t)
                                            ("result of " +:+ wt_id t) 3))) in
  let st := theState (scheduled W request) in
  let d := default (worker "" []) (last (fx_attempts (fx st))) in
  wt_id d = "D"
  ∧ includes (wt_prompt d)
      ("--- B [SUCCESS] ---" +:+ nl +:+ "result of B") = true
  ∧ includes (wt_prompt d)
      ("--- C [SUCCESS] ---" +:+ nl +:+ "result of C") = true
  ∧ includes (wt_prompt d) "result of A" = false.
Proof. vm_compute. done. Qed.

(** X4.  In sequential mode the run at position [i] is that of entry
    [i] of the plan, and the worker agent was called for it on that
    entry under a prompt that holds, between the plan context with the
    position [i + 1] and the worker's own prompt, the section of the
    results of all the workers that ran before it, in order; the entry
    at position [i] of [workerResults] is the value of that execution. *)
Theorem sequential_context (W : World) (req : WorkRequest)
    (plan : OrchestratorPlan) :
  executedPlan W = Some plan →
  pl_sequential plan = true →
  ∃ st,
    scheduled W req = Some st
    ∧ ∀ i r, runs st !! i = Some r →
        pl_workers plan !! i = Some (run_task r)
        ∧ ∃ t e,
            t = withPrompt (run_task r)
                  (workerPrompt (wq_task req) plan (S i)
                     (take i (workerResults st)) (wt_prompt (run_task r)))
            ∧ t ∈ fx_attempts (fx st)
            ∧ workerResults st !! i = Some (executeWithRetry W t (S i) e).1.
Proof.
  intros Hplan Hseq.
  set (st := sequentialLoop W (wq_task req) plan (pl_workers plan) 0
               (initialExec plan)).
  assert (Hsched : scheduled W req = Some st).
  { unfold scheduled, executeWorkers. by rewrite Hplan, Hseq. }
  exists st. split; [done|]. intros i r Hi.
  destruct (sequentialLoop_inv W (wq_task req) plan (pl_workers plan) 0
              (initialExec plan) [] (initialExec_inv plan))
    as (done & [Htasks Hres _ _] & Hpre).
  fold st in Htasks, Hres.
  assert (Hctx : seesAllPrior (wq_task req) plan (runs st)).
  { apply sequentialLoop_ctx; [done | done |]. intros j r' Hj. by destruct j. }
  destruct (Hctx i r Hi) as (Hn & Hprior & Hprompt).
  destruct (scheduled_calls W req plan st Hplan Hsched) as [_ Hall].
  rewrite Forall_lookup in Hall.
  destruct (Hall i r Hi) as [_ Hprod].
  pose proof (produced_called W _ r Hprod) as Hcalled.
  destruct Hprod as (e & Hval & _).
  split.
  - destruct Hpre as [more Hpre]. cbn [app] in Hpre.
    rewrite Hpre, <- Htasks.
    change (map run_task (runs st)) with (run_task <$> runs st).
    rewrite lookup_app_l.
    + by rewrite list_lookup_fmap, Hi.
    + rewrite length_fmap. by eapply lookup_lt_Some.
  - assert (Ht : handed r
                 = withPrompt (run_task r)
                     (workerPrompt (wq_task req) plan (S i)
                        (take i (workerResults st))
                        (wt_prompt (run_task r)))).
    { unfold handed. rewrite Hprompt, augmentedPrompt_flat, Hprior, Hres.
      change (map run_result (runs st)) with (run_result <$> runs st).
      by rewrite fmap_take. }
    exists (handed r), e. split_and!; [done | done |].
    rewrite Hres. change (map run_result (runs st)) with (run_result <$> runs st).
    rewrite list_lookup_fmap, Hi. cbn [fmap option_fmap option_map].
    by rewrite Hval, Hn.
Qed.

Lemma sequential_context_witness :
  let plan := sequentialPlan [worker "W1" []; worker "W2" []; worker "W3" []] in
  let W := world plan (failingOn [] "") in
  ∃ st,
    scheduled W request = Some st
    ∧ ∀ i r, runs st !! i = Some r →
        pl_workers plan !! i = Some (run_task r)
        ∧ ∃ t e,
            t = withPrompt (run_task r)
                  (workerPrompt (wq_task request) plan (S i)
                     (take i (workerResults st)) (wt_prompt (run_task r)))
            ∧ t ∈ fx_attempts (fx st)
            ∧ workerResults st !! i = Some (executeWithRetry W t (S i) e).1.
Proof.
  intros plan W. apply (sequential_context W request plan); reflexivity.
Defined.

(** The prompt that the third worker of a sequential plan is started
    with holds the results of the first and of the second. *)
Example third_worker_prompt :
  let plan := sequentialPlan [worker "W1" []; worker "W2" []; worker "W3" []] in
  let W := world plan
             (fun _ t => quiet (Resolved (okResult (wt_id t)
                                            ("result of " +:+ wt_id t) 3))) in
  let st := theState (scheduled W request) in
  let t := default (worker "" []) (last (fx_attempts (fx st))) in
  wt_id t = "W3"
  ∧ includes (wt_prompt t)
      ("--- W1 [SUCCESS] ---" +:+ nl +:+ "result of W1" +:+ nl +:+ nl
         +:+ "--- W2 [SUCCESS] ---" +:+ nl +:+ "result of W2") = true
  ∧ String.prefix "## Overall Plan Context" (wt_prompt t) = true.
Proof. vm_compute. done. Qed.

End CallFacts.

(** ** More on chat-reply parsing *)

Module ChatMoreFacts.
Import ChatAgent Spec Samples Notions ChatFacts.

Lemma trimStart_head (s : string) : headWhite (trimStart s) = false.
Proof.
  induction s as [|c s IH]; [done|]. cbn [trimStart].
  destruct (isWhite c) eqn:E; [done|]. cbn. exact E.
Qed.

Lemma trimEnd_head (s : string) :
  headWhite s = false → headWhite (trimEnd s) = false.
Proof.
  destruct s as [|c s]; [done|]. cbn [headWhite trimEnd]. intros Hc.
  rewrite Hc. by destruct (trimEnd s).
Qed.

Lemma trimEnd_last (s : string) : lastWhite (trimEnd s) = false.
Proof.
  induction s as [|c s IH]; [done|]. cbn [trimEnd].
  destruct (trimEnd s) as [|d t] eqn:E.
  - destruct (isWhite c) eqn:Hc; [done|]. cbn. exact Hc.
  - exact IH.
Qed.

Lemma trim_unpadded (s : string) :
  headWhite (trim s) = false ∧ lastWhite (trim s) = false.
Proof.
  unfold trim. split; [apply trimEnd_head, trimStart_head | apply trimEnd_last].
Qed.

(** X12.  Whatever the reply and whatever [JSON.parse] does, the chat
    text handed back is never empty and never begins or ends with
    whitespace. *)
Theorem chatText_never_blank (JSON_parse : string → option json)
    (text : string) :
  let t := chatText (parseChatResponse JSON_parse text) in
  t ≠ "" ∧ headWhite t = false ∧ lastWhite t = false.
Proof.
  cbn zeta. unfold parseChatResponse. cbn [chatText].
  set (stripped := stripFirst MEMORY_OPEN MEMORY_CLOSE _).
  unfold orElse. destruct (trim stripped) as [|c t] eqn:E; cbn [isEmpty].
  - done.
  - rewrite <- E. split; [by rewrite E|]. apply trim_unpadded.
Qed.

(** X13.  An action is handed back only if the text between the first
    opening tag and the first closing tag after it parses, once trimmed,
    to a JSON object with type "work_request" and a truthy task; the
    action is that parsed object. *)
Theorem action_only_if_valid (JSON_parse : string → option json)
    (text : string) (a : json) :
  action (parseChatResponse JSON_parse text) = Some a →
  ∃ before body after,
    regexMatch ACTION_OPEN ACTION_CLOSE text = Some (before, body, after)
    ∧ JSON_parse (trim body) = Some a
    ∧ Json.isString "work_request" (Json.get "type" a) = true
    ∧ Json.truthy (Json.get "task" a) = true.
Proof.
  unfold parseChatResponse. cbn [action].
  destruct (regexMatch ACTION_OPEN ACTION_CLOSE text)
    as [[[before body] after]|]; [|discriminate].
  unfold parseAction.
  destruct (JSON_parse (trim body)) as [parsed|] eqn:Hparse; [|discriminate].
  intros H. exists before, body, after.
  assert (Hvalid : isWorkRequest parsed = true ∧ parsed = a).
  { destruct parsed; try discriminate;
      destruct (isWorkRequest _) eqn:E; try discriminate;
      by injection H as <-. }
  destruct Hvalid as [Hvalid ->].
  apply andb_true_iff in Hvalid as [? ?]. done.
Qed.

Lemma action_only_if_valid_witness :
  ∃ before body after,
    regexMatch ACTION_OPEN ACTION_CLOSE (actionBlock requestText)
    = Some (before, body, after)
    ∧ parseRequestOnly (trim body) = Some requestObject
    ∧ Json.isString "work_request" (Json.get "type" requestObject) = true
    ∧ Json.truthy (Json.get "task" requestObject) = true.
Proof.
  apply (action_only_if_valid parseRequestOnly (actionBlock requestText)
           requestObject).
  reflexivity.
Defined.

(** X14.  A reply without any opening tag is plain chat: no action, no
    memory note, and the chat text is the trimmed reply (the placeholder
    if the reply is blank). *)
Theorem plain_reply (JSON_parse : string → option json) (text : string) :
  includes text ACTION_OPEN = false →
  includes text MEMORY_OPEN = false →
  parseChatResponse JSON_parse text
  = {| chatText := orElse (trim text) PLACEHOLDER;
       action := None; memoryNote := None |}.
Proof.
  intros Ha Hm. unfold parseChatResponse, stripFirst.
  rewrite (regexMatch_absent ACTION_OPEN ACTION_CLOSE text Ha).
  by rewrite (regexMatch_absent MEMORY_OPEN MEMORY_CLOSE text Hm).
Qed.

Lemma plain_reply_witness :
  parseChatResponse parseRequestOnly "  hello there  "
  = {| chatText := "hello there"; action := None; memoryNote := None |}.
Proof.
  apply (plain_reply parseRequestOnly "  hello there  "); reflexivity.
Defined.

(** X15.  The memory note is read off the reply as it came: it is the
    trimmed text of the first memory block, wherever action blocks lie;
    and there is no note when no closing tag follows the first opening
    tag. *)
Theorem memory_note_of_first_block (JSON_parse : string → option json)
    (u m v : string) :
  includes u MEMORY_OPEN = false →
  includes m MEMORY_CLOSE = false →
  memoryNote (parseChatResponse JSON_parse
                (u +:+ MEMORY_OPEN +:+ m +:+ MEMORY_CLOSE +:+ v))
  = Some (trim m)
  ∧ memoryNote (parseChatResponse JSON_parse (u +:+ MEMORY_OPEN +:+ m))
    = None.
Proof.
  destruct tags_are_tags as (_ & _ & Hmo & Hmc).
  intros Hu Hm. unfold parseChatResponse. cbn [memoryNote]. split.
  - by rewrite (regexMatch_first MEMORY_OPEN MEMORY_CLOSE u m v).
  - unfold regexMatch.
    rewrite <- (sapp_nil_r m) at 1.
    rewrite (cut_first MEMORY_OPEN u (m +:+ "") Hmo Hu), sapp_nil_r.
    by rewrite (cut_absent MEMORY_CLOSE m Hm).
Qed.

Lemma memory_note_of_first_block_witness :
  memoryNote (parseChatResponse parseRequestOnly
                (actionBlock requestText +:+ MEMORY_OPEN
                   +:+ " the build is red " +:+ MEMORY_CLOSE +:+ " ok"))
  = Some "the build is red"
  ∧ memoryNote (parseChatResponse parseRequestOnly
                  (actionBlock requestText +:+ MEMORY_OPEN
                     +:+ " the build is red "))
    = None.
Proof.
  apply (memory_note_of_first_block parseRequestOnly
           (actionBlock requestText) " the build is red " " ok");
    reflexivity.
Defined.

End ChatMoreFacts.

(** ** Splitting a long response *)

Module TelegramFacts.
Import Telegram.

Lemma MAX_pos : (0 < MAX_MESSAGE_LENGTH)%nat.
Proof. unfold MAX_MESSAGE_LENGTH. lia. Qed.

Lemma lastIndexOfChar_le (c : ascii) (s : string) :
  ∀ from i, lastIndexOfChar c from s = Some i → (i ≤ from)%nat.
Proof.
  induction s as [|d s IH]; intros from i; cbn [lastIndexOfChar];
    [done|].
  destruct from as [|from].
  - destruct (bool_decide (d = c)); [|done]. intros [= <-]. lia.
  - destruct (lastIndexOfChar c from s) as [j|] eqn:E.
    + intros [= <-]. specialize (IH from j E). lia.
    + destruct (bool_decide (d = c)); [|done]. intros [= <-]. lia.
Qed.

Lemma splitIndexOf_bounds (r : string) :
  (MAX_MESSAGE_LENGTH ≤ 2 * splitIndexOf r)%nat
  ∧ (splitIndexOf r ≤ MAX_MESSAGE_LENGTH)%nat.
Proof.
  unfold splitIndexOf.
  set (byBreak :=
         if belowHalf (lastIndexOfChar "010"%char MAX_MESSAGE_LENGTH r)
         then lastIndexOfChar " "%char MAX_MESSAGE_LENGTH r
         else lastIndexOfChar "010"%char MAX_MESSAGE_LENGTH r).
  assert (Hle : ∀ i, byBreak = Some i → (i ≤ MAX_MESSAGE_LENGTH)%nat).
  { intros i. unfold byBreak.
    destruct (belowHalf _); apply lastIndexOfChar_le. }
  destruct (belowHalf byBreak) eqn:E; cbv iota; [lia|].
  destruct byBreak as [i|]; [|discriminate].
  unfold belowHalf in E. apply Nat.ltb_ge in E.
  specialize (Hle i eq_refl). change (default MAX_MESSAGE_LENGTH (Some i)) with i.
  lia.
Qed.

Lemma length_sliceTo (n : nat) (s : string) :
  (n ≤ String.length s)%nat → String.length (sliceTo n s) = n.
Proof.
  revert s. induction n as [|n IH]; intros s H; [done|].
  destruct s as [|c s]; simpl in *; [lia|]. rewrite IH; [done | lia].
Qed.

Lemma length_sliceFrom (n : nat) (s : string) :
  String.length (sliceFrom n s) = String.length s - n.
Proof.
  revert s. induction n as [|n IH]; intros s; simpl; [lia|].
  destruct s as [|c s]; simpl; [done | apply IH].
Qed.

Lemma slice_app (n : nat) (s : string) : sliceTo n s +:+ sliceFrom n s = s.
Proof.
  revert s. induction n as [|n IH]; intros s; [done|].
  destruct s as [|c s]; [done|]. cbn [sliceTo sliceFrom].
  by rewrite sapp_cons, IH.
Qed.

Lemma length_trimStart (s : string) :
  (String.length (trimStart s) ≤ String.length s)%nat.
Proof.
  induction s as [|c s IH]; [done|]. cbn [trimStart].
  destruct (isWhite c); simpl; lia.
Qed.

Lemma dropWhite_app (a b : string) :
  dropWhite (a +:+ b) = dropWhite a +:+ dropWhite b.
Proof.
  induction a as [|c a IH]; [done|]. rewrite sapp_cons. cbn [dropWhite].
  destruct (isWhite c); [done|]. by rewrite sapp_cons, IH.
Qed.

Lemma dropWhite_trimStart (s : string) : dropWhite (trimStart s) = dropWhite s.
Proof.
  induction s as [|c s IH]; [done|]. cbn [trimStart].
  destruct (isWhite c) eqn:E; [|done]. cbn [dropWhite]. by rewrite E.
Qed.

Lemma joined_cons (c : string) (cs : list string) :
  joined (c :: cs) = c +:+ joined cs.
Proof.
  unfold joined. destruct cs as [|d cs]; cbn [String.concat].
  - by rewrite sapp_nil_r.
  - done.
Qed.

(** What the loop pushes: chunks that are neither empty nor too long,
    and that hold the text up to whitespace. *)
Lemma splitLoop_spec (fuel : nat) :
  ∀ r, (String.length r ≤ fuel)%nat →
    ∃ chunks,
      splitLoop fuel r = Some chunks
      ∧ Forall (λ c, (0 < String.length c ≤ MAX_MESSAGE_LENGTH)%nat) chunks
      ∧ dropWhite (joined chunks) = dropWhite r.
Proof.
  pose proof MAX_pos as Hmax.
  induction fuel as [|fuel IH]; intros r Hlen.
  - exists []. destruct r; [|simpl in Hlen; lia]. by split_and!.
  - cbn [splitLoop].
    destruct (String.length r =? 0)%nat eqn:E0.
    { exists []. apply Nat.eqb_eq in E0. destruct r; [|discriminate].
      by split_and!. }
    apply Nat.eqb_neq in E0.
    destruct (String.length r <=? MAX_MESSAGE_LENGTH)%nat eqn:E1.
    { exists [r]. apply Nat.leb_le in E1. split_and!; [done| |].
      - constructor; [lia | constructor].
      - by rewrite joined_cons, sapp_nil_r. }
    apply Nat.leb_gt in E1.
    destruct (splitIndexOf_bounds r) as [Hlo Hhi].
    set (i := splitIndexOf r) in *.
    destruct (IH (trimStart (sliceFrom i r))) as (cs & -> & Hall & Hdrop).
    { pose proof (length_trimStart (sliceFrom i r)).
      rewrite length_sliceFrom in *. lia. }
    exists (sliceTo i r :: cs). split_and!; [done| |].
    + constructor; [|done]. rewrite length_sliceTo; lia.
    + rewrite joined_cons, dropWhite_app, Hdrop, dropWhite_trimStart.
      by rewrite <- dropWhite_app, slice_app.
Qed.

(** The chunks of a text: at least one, none too long, and none empty
    unless the text is. *)
Lemma splitMessage_lengths (text : string) :
  ∃ chunks,
    splitMessage text = Some chunks
    ∧ chunks ≠ []
    ∧ Forall (λ c, (String.length c ≤ MAX_MESSAGE_LENGTH)%nat
                   ∧ (text ≠ "" → c ≠ "")) chunks.
Proof.
  unfold splitMessage.
  destruct (String.length text <=? MAX_MESSAGE_LENGTH)%nat eqn:E.
  - exists [text]. apply Nat.leb_le in E.
    split_and!; [done | done | by constructor].
  - apply Nat.leb_gt in E.
    destruct (splitLoop_spec (String.length text) text (le_n _))
      as (chunks & Hloop & Hall & _).
    exists chunks. split_and!; [done | |].
    + intros ->. destruct (String.length text) eqn:Hl; [lia|].
      cbn [splitLoop] in Hloop. rewrite Hl in Hloop.
      cbn [Nat.eqb] in Hloop. rewrite <- Hl in Hloop.
      replace (String.length text <=? MAX_MESSAGE_LENGTH)%nat with false
        in Hloop by (symmetry; apply Nat.leb_gt; lia).
      by destruct (splitLoop _ _).
    + eapply Forall_impl; [exact Hall|]. cbn. intros c Hc.
      split; [lia|]. intros _ ->. simpl in Hc. lia.
Qed.

(** X16.  [splitMessage] always comes to an end, with at least one
    chunk; no chunk is longer than 4096 characters, and when the text is
    not empty no chunk is empty. *)
Theorem splitMessage_chunks (text : string) :
  ∃ chunks,
    splitMessage text = Some chunks
    ∧ chunks ≠ []
    ∧ Forall (λ c, (String.length c ≤ MAX_MESSAGE_LENGTH)%nat) chunks
    ∧ (text ≠ "" → Forall (λ c, c ≠ "") chunks).
Proof.
  destruct (splitMessage_lengths text) as (chunks & Hsplit & Hne & Hall).
  exists chunks. split_and!; [done | done | |].
  - eapply Forall_impl; [exact Hall|]. by intros c [Hc _].
  - intros Htext. eapply Forall_impl; [exact Hall|].
    intros c [_ Hc]. by apply Hc.
Qed.

(** X17.  Nothing but whitespace is lost in splitting: the chunks, put
    end to end, hold the non-whitespace characters of the text in their
    order; and a text of at most 4096 characters is sent as it is, in
    one chunk. *)
Theorem splitMessage_keeps_text (text : string) :
  (∀ chunks, splitMessage text = Some chunks →
             dropWhite (joined chunks) = dropWhite text)
  ∧ ((String.length text ≤ MAX_MESSAGE_LENGTH)%nat →
     splitMessage text = Some [text]).
Proof.
  unfold splitMessage. split.
  - intros chunks.
    destruct (String.length text <=? MAX_MESSAGE_LENGTH)%nat.
    + intros [= <-]. by rewrite joined_cons, sapp_nil_r.
    + destruct (splitLoop_spec (String.length text) text (le_n _))
        as (chunks' & -> & _ & Hdrop). by intros [= <-].
  - intros H. apply Nat.leb_le in H. by rewrite H.
Qed.

(** A text of 5000 characters with one space, at index 3000: it is cut
    at the space, which is dropped. *)
Example split_at_a_space :
  let text := copies 3000 "a" +:+ " " +:+ copies 1999 "b" in
  splitMessage text = Some [copies 3000 "a"; copies 1999 "b"].
Proof. vm_compute. reflexivity. Qed.

(** Without any break in reach, the text is cut at 4096. *)
Example split_hard_cut :
  splitMessage (copies 5000 "a")
  = Some [copies 4096 "a"; copies 904 "a"].
Proof. vm_compute. reflexivity. Qed.

End TelegramFacts.

(** ** Characters of messages *)

Module CharsFacts.
Import Chars.

Lemma occurs_app (c : ascii) (a b : string) :
  occurs c (a +:+ b) = occurs c a || occurs c b.
Proof.
  induction a as [|d a IH]; [done|]. rewrite sapp_cons. cbn [occurs].
  by rewrite IH, orb_assoc.
Qed.

(** A character of a substring is a character of the text. *)
Lemma includes_occurs (s p : string) (c : ascii) :
  includes s p = true → occurs c p = true → occurs c s = true.
Proof.
  intros H Hc. apply includes_spec in H as (a & b & ->).
  rewrite !occurs_app, Hc. by rewrite orb_true_r.
Qed.

Lemma absent_char (s p : string) (c : ascii) :
  occurs c p = true → occurs c s = false → includes s p = false.
Proof.
  intros Hp Hs. apply not_true_is_false. intros H.
  rewrite (includes_occurs s p c H Hp) in Hs. discriminate.
Qed.

Lemma pretty_N_char_digit (x : N) : isDigit (pretty_N_char x) = true.
Proof. unfold pretty_N_char. by repeat case_match. Qed.

Lemma occurs_pretty_N_go (c : ascii) (x : N) :
  isDigit c = false →
  ∀ s, occurs c (pretty_N_go x s) = occurs c s.
Proof.
  intros Hc. induction (N.lt_wf_0 x) as [x _ IH]. intros s.
  destruct (decide (x = 0)%N) as [->|Hx]; [done|].
  rewrite pretty_N_go_step by lia.
  rewrite IH by (apply N.div_lt; lia). cbn [occurs].
  rewrite bool_decide_eq_false_2; [done|]. intros Heq.
  pose proof (pretty_N_char_digit (x `mod` 10)) as Hd.
  rewrite Heq in Hd. congruence.
Qed.

(** A decimal numeral holds digits and at most a minus sign. *)
Lemma occurs_pretty_Z (c : ascii) (z : Z) :
  isDigit c = false → c ≠ "-"%char → occurs c (pretty z) = false.
Proof.
  intros Hc Hminus.
  assert (HN : ∀ x : N, occurs c (pretty x) = false).
  { intros x. unfold pretty, pretty_N. destruct (decide (x = 0)%N).
    - cbn. rewrite bool_decide_eq_false_2; [done|]. by intros <-.
    - by rewrite occurs_pretty_N_go. }
  destruct z as [|p|p]; unfold pretty, pretty_Z.
  - cbn. rewrite bool_decide_eq_false_2; [done|]. by intros <-.
  - apply (HN (Npos p)).
  - rewrite occurs_app. cbn. rewrite bool_decide_eq_false_2 by congruence.
    apply (HN (Npos p)).
Qed.

(** A two-character text [cd] does not occur in a text whose only [c] is
    its last character. *)
Lemma includes_pair_last (s : string) (c d : ascii) :
  occurs c s = false →
  includes (s +:+ String c "") (String c (String d "")) = false.
Proof.
  induction s as [|e s IH]; intros H.
  - rewrite sapp_nil_l. cbn [includes]. rewrite !prefix_cons. cbn.
    by rewrite andb_false_r.
  - cbn [occurs] in H. apply orb_false_iff in H as [He H].
    rewrite sapp_cons. cbn [includes]. rewrite prefix_cons, (IH H).
    apply bool_decide_eq_false in He.
    rewrite bool_decide_eq_false_2 by congruence. done.
Qed.

Lemma timeoutMessage_has_timed_out (ms : Z) :
  includes (timeoutMessage ms) "timed out" = true.
Proof.
  unfold timeoutMessage.
  change ("Claude CLI timed out after " +:+ pretty ms +:+ "ms")
    with ("Claude CLI " +:+ "timed out" +:+ " after " +:+ pretty ms +:+ "ms").
  apply includes_app_mid.
Qed.

Lemma timeoutMessage_absent (ms : Z) (c : ascii) :
  isDigit c = false → c ≠ "-"%char →
  occurs c "Claude CLI timed out after ms" = false →
  occurs c (timeoutMessage ms) = false.
Proof.
  intros Hd Hm Hc. unfold timeoutMessage.
  rewrite !occurs_app, (occurs_pretty_Z c ms Hd Hm).
  change "Claude CLI timed out after ms"
    with ("Claude CLI timed out after " +:+ "ms") in Hc.
  rewrite occurs_app in Hc. apply orb_false_iff in Hc as [-> ->]. done.
Qed.

Lemma timeoutMessage_no_resume (ms : Z) :
  includes (timeoutMessage ms) "resume" = false.
Proof.
  apply not_true_is_false. intros H.
  assert (Hsu : includes (timeoutMessage ms) "su" = true).
  { by apply (includes_trans _ "resume"). }
  unfold timeoutMessage in Hsu.
  change ("Claude CLI timed out after " +:+ pretty ms +:+ "ms")
    with ("Claude CLI timed out after " +:+ pretty ms +:+ "m" +:+ "s") in Hsu.
  rewrite <- !sapp_assoc in Hsu.
  rewrite includes_pair_last in Hsu; [discriminate|].
  rewrite !occurs_app, (occurs_pretty_Z "s" ms); done.
Qed.

End CharsFacts.

(** ** The invoker and the message handler *)

Module InvokerFacts.
Import Chars CharsFacts Handler Telegram TelegramFacts.

Section WithParser.

Variable parseClaudeOutput : string → string + ClaudeResult.

Lemma timeoutMessage_not_session_error (ms : Z) :
  isSessionError (timeoutMessage ms) = false.
Proof.
  unfold isSessionError.
  rewrite (absent_char _ "session" "n"), timeoutMessage_no_resume,
    (absent_char _ "not found" "n"), (absent_char _ "invalid" "n");
    try done; by apply timeoutMessage_absent.
Qed.

(** X18.  The session-resume retry never re-spawns a call that was
    cancelled or that ran into the call timeout.  A cancellation settles
    the promise with the [AbortError] of the child process, or with
    "Cancelled" when the child had closed by itself; the timeout with
    its own message.  None of the three messages is a session error, so
    even with a session handle the call rejects with it, and the process
    without [--resume] is never consulted. *)
Theorem cancel_and_timeout_not_retried (sessionId : option string)
    (proc : option string → ProcEvent) :
  (proc sessionId = ProcError ABORT_ERROR →
   invokeClaude parseClaudeOutput sessionId proc = inl ABORT_ERROR)
  ∧ (∀ code stdout stderr,
       proc sessionId = ProcClose code stdout stderr true →
       invokeClaude parseClaudeOutput sessionId proc = inl "Cancelled")
  ∧ (∀ ms,
       proc sessionId = TimerFired ms →
       invokeClaude parseClaudeOutput sessionId proc
       = inl (timeoutMessage ms)).
Proof.
  split_and!.
  - intros Hproc. unfold invokeClaude. rewrite Hproc.
    cbn [invokeClaudeInternal].
    replace (isSessionError ABORT_ERROR) with false
      by (vm_compute; reflexivity).
    by rewrite andb_false_r.
  - intros code stdout stderr Hproc. unfold invokeClaude.
    rewrite Hproc. cbn. by rewrite andb_false_r.
  - intros ms Hproc. unfold invokeClaude. rewrite Hproc.
    cbn [invokeClaudeInternal]. fold (timeoutMessage ms).
    by rewrite timeoutMessage_not_session_error, andb_false_r.
Qed.

(** X19.  A process that closes, unaborted, with a stdout that is not
    blank always yields a result, whatever its exit code and stderr:
    the parsed output, or, when the output parser throws, the trimmed
    stdout as a raw, non-error result without cost. *)
Theorem nonblank_stdout_resolves (sessionId : option string)
    (code : option Z) (stdout stderr : string) :
  isEmpty (trim stdout) = false →
  ∃ r,
    invokeClaudeInternal parseClaudeOutput sessionId
      (ProcClose code stdout stderr false) = inr r
    ∧ (parseClaudeOutput stdout = inr r
       ∨ ((∃ why, parseClaudeOutput stdout = inl why)
          ∧ cr_result r = trim stdout ∧ cr_isError r = false
          ∧ cr_costUsd r = None)).
Proof.
  intros Hblank.
  assert (Hne : isEmpty stdout = false) by (by destruct stdout).
  cbn [invokeClaudeInternal]. rewrite Hne, andb_false_r.
  destruct (parseClaudeOutput stdout) as [why|r] eqn:E.
  - rewrite Hblank. cbn [negb]. eexists. split; [done|]. right. eauto.
  - exists r. split; [done | by left].
Qed.

End WithParser.

Lemma nonblank_stdout_resolves_witness :
  ∃ r,
    invokeClaudeInternal neverParses (Some "s1")
      (ProcClose (Some 1%Z) " partial answer " "warning" false) = inr r
    ∧ (neverParses " partial answer " = inr r
       ∨ ((∃ why, neverParses " partial answer " = inl why)
          ∧ cr_result r = trim " partial answer " ∧ cr_isError r = false
          ∧ cr_costUsd r = None)).
Proof.
  apply (nonblank_stdout_resolves neverParses (Some "s1") (Some 1%Z)
           " partial answer " "warning").
  reflexivity.
Defined.

Lemma rate_limit_reply (errMsg : string) :
  errorReply (Some ("Rate limited: " +:+ errMsg))
  = Some "Claude is rate limited. Please wait a moment and try again.".
Proof.
  change ("Rate limited: " +:+ errMsg)
    with (String "R" ("ate limited: " +:+ errMsg)).
  cbn [errorReply].
  change (String "R" ("ate limited: " +:+ errMsg))
    with ("" +:+ "Rate limited" +:+ ": " +:+ errMsg).
  by rewrite includes_app_mid.
Qed.

Lemma timeout_reply (ms : Z) :
  errorReply (Some (timeoutMessage ms))
  = Some "Request timed out. Try a simpler question or increase the timeout.".
Proof.
  pose proof (timeoutMessage_has_timed_out ms) as Hto.
  assert (Hrl : includes (timeoutMessage ms) "Rate limited" = false).
  { apply (absent_char _ _ "R"); [done|]. by apply timeoutMessage_absent. }
  revert Hto Hrl. unfold timeoutMessage.
  change ("Claude CLI timed out after " +:+ pretty ms +:+ "ms")
    with (String "C" (String "l"
            ("aude CLI timed out after " +:+ pretty ms +:+ "ms"))).
  cbn [errorReply]. by intros -> ->.
Qed.

(** X20.  What the user is told when the call of [invokeClaude] made by
    [handleMessage] rejects.  After a cancellation that kills the
    running child: "Error: The operation was aborted"; nothing at all
    only when the close handler finds the signal aborted.  When the
    child exits non-zero with an empty stdout and a stderr containing
    "rate limit" or "429": the rate-limit notice, unless there is a
    session and the message is a session error, in which case the call
    is repeated without the session and its outcome is that of the
    second call.  When the call timer fires: the timeout notice,
    whatever the timeout. *)
Theorem errorReply_of_invoker (parse : string → string + ClaudeResult)
    (sessionId : option string) (proc : option string → ProcEvent) :
  (proc sessionId = ProcError ABORT_ERROR →
   ∃ m, invokeClaude parse sessionId proc = inl m
        ∧ errorReply (Some m) = Some "Error: The operation was aborted")
  ∧ (∀ code stdout stderr,
       proc sessionId = ProcClose code stdout stderr true →
       ∃ m, invokeClaude parse sessionId proc = inl m
            ∧ errorReply (Some m) = None)
  ∧ (∀ code stderr,
       proc sessionId = ProcClose code "" stderr false →
       exitedNonZero code = true →
       includes stderr "rate limit" || includes stderr "429" = true →
       if hasSession sessionId && isSessionError ("Rate limited: " +:+ stderr)
       then invokeClaude parse sessionId proc
            = invokeClaudeInternal parse None (proc None)
       else ∃ m, invokeClaude parse sessionId proc = inl m
                 ∧ errorReply (Some m)
                   = Some "Claude is rate limited. Please wait a moment and try again.")
  ∧ (∀ ms,
       proc sessionId = TimerFired ms →
       ∃ m, invokeClaude parse sessionId proc = inl m
            ∧ errorReply (Some m)
              = Some "Request timed out. Try a simpler question or increase the timeout.").
Proof.
  split_and!.
  - intros Hproc. exists ABORT_ERROR. split; [|reflexivity].
    unfold invokeClaude. rewrite Hproc. cbn [invokeClaudeInternal].
    replace (isSessionError ABORT_ERROR) with false
      by (vm_compute; reflexivity).
    by rewrite andb_false_r.
  - intros code stdout stderr Hproc. exists "Cancelled".
    split; [|reflexivity].
    unfold invokeClaude. rewrite Hproc. cbn. by rewrite andb_false_r.
  - intros code stderr Hproc Hcode Hrate.
    assert (Hne : isEmpty stderr = false).
    { destruct stderr; [discriminate Hrate | done]. }
    assert (Hfirst : invokeClaudeInternal parse sessionId (proc sessionId)
                     = inl ("Rate limited: " +:+ stderr)).
    { rewrite Hproc. cbn [invokeClaudeInternal].
      rewrite Hcode, Hrate. cbn [isEmpty andb].
      unfold orElse. by rewrite Hne. }
    unfold invokeClaude. rewrite Hfirst.
    destruct (hasSession sessionId
              && isSessionError ("Rate limited: " +:+ stderr)); [done|].
    eexists. split; [done|]. apply rate_limit_reply.
  - intros ms Hproc. exists (timeoutMessage ms).
    split; [|apply timeout_reply].
    unfold invokeClaude. rewrite Hproc.
    cbn [invokeClaudeInternal]. fold (timeoutMessage ms).
    by rewrite timeoutMessage_not_session_error, andb_false_r.
Qed.

Lemma errorReply_of_invoker_witness :
  ∃ m, invokeClaude (fun _ => inl "") (Some "s1")
         (fun _ => ProcError ABORT_ERROR) = inl m
       ∧ errorReply (Some m) = Some "Error: The operation was aborted".
Proof.
  destruct (errorReply_of_invoker (fun _ => inl "") (Some "s1")
              (fun _ => ProcError ABORT_ERROR)) as (H & _).
  apply H. reflexivity.
Defined.

(** A rate-limit message that is a session error too: the call is made
    again without the session, and the user gets the answer of the
    second call. *)
Example rate_limit_with_session_word :
  let proc (resume : option string) :=
    match resume with
    | Some _ => ProcClose (Some 1%Z) "" "429: invalid session" false
    | None => ProcClose (Some 0%Z) "hello" "" false
    end in
  match invokeClaude (fun _ => inl "not JSON") (Some "s1") proc with
  | inr r => cr_result r = "hello"
  | inl _ => False
  end.
Proof. vm_compute. reflexivity. Qed.

(** X21.  Whatever result the call returns, the response is sent in at
    least one chunk, and no chunk is empty or longer than 4096
    characters: an empty result text is replaced by "(empty response)"
    before splitting. *)
Theorem responseChunks_sendable (result : ClaudeResult) :
  ∃ chunks,
    responseChunks result = Some chunks
    ∧ chunks ≠ []
    ∧ Forall (λ c, c ≠ "" ∧ (String.length c ≤ MAX_MESSAGE_LENGTH)%nat) chunks.
Proof.
  unfold responseChunks.
  destruct (splitMessage_lengths (responseText result))
    as (chunks & Hsplit & Hne & Hall).
  exists chunks. split_and!; [done | done |].
  assert (Htext : responseText result ≠ "").
  { unfold responseText, orElse.
    by destruct (if cr_isError result then _ else _). }
  eapply Forall_impl; [exact Hall|]. intros c [Hlen Hc].
  split; [by apply Hc | done].
Qed.

End InvokerFacts.


(** ** Bracket matching *)

Module BracketFacts.
Import Brackets Telegram.
Import JsStringFacts SubstringFacts TelegramFacts.

Lemma get_some (text : string) :
  ∀ i, (i < String.length text)%nat → ∃ ch, String.get i text = Some ch.
Proof.
  induction text as [|d text IH]; intros i H; simpl in H; [lia|].
  destruct i as [|i]; simpl; [by exists d|]. apply IH. lia.
Qed.

Lemma get_length (text : string) :
  ∀ i ch, String.get i text = Some ch → (i < String.length text)%nat.
Proof.
  induction text as [|d text IH]; intros i ch H; [by destruct i|].
  destruct i as [|i]; simpl in *; [lia|]. apply IH in H. lia.
Qed.

Lemma get_sliceFrom (text : string) :
  ∀ i ch, String.get i text = Some ch →
          sliceFrom i text = String ch (sliceFrom (S i) text).
Proof.
  induction text as [|d text IH]; intros i ch H; [by destruct i|].
  destruct i as [|i]; simpl in H.
  - by injection H as ->.
  - cbn [sliceFrom]. by apply IH.
Qed.

Lemma slice_step (text : string) (i L : nat) (ch : ascii) :
  (i ≤ L)%nat → String.get i text = Some ch →
  slice i (S L) text = String ch (slice (S i) (S L) text).
Proof.
  intros Hi H. unfold slice. rewrite (get_sliceFrom _ _ _ H).
  replace (S L - i)%nat with (S (L - i)) by lia.
  by replace (S L - S i)%nat with (L - i)%nat by lia.
Qed.

Lemma slice_none (i : nat) (text : string) : slice i i text = "".
Proof. unfold slice. by rewrite Nat.sub_diag. Qed.

Lemma includes_slice (a b : nat) (text : string) :
  includes text (slice a b text) = true.
Proof.
  apply includes_spec.
  exists (sliceTo a text), (sliceFrom (b - a) (sliceFrom a text)).
  unfold slice. by rewrite !slice_app.
Qed.

Lemma lastIndexOfChar_get (c : ascii) (s : string) :
  ∀ from i, lastIndexOfChar c from s = Some i → String.get i s = Some c.
Proof.
  induction s as [|d s IH]; intros from i; cbn [lastIndexOfChar]; [done|].
  destruct from as [|from].
  - case_bool_decide; [|done]. intros [= <-]. simpl. by subst.
  - destruct (lastIndexOfChar c from s) eqn:E.
    + intros [= <-]. simpl. by eapply IH.
    + case_bool_decide; [|done]. intros [= <-]. simpl. by subst.
Qed.

Lemma decide_some (a b : ascii) :
  bool_decide (Some a = Some b) = bool_decide (a = b).
Proof. apply bool_decide_ext. naive_solver. Qed.

(** The backward scan, started on the closing character: it stops on an
    opening character, and the stretch from there to the closing
    character holds as many of the one as of the other. *)
Lemma scanDown_spec (o c : ascii) (text : string) (L : nat) :
  o ≠ c → (L < String.length text)%nat →
  ∀ i depth start,
    (i ≤ L)%nat →
    depth = (count c (slice (S i) (S L) text)
             - count o (slice (S i) (S L) text))%Z →
    (0 ≤ depth)%Z →
    (depth = 0%Z → String.get i text = Some c) →
    scanDown (Some o) (Some c) text i depth = Some start →
    (start ≤ i)%nat
    ∧ String.get start text = Some o
    ∧ count o (slice start (S L) text) = count c (slice start (S L) text).
Proof.
  intros Hoc HL.
  assert (Hstep : ∀ i depth start,
    (i ≤ L)%nat →
    depth = (count c (slice (S i) (S L) text)
             - count o (slice (S i) (S L) text))%Z →
    (0 ≤ depth)%Z →
    (depth = 0%Z → String.get i text = Some c) →
    scanDown (Some o) (Some c) text i depth = Some start →
    (start = i ∧ String.get i text = Some o
     ∧ count o (slice i (S L) text) = count c (slice i (S L) text))
    ∨ (∃ i' d2, i = S i'
        ∧ d2 = (count c (slice i (S L) text)
                - count o (slice i (S L) text))%Z
        ∧ (0 < d2)%Z
        ∧ scanDown (Some o) (Some c) text i' d2 = Some start)).
  { intros i depth start Hi Hd H0 Hz Hscan.
    destruct (get_some text i ltac:(lia)) as [ch Hch].
    rewrite (slice_step text i L ch Hi Hch). cbn [count].
    assert (Hscan' :
      (let d1 := if bool_decide (ch = c) then (depth + 1)%Z else depth in
       let d2 := if bool_decide (ch = o) then (d1 - 1)%Z else d1 in
       if (d2 =? 0)%Z then Some i
       else match i with
            | O => None
            | S i' => scanDown (Some o) (Some c) text i' d2
            end) = Some start).
    { rewrite <- Hscan. destruct i; cbn [scanDown];
        by rewrite Hch, !decide_some. }
    clear Hscan. cbv zeta in Hscan'.
    destruct (bool_decide (ch = c)) eqn:Ec, (bool_decide (ch = o)) eqn:Eo.
    - apply bool_decide_eq_true in Ec, Eo. congruence.
    - destruct (depth + 1 =? 0)%Z eqn:E; [lia|].
      destruct i as [|i']; [done|]. right. exists i', (depth + 1)%Z.
      split_and!; [done | lia | lia | done].
    - destruct (depth - 1 =? 0)%Z eqn:E.
      + injection Hscan' as <-. left. split_and!; [done| |lia].
        apply bool_decide_eq_true in Eo. by subst.
      + destruct i as [|i']; [done|]. right. exists i', (depth - 1)%Z.
        assert (depth ≠ 0%Z).
        { intros Hd0. specialize (Hz Hd0). rewrite Hch in Hz.
          injection Hz as ->. by rewrite bool_decide_eq_true_2 in Ec. }
        split_and!; [done | lia | lia | done].
    - assert (depth ≠ 0%Z).
      { intros Hd0. specialize (Hz Hd0). rewrite Hch in Hz.
        injection Hz as ->. by rewrite bool_decide_eq_true_2 in Ec. }
      destruct (depth =? 0)%Z eqn:E; [lia|].
      destruct i as [|i']; [done|]. right. exists i', depth.
      split_and!; [done | lia | lia | done]. }
  induction i as [|i IH]; intros depth start Hi Hd H0 Hz Hscan.
  - destruct (Hstep 0%nat depth start Hi Hd H0 Hz Hscan)
      as [(-> & Ho & Hc)|(i' & d2 & ? & _)]; [done|lia].
  - destruct (Hstep (S i) depth start Hi Hd H0 Hz Hscan)
      as [(-> & Ho & Hc)|(i' & d2 & [= <-] & Hd2 & Hpos & Hrest)]; [done|].
    destruct (IH d2 start) as (Hle & Ho & Hc); [lia | done | lia | lia | done |].
    split_and!; [lia | done | done].
Qed.

(** The forward scan stops where the braces met since its start are in
    balance. *)
Lemma scanUp_spec (rest : string) :
  ∀ i depth j,
    scanUp rest i depth = Some j →
    (i ≤ j)%nat
    ∧ (depth + count "{" (sliceTo (S (j - i)) rest)
       - count "}" (sliceTo (S (j - i)) rest) = 0)%Z.
Proof.
  induction rest as [|ch rest IH]; intros i depth j H; [done|].
  cbn [scanUp] in H. cbv zeta in H.
  destruct (_ =? 0)%Z eqn:E in H.
  - injection H as <-. split; [done|]. rewrite Nat.sub_diag.
    cbn [sliceTo count]. apply Z.eqb_eq in E.
    repeat case_bool_decide; lia.
  - apply IH in H as [Hle Hbal]. split; [lia|].
    replace (j - i)%nat with (S (j - S i)) by lia.
    change (sliceTo (S (S (j - S i))) (String ch rest))
      with (String ch (sliceTo (S (j - S i)) rest)).
    cbn [count]. repeat case_bool_decide; lia.
Qed.

End BracketFacts.

(** ** [parsePlan] and [validatePlan] *)

Module PlanParserFacts.
Import Brackets PlanParser Samples ParserSamples.
Import JsStringFacts SubstringFacts TelegramFacts BracketFacts.

Lemma isString_true (lit : string) (o : option json) :
  Json.isString lit o = true ↔ o = Some (JStr lit).
Proof.
  destruct o as [[]|]; simpl; rewrite ?String.eqb_eq; naive_solver.
Qed.

Lemma checkWorkers_None (workers : list json) :
  checkWorkers workers = None
  ↔ Forall (λ worker,
              Json.truthy (Json.get "id" worker) = true
              ∧ Json.truthy (Json.get "prompt" worker) = true) workers.
Proof.
  induction workers as [|w ws IH]; cbn [checkWorkers];
    [split; by constructor|].
  rewrite Forall_cons, <- IH. unfold checkWorker.
  destruct w; simpl;
    try (destruct (Json.truthy _), (Json.truthy _); simpl); naive_solver.
Qed.

Lemma validatePlan_inr (plan p : json) :
  validatePlan plan = inr p → p = plan ∧ wellShaped plan.
Proof.
  unfold validatePlan, wellShaped.
  destruct plan as [| | | | |fields]; try done. cbn [Json.get].
  destruct (Json.isString "plan" (Json.assoc "type" fields)) eqn:Et;
    [|done].
  apply isString_true in Et.
  destruct (Json.assoc "workers" fields) as [[| | | |workers|]|] eqn:Ew;
    try done.
  cbn [isArray negb orb].
  destruct (checkWorkers workers) eqn:Ec; [done|]. intros [= <-].
  split_and!; [done | done |]. exists workers. split; [done|].
  by apply checkWorkers_None.
Qed.

Lemma validatePlan_wellShaped (plan : json) :
  wellShaped plan → validatePlan plan = inr plan.
Proof.
  intros (Ht & workers & Hw & Hall). apply checkWorkers_None in Hall.
  destruct plan as [| | | | |fields]; try done.
  unfold validatePlan. rewrite Hw, Hall.
  apply isString_true in Ht. by rewrite Ht.
Qed.

(** X22.  [validatePlan] hands back the plan it was given, unchanged,
    exactly when that is an object whose [type] is the string "plan" and
    whose [workers] is an array of which every element has a truthy [id]
    and a truthy [prompt]; in every other case it throws. *)
Theorem validatePlan_accepts (plan p : json) :
  validatePlan plan = inr p ↔ p = plan ∧ wellShaped plan.
Proof.
  split.
  - apply validatePlan_inr.
  - intros [-> H]. by apply validatePlan_wellShaped.
Qed.

(** [dependsOn] is not looked at: a plan whose worker has a string for
    it passes. *)
Example dependsOn_not_validated :
  let plan :=
    JObj [ ("type", JStr "plan");
           ("workers",
            JArr [ JObj [ ("id", JStr "B"); ("prompt", JStr "do B");
                          ("dependsOn", JStr "A") ] ]) ] in
  validatePlan plan = inr plan.
Proof. reflexivity. Qed.

Lemma tryPlan_Some (JSON_parse : string → option json)
    (candidate : string) (plan : json) :
  tryPlan JSON_parse candidate = Some plan →
  JSON_parse candidate = Some plan ∧ wellShaped plan.
Proof.
  unfold tryPlan. destruct (JSON_parse candidate) as [j|]; [|done].
  destruct (validatePlan j) as [|p] eqn:Ev; [done|]. intros [= <-].
  by apply validatePlan_inr in Ev as [-> ?].
Qed.

Lemma typedCandidate_spec (text candidate : string) :
  typedCandidate text = Some candidate →
  includes text candidate = true
  ∧ String.get 0 candidate = Some "{"%char
  ∧ count "{" candidate = count "}" candidate.
Proof.
  unfold typedCandidate. destruct (indexOf typeKey text) as [n|]; [|done].
  destruct (Telegram.lastIndexOfChar "{" n text) as [b|] eqn:Eb; [|done].
  destruct (scanUp (sliceFrom b text) b 0) as [i|] eqn:Es; [|done].
  intros [= <-]. apply scanUp_spec in Es as [Hle Hbal].
  apply lastIndexOfChar_get in Eb. split_and!.
  - apply includes_slice.
  - replace (i + 1)%nat with (S i) by lia.
    by rewrite (slice_step _ _ _ _ Hle Eb).
  - unfold slice. replace (i + 1 - b)%nat with (S (i - b)) by lia. lia.
Qed.

Lemma lastCandidate_spec (text candidate : string) :
  lastCandidate text = Some candidate →
  includes text candidate = true
  ∧ String.get 0 candidate = Some "{"%char
  ∧ count "{" candidate = count "}" candidate.
Proof.
  unfold lastCandidate, lastIndexOf.
  destruct (Telegram.lastIndexOfChar "}" _ text) as [L|] eqn:EL; [|done].
  destruct (scanDown _ _ text L 0) as [start|] eqn:Es; [|done].
  intros [= <-]. apply lastIndexOfChar_get in EL.
  pose proof (get_length _ _ _ EL) as HL.
  destruct (scanDown_spec "{" "}" text L ltac:(done) HL L 0%Z start)
    as (Hle & Ho & Hbal); [done | by rewrite slice_none | done | done | done |].
  replace (L + 1)%nat with (S L) by lia. split_and!.
  - apply includes_slice.
  - by rewrite (slice_step _ _ _ _ Hle Ho).
  - done.
Qed.

Lemma length_sliceTo_le (n : nat) (s : string) :
  (String.length (sliceTo n s) ≤ n)%nat.
Proof.
  revert s. induction n as [|n IH]; intros [|c s]; simpl; try lia.
  specialize (IH s). lia.
Qed.

(** X23.  What [parsePlan] returns has passed [validatePlan], and is
    what [JSON.parse] makes of the trimmed text, of the trimmed body of
    its first code fence, or of a part of the text that starts with an
    opening brace and holds as many opening as closing braces.  When it
    throws, the message is never the one of [validatePlan] or of
    [JSON.parse]: it is the fixed sentence, followed by at most the
    first 100 characters of the trimmed text in quotes. *)
Theorem parsePlan_outcome (JSON_parse : string → option json)
    (fenceMatch : string → option string) (raw : string) :
  (∀ plan,
     parsePlan JSON_parse fenceMatch raw = inr plan →
     wellShaped plan
     ∧ ∃ candidate,
         candidateOf fenceMatch (trim raw) candidate
         ∧ JSON_parse candidate = Some plan)
  ∧ (∀ message,
       parsePlan JSON_parse fenceMatch raw = inl message →
       ∃ excerpt,
         message
         = "Could not extract JSON plan from orchestrator output. Raw output starts with: "
           +:+ quoted (excerpt +:+ "...")
         ∧ String.prefix excerpt (trim raw) = true
         ∧ (String.length excerpt ≤ 100)%nat
         ∧ tryPlan JSON_parse (trim raw) = None).
Proof.
  unfold parsePlan. cbv zeta. set (text := trim raw).
  destruct (tryPlan JSON_parse text) as [p1|] eqn:E1.
  { split; [|done]. intros plan [= <-].
    apply tryPlan_Some in E1 as [Hp Hw]. split; [done|].
    exists text. split; [by left | done]. }
  destruct (tryCandidate JSON_parse (fencedCandidate fenceMatch text))
    as [p2|] eqn:E2.
  { split; [|done]. intros plan [= <-]. unfold fencedCandidate in E2.
    destruct (fenceMatch text) as [body|] eqn:Ef; [|done].
    apply tryPlan_Some in E2 as [Hp Hw]. split; [done|].
    exists (trim body). split; [|done]. right. left. by exists body. }
  destruct (tryCandidate JSON_parse (typedCandidate text)) as [p3|] eqn:E3.
  { split; [|done]. intros plan [= <-].
    destruct (typedCandidate text) as [c|] eqn:Ec; [|done].
    apply tryPlan_Some in E3 as [Hp Hw]. split; [done|].
    exists c. split; [|done]. right. right.
    by apply typedCandidate_spec. }
  destruct (tryCandidate JSON_parse (lastCandidate text)) as [p4|] eqn:E4.
  { split; [|done]. intros plan [= <-].
    destruct (lastCandidate text) as [c|] eqn:Ec; [|done].
    apply tryPlan_Some in E4 as [Hp Hw]. split; [done|].
    exists c. split; [|done]. right. right.
    by apply lastCandidate_spec. }
  split; [done|]. intros message [= <-]. exists (sliceTo 100 text).
  split_and!; [| | apply length_sliceTo_le | done].
  { unfold failureMessage, quoted, quote.
    by rewrite (sapp_assoc (sliceTo 100 text)). }
  apply prefix_spec. exists (sliceFrom 100 text). by rewrite slice_app.
Qed.

(** A plan between two lines of prose is found, by the third strategy. *)
Example plan_in_prose :
  parsePlan parsePlanOnly noFence
    ("Here is the plan:" +:+ nl +:+ planText +:+ nl +:+ "Good luck!")
  = inr planObject.
Proof. vm_compute. reflexivity. Qed.

(** A text that is a JSON object, but no plan, is refused with the
    message about extraction, not the one about the missing type. *)
Example not_a_plan :
  parsePlan parseResultOnly noFence resultText
  = inl (failureMessage resultText).
Proof. vm_compute. reflexivity. Qed.

End PlanParserFacts.

(** ** [parseClaudeOutput] *)

Module OutputParserFacts.
Import Brackets OutputParser Samples ParserSamples Handler.
Import JsStringFacts SubstringFacts TelegramFacts BracketFacts.

Lemma maxIndex_closer (text : string) (L : nat) :
  maxIndex (lastIndexOf "}" text) (lastIndexOf "]" text) = Some L →
  String.get L text = Some "}"%char ∨ String.get L text = Some "]"%char.
Proof.
  unfold lastIndexOf.
  destruct (Telegram.lastIndexOfChar "}" _ text) as [a|] eqn:Ea;
    destruct (Telegram.lastIndexOfChar "]" _ text) as [b|] eqn:Eb;
    cbn [maxIndex]; intros [= <-].
  - apply lastIndexOfChar_get in Ea, Eb.
    destruct (Nat.max_spec a b) as [[_ ->]|[_ ->]]; [by right | by left].
  - left. by eapply lastIndexOfChar_get.
  - right. by eapply lastIndexOfChar_get.
Qed.

(** X24.  A result of [parseClaudeOutput] is what [extractResult] makes
    of a parsed text, and that text is either the whole trimmed output
    or a part of it that starts with an opening bracket and holds as
    many brackets of that kind opening as closing. *)
Theorem parseClaudeOutput_result (JSON_parse : string → option json)
    (extractResult : json → string + ClaudeResult)
    (syntaxError : string → string) (raw : string) (r : ClaudeResult) :
  parseClaudeOutput JSON_parse extractResult syntaxError raw = inr r →
  ∃ candidate data,
    JSON_parse candidate = Some data
    ∧ extractResult data = inr r
    ∧ (candidate = trim raw
       ∨ (includes (trim raw) candidate = true
          ∧ ((String.get 0 candidate = Some "{"%char
              ∧ count "{" candidate = count "}" candidate)
             ∨ (String.get 0 candidate = Some "["%char
                ∧ count "[" candidate = count "]" candidate)))).
Proof.
  unfold parseClaudeOutput. cbv zeta. set (text := trim raw).
  assert (Hpe : ∀ c r',
    parseAndExtract JSON_parse extractResult syntaxError c = inr r' →
    ∃ data, JSON_parse c = Some data ∧ extractResult data = inr r').
  { intros c r'. unfold parseAndExtract.
    destruct (JSON_parse c) as [data|]; [|done]. by exists data. }
  destruct (parseAndExtract _ _ _ text) as [m|r1] eqn:E1.
  2:{ intros [= <-]. destruct (Hpe _ _ E1) as (data & ? & ?).
      exists text, data. split_and!; [done | done | by left]. }
  destruct (maxIndex _ _) as [L|] eqn:EL; [|done].
  pose proof (maxIndex_closer _ _ EL) as Hclose.
  assert (HL : (L < String.length text)%nat).
  { destruct Hclose as [H|H]; by apply get_length in H. }
  destruct (scanDown _ _ text L 0) as [start|] eqn:Es; [|done].
  intros H. destruct (Hpe _ _ H) as (data & Hd & Hr).
  exists (slice start (L + 1) text), data.
  split_and!; [done | done |]. right. split; [apply includes_slice|].
  replace (L + 1)%nat with (S L) by lia.
  destruct Hclose as [Hc|Hc]; rewrite Hc in Es; [left | right].
  - change (openCharOf (Some "}"%char)) with (Some "{"%char) in Es.
    destruct (scanDown_spec "{" "}" text L ltac:(done) HL L 0%Z start)
      as (Hle & Ho & Hbal);
      [done | by rewrite slice_none | done | done | exact Es |].
    split; [by rewrite (slice_step _ _ _ _ Hle Ho) | done].
  - change (openCharOf (Some "]"%char)) with (Some "["%char) in Es.
    destruct (scanDown_spec "[" "]" text L ltac:(done) HL L 0%Z start)
      as (Hle & Ho & Hbal);
      [done | by rewrite slice_none | done | done | exact Es |].
    split; [by rewrite (slice_step _ _ _ _ Hle Ho) | done].
Qed.

Lemma parseClaudeOutput_result_witness :
  ∃ candidate data,
    parseResultOnly candidate = Some data
    ∧ extractPlainResult data
      = inr {| cr_result := "done"; cr_sessionId := "";
               cr_costUsd := None; cr_duration := None;
               cr_isError := false |}
    ∧ (candidate = trim ("Running..." +:+ nl +:+ resultText +:+ nl)
       ∨ (includes (trim ("Running..." +:+ nl +:+ resultText +:+ nl))
                   candidate = true
          ∧ ((String.get 0 candidate = Some "{"%char
              ∧ count "{" candidate = count "}" candidate)
             ∨ (String.get 0 candidate = Some "["%char
                ∧ count "[" candidate = count "]" candidate)))).
Proof.
  apply (parseClaudeOutput_result parseResultOnly extractPlainResult
           endOfInput ("Running..." +:+ nl +:+ resultText +:+ nl)).
  vm_compute. reflexivity.
Defined.

Lemma blank_output (JSON_parse : string → option json)
    (extractResult : json → string + ClaudeResult)
    (syntaxError : string → string) (raw : string) :
  JSON_parse "" = None → trim raw = "" →
  parseClaudeOutput JSON_parse extractResult syntaxError raw
  = inl "No JSON found in Claude output".
Proof.
  intros HJ Ht. unfold parseClaudeOutput, parseAndExtract. cbv zeta.
  by rewrite Ht, HJ.
Qed.

(** X25.  A CLI process that closes, not cancelled, having printed
    nothing but whitespace (with exit code 0 if it printed nothing at
    all) makes [invokeClaude] reject with "No JSON found in Claude
    output"; the call is not repeated without the session, and the
    handler answers with that message after "Error: ". *)
Theorem silent_exit_rejects (JSON_parse : string → option json)
    (extractResult : json → string + ClaudeResult)
    (syntaxError : string → string)
    (sessionId : option string) (proc : option string → ProcEvent)
    (code : option Z) (stdout stderr : string) :
  JSON_parse "" = None →
  proc sessionId = ProcClose code stdout stderr false →
  trim stdout = "" →
  stdout ≠ "" ∨ code = Some 0%Z →
  ∃ message,
    invokeClaude (parseClaudeOutput JSON_parse extractResult syntaxError)
                 sessionId proc = inl message
    ∧ message = "No JSON found in Claude output"
    ∧ errorReply (Some message)
      = Some "Error: No JSON found in Claude output".
Proof.
  intros HJ Hproc Ht Hcode. exists "No JSON found in Claude output".
  split_and!; [|done|done].
  unfold invokeClaude, invokeClaudeInternal. rewrite Hproc.
  assert (exitedNonZero code && isEmpty stdout = false) as ->.
  { destruct Hcode as [H| ->]; [|done].
    destruct stdout; [done|]. apply andb_false_r. }
  rewrite (blank_output _ _ _ _ HJ Ht), Ht. cbn [isEmpty negb].
  replace (isSessionError "No JSON found in Claude output") with false
    by (vm_compute; reflexivity).
  by rewrite andb_false_r.
Qed.

Lemma silent_exit_rejects_witness :
  ∃ message,
    invokeClaude (parseClaudeOutput noJson extractPlainResult endOfInput)
                 (Some "s1")
                 (fun _ => ProcClose (Some 0%Z) (" " +:+ nl) "" false)
    = inl message
    ∧ message = "No JSON found in Claude output"
    ∧ errorReply (Some message)
      = Some "Error: No JSON found in Claude output".
Proof.
  apply (silent_exit_rejects noJson extractPlainResult endOfInput
           (Some "s1")
           (fun _ => ProcClose (Some 0%Z) (" " +:+ nl) "" false)
           (Some 0%Z) (" " +:+ nl) "").
  - reflexivity.
  - reflexivity.
  - vm_compute. reflexivity.
  - left. discriminate.
Defined.

End OutputParserFacts.
